(** * A shallow embedding of the Claude agent SDK for Go

    The development follows the packages of the repository:

    - [Errors]    : types/errors.go, the typed errors and their rendering;
    - [Transport] : the subprocess transport (sticky error, stdin writes,
                    the scanner of the diagnostic stream);
    - [Json]      : the part of encoding/json the decoders rely on;
    - [Types]     : types/messages.go, the message decoder;
    - [Router]    : the control-protocol engine (type Query);
    - [Session]   : client.go, the interactive client;
    - [Version]   : the CLI version check and the search for the binary;
    - [Reader]    : the reader loop of the transport;
    - [Forward]   : the loop that forwards a response to the caller;
    - [Command]   : the command line of the subprocess.

    Go strings are byte strings and are modelled by [string]; a Go [int] or
    [int64] is a [Z]; a Go map is a [gmap]; an [error] that may be nil is an
    [option error].  Calls to the logger have no effect on the state the
    theorems talk about and are left out. *)

From Stdlib Require Import ZArith Lia Ascii String.
From stdpp Require Import gmap strings list pretty sorting.

Set Warnings "-register-all".
Local Open Scope Z_scope.

(* ===================================================================== *)
(** ** Byte-string helpers (Go slicing and [len]) *)
(* ===================================================================== *)

(** [len(s)] as a Go int. *)
Definition len (s : string) : Z := Z.of_nat (String.length s).

(** [s[lo:hi]] for [0 <= lo <= hi <= len(s)]; the callers below guard the
    bounds before they slice. *)
Definition slice (s : string) (lo hi : Z) : string :=
  String.substring (Z.to_nat lo) (Z.to_nat (hi - lo)) s.

(** [s[i]] as a byte; the zero byte stands for an index out of range, which
    the callers below exclude by their loop conditions. *)
Definition byte_at (s : string) (i : Z) : ascii :=
  match String.get (Z.to_nat i) s with
  | Some c => c
  | None => Ascii.zero
  end.

(* ===================================================================== *)
(** ** types/errors.go *)
(* ===================================================================== *)

Module Errors.

(** The error values that flow through the SDK.  Every typed error carries
    an optional wrapped cause.  [Foreign] stands for an error made outside
    package types (fmt.Errorf, encoding/json, io, os/exec); only its text is
    known.  [Canceled] and [DeadlineExceeded] are the two values of
    [ctx.Err()] of a finished context. *)
Inductive error : Type :=
| CLINotFoundError (Message : string) (Cause : option error)
| CLIConnectionError (Message : string) (Cause : option error)
| ProcessError (Message : string) (ExitCode : Z) (Cause : option error)
| JSONDecodeError (Message : string) (Raw : string) (Cause : option error)
| MessageParseError (Message : string) (MessageType : string) (Cause : option error)
| ControlProtocolError (Message : string) (Cause : option error)
| PermissionDeniedError (Message : string) (ToolName : string) (Reason : string)
    (Cause : option error)
| SessionNotFoundError (SessionID : string) (Message : string) (Cause : option error)
| Foreign (text : string)
| Canceled
| DeadlineExceeded.

Definition NewCLIConnectionError (message : string) : error :=
  CLIConnectionError message None.
Definition NewCLIConnectionErrorWithCause (message : string) (cause : error) : error :=
  CLIConnectionError message (Some cause).
Definition NewJSONDecodeErrorWithCause (message raw : string) (cause : error) : error :=
  JSONDecodeError message raw (Some cause).
Definition NewMessageParseErrorWithType (message messageType : string) : error :=
  MessageParseError message messageType None.
Definition NewControlProtocolError (message : string) : error :=
  ControlProtocolError message None.
Definition NewControlProtocolErrorWithCause (message : string) (cause : error) : error :=
  ControlProtocolError message (Some cause).
Definition NewSessionNotFoundError (sessionID message : string) : error :=
  SessionNotFoundError sessionID message None.

(** The snippet of the raw input that [JSONDecodeError.Error] prints: the
    input itself up to 100 bytes, else its first 100 bytes and an ellipsis. *)
Definition rawSnippet (raw : string) : string :=
  if 100 <? len raw then slice raw 0 100 +:+ "..." else raw.

(** [msg = msg + ": " + e.Cause.Error()] when the cause is set. *)
Definition withCause (msg : string) (cause : option string) : string :=
  match cause with
  | Some c => msg +:+ ": " +:+ c
  | None => msg
  end.

(** The [Error()] method of each error type. *)
Fixpoint Error (e : error) : string :=
  let cause c := match c with Some c' => Some (Error c') | None => None end in
  match e with
  | CLINotFoundError m c => withCause m (cause c)
  | CLIConnectionError m c => withCause m (cause c)
  | ProcessError m code c =>
      let msg := if code =? 0 then m else m +:+ " (exit code: " +:+ pretty code +:+ ")" in
      withCause msg (cause c)
  | JSONDecodeError m raw c =>
      let msg := if String.eqb raw "" then m
                 else m +:+ " (raw: " +:+ rawSnippet raw +:+ ")" in
      withCause msg (cause c)
  | MessageParseError m ty c =>
      let msg := if String.eqb ty "" then m else m +:+ " (type: " +:+ ty +:+ ")" in
      withCause msg (cause c)
  | ControlProtocolError m c => withCause m (cause c)
  | PermissionDeniedError m tool reason c =>
      let msg := if String.eqb tool "" then m else m +:+ " (tool: " +:+ tool +:+ ")" in
      let msg := if String.eqb reason "" then msg else msg +:+ " - " +:+ reason in
      withCause msg (cause c)
  | SessionNotFoundError sid m c =>
      let msg := if String.eqb sid "" then m else m +:+ " (session ID: " +:+ sid +:+ ")" in
      withCause msg (cause c)
  | Foreign text => text
  | Canceled => "context canceled"
  | DeadlineExceeded => "context deadline exceeded"
  end.

(** The [Unwrap()] method. *)
Definition Unwrap (e : error) : option error :=
  match e with
  | CLINotFoundError _ c | CLIConnectionError _ c | ProcessError _ _ c
  | JSONDecodeError _ _ c | MessageParseError _ _ c | ControlProtocolError _ c
  | PermissionDeniedError _ _ _ c | SessionNotFoundError _ _ c => c
  | Foreign _ | Canceled | DeadlineExceeded => None
  end.

(** The chain [errors.As] walks: the error, its cause, the cause's cause ... *)
Fixpoint chain (e : error) : list error :=
  let rest c := match c with Some c' => chain c' | None => [] end in
  e :: match e with
       | CLINotFoundError _ c | CLIConnectionError _ c | ProcessError _ _ c
       | JSONDecodeError _ _ c | MessageParseError _ _ c | ControlProtocolError _ c
       | PermissionDeniedError _ _ _ c | SessionNotFoundError _ _ c => rest c
       | Foreign _ | Canceled | DeadlineExceeded => []
       end.

(** [errors.As(err, &e)] for a target of the dynamic type that [kind]
    recognises. *)
Definition As (kind : error -> bool) (e : error) : bool := existsb kind (chain e).

Definition isCLIConnection (e : error) : bool :=
  match e with CLIConnectionError _ _ => true | _ => false end.
Definition isJSONDecode (e : error) : bool :=
  match e with JSONDecodeError _ _ _ => true | _ => false end.
Definition isMessageParse (e : error) : bool :=
  match e with MessageParseError _ _ _ => true | _ => false end.
Definition isControlProtocol (e : error) : bool :=
  match e with ControlProtocolError _ _ => true | _ => false end.
Definition isSessionNotFound (e : error) : bool :=
  match e with SessionNotFoundError _ _ _ => true | _ => false end.

Definition IsCLIConnectionError : error -> bool := As isCLIConnection.
Definition IsJSONDecodeError : error -> bool := As isJSONDecode.
Definition IsMessageParseError : error -> bool := As isMessageParse.
Definition IsControlProtocolError : error -> bool := As isControlProtocol.
Definition IsSessionNotFoundError : error -> bool := As isSessionNotFound.

(** [NewCLINotFoundError] and [IsCLINotFoundError] *)
Definition NewCLINotFoundError (message : string) : error := CLINotFoundError message None.
Definition isCLINotFound (e : error) : bool :=
  match e with CLINotFoundError _ _ => true | _ => false end.
Definition IsCLINotFoundError : error -> bool := As isCLINotFound.

End Errors.

Export Errors.

(* ===================================================================== *)
(** ** The subprocess transport: sticky error, writes, stderr scanner *)
(* ===================================================================== *)

Module Transport.

(** The fields of [SubprocessCLITransport] that [Write], [OnError],
    [GetError], [IsReady] and [parseStderrError] read or write.  [writer]
    says whether [t.writer] is non-nil; [stdin] is what the child process
    has been sent, line by line. *)
Record SubprocessCLITransport : Type := mkTransport {
  writer : bool;
  err : option error;
  ready : bool;
  stdin : list string
}.

Definition set_err (t : SubprocessCLITransport) (e : option error) :=
  mkTransport (writer t) e (ready t) (stdin t).

(** [OnError]: keep the stored error when there is one. *)
Definition OnError (t : SubprocessCLITransport) (e : error) : SubprocessCLITransport :=
  match err t with
  | None => set_err t (Some e)
  | Some _ => t
  end.

Definition GetError (t : SubprocessCLITransport) : option error := err t.
Definition IsReady (t : SubprocessCLITransport) : bool := ready t.

(** [Write].  [io] is what [t.writer.WriteLine(data)] returns when it is
    reached: the outcome of the write on the pipe. *)
Definition Write (t : SubprocessCLITransport) (data : string) (io : option error)
  : SubprocessCLITransport * option error :=
  if negb (ready t) then
    (t, Some (NewCLIConnectionError "transport is not ready for writing"))
  else if negb (writer t) then
    (t, Some (NewCLIConnectionError "stdin writer not initialized"))
  else
    match io with
    | Some e =>
        let e' := NewCLIConnectionErrorWithCause "failed to write to subprocess stdin" e in
        (mkTransport (writer t) (Some e') false (stdin t), Some e')
    | None => (mkTransport (writer t) (err t) (ready t) (stdin t ++ [data]), None)
    end.

Definition isWhitespace (r : ascii) : bool :=
  match r with
  | " "%char | "009"%char | "010"%char | "013"%char => true
  | _ => false
  end.

(** The loop of [findSubstring]:
    [for i := 0; i <= len(s)-len(substr); i++].  The counter grows by one in
    each round and stops before [len(s) + 1], which bounds the rounds. *)
Fixpoint findSubstring_from (rounds : nat) (s substr : string) (i : Z) : Z :=
  match rounds with
  | O => -1
  | S rounds' =>
      if i <=? len s - len substr then
        if String.eqb (slice s i (i + len substr)) substr then i
        else findSubstring_from rounds' s substr (i + 1)
      else -1
  end.

Definition findSubstring (s substr : string) : Z :=
  findSubstring_from (S (String.length s)) s substr 0.

(** First loop of [trimWhitespace]:
    [for start < len(s) && isWhitespace(rune(s[start])) { start++ }]. *)
Fixpoint trim_start (rounds : nat) (s : string) (start : Z) : Z :=
  match rounds with
  | O => start
  | S rounds' =>
      if (start <? len s) && isWhitespace (byte_at s start)
      then trim_start rounds' s (start + 1)
      else start
  end.

(** Second loop:
    [for end > start && isWhitespace(rune(s[end-1])) { end-- }]. *)
Fixpoint trim_end (rounds : nat) (s : string) (start stop : Z) : Z :=
  match rounds with
  | O => stop
  | S rounds' =>
      if (start <? stop) && isWhitespace (byte_at s (stop - 1))
      then trim_end rounds' s start (stop - 1)
      else stop
  end.

Definition trimWhitespace (s : string) : string :=
  let start := trim_start (String.length s) s 0 in
  let stop := trim_end (String.length s) s start (len s) in
  slice s start stop.

(** The loop that finds the end of the first token:
    [for endIdx < len(sessionID) && !isWhitespace(rune(sessionID[endIdx]))]. *)
Fixpoint token_end (rounds : nat) (s : string) (endIdx : Z) : Z :=
  match rounds with
  | O => endIdx
  | S rounds' =>
      if (endIdx <? len s) && negb (isWhitespace (byte_at s endIdx))
      then token_end rounds' s (endIdx + 1)
      else endIdx
  end.

Definition pattern : string := "No conversation found with session ID:".

Definition extractSessionNotFoundError (stderrText : string) : bool * string :=
  let idx := findSubstring stderrText pattern in
  if 0 <=? idx then
    let sessionIDStart := idx + len pattern in
    if sessionIDStart <? len stderrText then
      let remaining := slice stderrText sessionIDStart (len stderrText) in
      let sessionID := trimWhitespace remaining in
      if 0 <? len sessionID then
        let endIdx := token_end (String.length sessionID) sessionID 0 in
        (true, slice sessionID 0 endIdx)
      else (false, "")
    else (false, "")
  else (false, "").

Definition sessionNotFoundMessage : string :=
  "Claude CLI could not find this conversation. It may have been deleted or the CLI was reinstalled.".

Definition parseStderrError (t : SubprocessCLITransport) (stderrText : string)
  : SubprocessCLITransport :=
  match extractSessionNotFoundError stderrText with
  | (true, sessionID) =>
      OnError t (NewSessionNotFoundError sessionID sessionNotFoundMessage)
  | (false, _) => t
  end.

(** What can happen to a connected transport, in the order the mutex
    serialises it: the reader loop reports an error, the stderr reader scans
    one line of diagnostic text, or a caller writes a line (with the outcome
    of the write on the pipe). *)
Inductive op : Type :=
| OpOnError (e : error)
| OpStderr (stderrText : string)
| OpWrite (data : string) (io : option error).

Definition apply_op (t : SubprocessCLITransport) (o : op) : SubprocessCLITransport :=
  match o with
  | OpOnError e => OnError t e
  | OpStderr text => parseStderrError t text
  | OpWrite data io => fst (Write t data io)
  end.

Definition run (t : SubprocessCLITransport) (ops : list op) : SubprocessCLITransport :=
  foldl apply_op t ops.

(** The transport right after a successful [Connect]. *)
Definition connected : SubprocessCLITransport := mkTransport true None true [].


(** *** Vocabulary of the statements about the string helpers *)

(** [substr] occurs in [s] at byte offset [i]. *)
Definition occursAt (s substr : string) (i : Z) : Prop :=
  exists before after, s = before +:+ substr +:+ after /\ len before = i.

Definition allWhitespace (s : string) : Prop :=
  Forall (fun c => isWhitespace c = true) (list_ascii_of_string s).

Definition noWhitespace (s : string) : Prop :=
  Forall (fun c => isWhitespace c = false) (list_ascii_of_string s).

Definition startsWithWhitespace (s : string) : bool :=
  match s with
  | String c _ => isWhitespace c
  | EmptyString => false
  end.

Definition endsWithWhitespace (s : string) : bool :=
  match last (list_ascii_of_string s) with
  | Some c => isWhitespace c
  | None => false
  end.

(** The data of the writes of a sequence that come before its first failed
    write. *)
Fixpoint written (ops : list op) : list string :=
  match ops with
  | [] => []
  | OpWrite data None :: rest => data :: written rest
  | OpWrite _ (Some _) :: _ => []
  | _ :: rest => written rest
  end.

(** The error an operation reports through [OnError]: the one given to
    [OnError], or the one made for a stderr line that is recognised. *)
Definition reported (o : op) : option error :=
  match o with
  | OpOnError e => Some e
  | OpStderr text =>
      match extractSessionNotFoundError text with
      | (true, sessionID) => Some (NewSessionNotFoundError sessionID sessionNotFoundMessage)
      | (false, _) => None
      end
  | OpWrite _ _ => None
  end.

(** The errors reported before the first failed write of a sequence, in
    order, and the connection error of that write. *)
Fixpoint reports (ops : list op) : list error :=
  match ops with
  | [] => []
  | OpWrite _ (Some _) :: _ => []
  | o :: rest => option_list (reported o) ++ reports rest
  end.

Fixpoint failedWrite (ops : list op) : option error :=
  match ops with
  | [] => None
  | OpWrite _ (Some e) :: _ =>
      Some (NewCLIConnectionErrorWithCause "failed to write to subprocess stdin" e)
  | _ :: rest => failedWrite rest
  end.

End Transport.


(* ===================================================================== *)
(** ** encoding/json, as far as the decoders depend on it *)
(* ===================================================================== *)

Module Json.

(** A syntactically valid JSON text: its structure, and with every value
    the bytes it spans in the input ([raw]), which is what a
    [json.RawMessage] of that value holds.  A number keeps its literal. *)
Inductive json : Type :=
| JNull (raw : string)
| JBool (raw : string) (b : bool)
| JNumber (raw : string)
| JString (raw : string) (s : string)
| JArray (raw : string) (elems : list json)
| JObject (raw : string) (members : list (string * json)).

Definition raw_of (j : json) : string :=
  match j with
  | JNull r | JBool r _ | JNumber r | JString r _ | JArray r _ | JObject r _ => r
  end.

(** The dynamic values an [interface{}] holds in this program: nil, bool,
    int, float64 (kept as the literal it was read from), string,
    [[]interface{}] and [map[string]interface{}].  The map is an option:
    [None] is the nil map. *)
Inductive value : Type :=
| VNil
| VBool (b : bool)
| VInt (z : Z)
| VFloat (lit : string)
| VString (s : string)
| VSlice (l : list value)
| VMap (m : option (gmap string value)).

(** [map[string]interface{}]; [None] is nil. *)
Abbreviation gomap := (option (gmap string value)).

(** [m[k]]: the zero value (nil) for a missing key and for a nil map. *)
Definition index (m : gomap) (k : string) : value :=
  match m with
  | Some g => default VNil (g !! k)
  | None => VNil
  end.

(** [s, ok := v.(string)] *)
Definition asString (v : value) : string * bool :=
  match v with
  | VString s => (s, true)
  | _ => ("", false)
  end.

(** [m, _ := v.(map[string]interface{})] *)
Definition asMap (v : value) : gomap :=
  match v with
  | VMap m => m
  | _ => None
  end.

(** [l, _ := v.([]interface{})] *)
Definition asSlice (v : value) : list value :=
  match v with
  | VSlice l => l
  | _ => []
  end.

(** Storing the members of an object into a map in the order of the text:
    a later member replaces an earlier one with the same key. *)
Definition storeMembers (g : gmap string value) (kvs : list (string * value))
  : gmap string value :=
  foldl (fun m kv => <[kv.1 := kv.2]> m) g kvs.

(** Decoding a JSON value into an [interface{}]. *)
Fixpoint toValue (j : json) : value :=
  match j with
  | JNull _ => VNil
  | JBool _ b => VBool b
  | JNumber r => VFloat r
  | JString _ s => VString s
  | JArray _ elems => VSlice (map toValue elems)
  | JObject _ members =>
      VMap (Some (storeMembers ∅ (map (fun kv => (fst kv, toValue (snd kv))) members)))
  end.

(** What the model leaves to the library: the syntax check and parse of an
    input ([inr] carries the text of the syntax error), which keys of an
    object a struct field of a given name takes, the error reported when
    a value cannot be stored in the field of that name, and which number
    literals [strconv.ParseFloat] converts to a [float64] without a range
    error. *)
Record Encoding : Type := mkEncoding {
  parse : string -> json + string;
  keyMatch : string -> string -> bool;
  typeError : string -> json -> error;
  floatRange : string -> bool
}.

(** *** Which JSON values a Go type accepts *)

Definition isDigit (c : ascii) : bool :=
  let n := Z.of_nat (nat_of_ascii c) in (48 <=? n) && (n <=? 57).

Fixpoint digitsValue (s : string) (acc : Z) : option Z :=
  match s with
  | EmptyString => Some acc
  | String c s' =>
      if isDigit c then digitsValue s' (10 * acc + (Z.of_nat (nat_of_ascii c) - 48))
      else None
  end.

(** The value of a number literal that fits a Go [int] (64 bits): digits
    with an optional sign, no fraction, no exponent. *)
Definition intLiteral (lit : string) : option Z :=
  let inRange z := if (- 2 ^ 63 <=? z) && (z <? 2 ^ 63) then Some z else None in
  match lit with
  | EmptyString => None
  | String "-"%char EmptyString => None
  | String "-"%char s' => z ← digitsValue s' 0; inRange (- z)
  | _ => z ← digitsValue lit 0; inRange z
  end.

Definition acceptsString (j : json) : bool :=
  match j with JString _ _ | JNull _ => true | _ => false end.
Definition acceptsBool (j : json) : bool :=
  match j with JBool _ _ | JNull _ => true | _ => false end.
Definition acceptsInt (j : json) : bool :=
  match j with JNumber r => bool_decide (is_Some (intLiteral r)) | JNull _ => true | _ => false end.
(** [*float64]: a number that converts to a [float64]. *)
Definition acceptsFloat (enc : Encoding) (j : json) : bool :=
  match j with JNumber r => floatRange enc r | JNull _ => true | _ => false end.

(** Decoding into an [interface{}] converts every number of the value, at
    any depth, to a [float64]. *)
Fixpoint numbersInRange (enc : Encoding) (j : json) : bool :=
  match j with
  | JNumber r => floatRange enc r
  | JArray _ elems => forallb (numbersInRange enc) elems
  | JObject _ members => forallb (fun kv => numbersInRange enc (snd kv)) members
  | _ => true
  end.

(** [interface{}] *)
Definition acceptsAny (enc : Encoding) (j : json) : bool := numbersInRange enc j.
(** [map[string]interface{}] *)
Definition acceptsObject (enc : Encoding) (j : json) : bool :=
  match j with JObject _ _ => numbersInRange enc j | JNull _ => true | _ => false end.
(** [json.RawMessage], [[]json.RawMessage] and [map[string]json.RawMessage]
    keep the bytes of their values and convert nothing. *)
Definition acceptsRaw (j : json) : bool := true.
Definition acceptsArray (j : json) : bool :=
  match j with JArray _ _ | JNull _ => true | _ => false end.
Definition acceptsRawObject (j : json) : bool :=
  match j with JObject _ _ | JNull _ => true | _ => false end.

(** *** Storing a value in a field that holds [cur] *)

Definition storeString (cur : string) (j : json) : string :=
  match j with JString _ s => s | _ => cur end.
Definition storeBool (cur : bool) (j : json) : bool :=
  match j with JBool _ b => b | _ => cur end.
Definition storeInt (cur : Z) (j : json) : Z :=
  match j with JNumber r => default cur (intLiteral r) | _ => cur end.
(** [*string], [*bool], [*float64]: null stores nil. *)
Definition storeStringPtr (cur : option string) (j : json) : option string :=
  match j with JString _ s => Some s | JNull _ => None | _ => cur end.
Definition storeBoolPtr (cur : option bool) (j : json) : option bool :=
  match j with JBool _ b => Some b | JNull _ => None | _ => cur end.
Definition storeFloatPtr (cur : option string) (j : json) : option string :=
  match j with JNumber r => Some r | JNull _ => None | _ => cur end.
(** [map[string]interface{}]: an object is stored into the map the field
    already holds (a fresh one when it is nil); null stores nil. *)
Definition storeMap (cur : gomap) (j : json) : gomap :=
  match j with
  | JObject _ members =>
      Some (storeMembers (default ∅ cur) (map (fun kv => (fst kv, toValue (snd kv))) members))
  | JNull _ => None
  | _ => cur
  end.
Definition storeAny (cur : value) (j : json) : value := toValue j.
(** [json.RawMessage]: the bytes of any value, null included; [None] is the
    field left empty. *)
Definition storeRaw (cur : option json) (j : json) : option json := Some j.
(** [[]json.RawMessage]: [None] is the nil slice. *)
Definition storeRawSlice (cur : option (list json)) (j : json) : option (list json) :=
  match j with JArray _ elems => Some elems | JNull _ => None | _ => cur end.
(** [map[string]json.RawMessage], kept as the members stored so far. *)
Definition storeRawMap (cur : option (list (string * json))) (j : json)
  : option (list (string * json)) :=
  match j with
  | JObject _ members => Some (default [] cur ++ members)
  | JNull _ => None
  | _ => cur
  end.

(** [m[k]] for a [map[string]json.RawMessage]: the last member stored
    under exactly that key. *)
Definition rawMapIndex (m : option (list (string * json))) (k : string) : option json :=
  foldl (fun acc kv => if String.eqb (fst kv) k then Some (snd kv) else acc) None (default [] m).

Section WithEncoding.

Variable enc : Encoding.

(** The field of name [name], after all members of the object have been
    stored in it in the order of the text. *)
Definition decodeField {A : Type} (store : A -> json -> A) (name : string)
  (members : list (string * json)) (zero : A) : A :=
  foldl (fun cur kv => if keyMatch enc name (fst kv) then store cur (snd kv) else cur)
        zero members.

(** The error of the first member, in the order of the text, that a field
    of the struct takes and cannot store.  [fields] lists the names of the
    fields with what each accepts. *)
Fixpoint firstMismatch (fields : list (string * (json -> bool)))
  (members : list (string * json)) : option error :=
  match members with
  | [] => None
  | (k, v) :: rest =>
      match List.find (fun f => keyMatch enc (fst f) k && negb (snd f v)) fields with
      | Some f => Some (typeError enc (fst f) v)
      | None => firstMismatch fields rest
      end
  end.

(** The members a struct is decoded from: those of an object, none for
    null (which leaves the struct as it is), an error for any other value. *)
Definition structMembers (j : json) : list (string * json) + error :=
  match j with
  | JObject _ members => inl members
  | JNull _ => inl []
  | _ => inr (typeError enc "" j)
  end.

End WithEncoding.

End Json.

Export Json.

(* ===================================================================== *)
(** ** types/messages.go *)
(* ===================================================================== *)

Module Types.

(** The content blocks; each keeps its [Type] field as decoded. *)
Inductive ContentBlock : Type :=
| TextBlock (Type_ Text : string)
| ThinkingBlock (Type_ Thinking Signature : string)
| ToolUseBlock (Type_ ID Name : string) (Input : gomap)
| ToolResultBlock (Type_ ToolUseID : string) (Content : value) (IsError : option bool).

Definition GetType (b : ContentBlock) : string :=
  match b with
  | TextBlock t _ | ThinkingBlock t _ _ | ToolUseBlock t _ _ _ | ToolResultBlock t _ _ _ => t
  end.

(** [UserMessage.Content] is an [interface{}]: nil in a zero message, a
    string, or a slice of content blocks. *)
Inductive UserContent : Type :=
| ContentNil
| ContentString (s : string)
| ContentBlocks (blocks : list ContentBlock).

Record UserMessage : Type := mkUserMessage {
  user_Type : string;
  user_Content : UserContent;
  user_ParentToolUseID : option string
}.

Record AssistantMessage : Type := mkAssistantMessage {
  assistant_Type : string;
  assistant_Content : list ContentBlock;
  assistant_Model : string;
  assistant_ParentToolUseID : option string
}.

Record SystemMessage : Type := mkSystemMessage {
  system_Type : string;
  Subtype : string;
  Data : gomap;
  Response : gomap;
  Request : gomap
}.

Record ResultMessage : Type := mkResultMessage {
  result_Type : string;
  result_Subtype : string;
  DurationMs : Z;
  DurationAPIMs : Z;
  IsError : bool;
  NumTurns : Z;
  result_SessionID : string;
  TotalCostUSD : option string;
  Usage : gomap;
  Result : option string
}.

Record StreamEvent : Type := mkStreamEvent {
  stream_Type : string;
  UUID : string;
  stream_SessionID : string;
  Event : gomap;
  stream_ParentToolUseID : option string
}.

(** The interface [Message] with its five implementations. *)
Inductive Message : Type :=
| MsgUser (m : UserMessage)
| MsgAssistant (m : AssistantMessage)
| MsgSystem (m : SystemMessage)
| MsgResult (m : ResultMessage)
| MsgStream (m : StreamEvent).

Definition GetMessageType (msg : Message) : string :=
  match msg with
  | MsgUser m => user_Type m
  | MsgAssistant m => assistant_Type m
  | MsgSystem m => system_Type m
  | MsgResult m => result_Type m
  | MsgStream m => stream_Type m
  end.

Section Decoder.

Variable enc : Encoding.

(** [json.Unmarshal(data, &s)] for a struct [s] without methods: [fields]
    lists its fields, [build] stores the members. *)
Definition unmarshalStruct {A : Type} (fields : list (string * (json -> bool)))
  (build : list (string * json) -> A) (j : json) : A + error :=
  match structMembers enc j with
  | inr e => inr e
  | inl members =>
      match firstMismatch enc fields members with
      | Some e => inr e
      | None => inl (build members)
      end
  end.

(** [var typeCheck struct { Type string `json:"type"` }] *)
Definition unmarshalTypeCheck : json -> string + error :=
  unmarshalStruct [("type", acceptsString)]
    (fun ms => decodeField enc storeString "type" ms "").

Definition unmarshalTextBlock : json -> ContentBlock + error :=
  unmarshalStruct [("type", acceptsString); ("text", acceptsString)]
    (fun ms => TextBlock (decodeField enc storeString "type" ms "")
                         (decodeField enc storeString "text" ms "")).

Definition unmarshalThinkingBlock : json -> ContentBlock + error :=
  unmarshalStruct
    [("type", acceptsString); ("thinking", acceptsString); ("signature", acceptsString)]
    (fun ms => ThinkingBlock (decodeField enc storeString "type" ms "")
                             (decodeField enc storeString "thinking" ms "")
                             (decodeField enc storeString "signature" ms "")).

Definition unmarshalToolUseBlock : json -> ContentBlock + error :=
  unmarshalStruct
    [("type", acceptsString); ("id", acceptsString); ("name", acceptsString);
     ("input", acceptsObject enc)]
    (fun ms => ToolUseBlock (decodeField enc storeString "type" ms "")
                            (decodeField enc storeString "id" ms "")
                            (decodeField enc storeString "name" ms "")
                            (decodeField enc storeMap "input" ms None)).

Definition unmarshalToolResultBlock : json -> ContentBlock + error :=
  unmarshalStruct
    [("type", acceptsString); ("tool_use_id", acceptsString); ("content", acceptsAny enc);
     ("is_error", acceptsBool)]
    (fun ms => ToolResultBlock (decodeField enc storeString "type" ms "")
                               (decodeField enc storeString "tool_use_id" ms "")
                               (decodeField enc storeAny "content" ms VNil)
                               (decodeField enc storeBoolPtr "is_error" ms None)).

(** Wrapping the error of a failed [json.Unmarshal] the way the decoders
    do: [NewJSONDecodeErrorWithCause(message, string(data), err)]. *)
Definition orDecodeError {A : Type} (message : string) (data : string) (r : A + error)
  : A + error :=
  match r with
  | inl a => inl a
  | inr e => inr (NewJSONDecodeErrorWithCause message data e)
  end.

(** [UnmarshalContentBlock(data)] for an input [data] that has passed the
    syntax check as [j]. *)
Definition unmarshalContentBlock (data : string) (j : json) : ContentBlock + error :=
  match unmarshalTypeCheck j with
  | inr e =>
      inr (NewJSONDecodeErrorWithCause "failed to determine content block type" data e)
  | inl ty =>
      if String.eqb ty "text" then
        orDecodeError "failed to unmarshal text block" data (unmarshalTextBlock j)
      else if String.eqb ty "thinking" then
        orDecodeError "failed to unmarshal thinking block" data (unmarshalThinkingBlock j)
      else if String.eqb ty "tool_use" then
        orDecodeError "failed to unmarshal tool_use block" data (unmarshalToolUseBlock j)
      else if String.eqb ty "tool_result" then
        orDecodeError "failed to unmarshal tool_result block" data
          (unmarshalToolResultBlock j)
      else inr (NewMessageParseErrorWithType "unknown content block type" ty)
  end.

Definition UnmarshalContentBlock (data : string) : ContentBlock + error :=
  match parse enc data with
  | inr syntaxError =>
      inr (NewJSONDecodeErrorWithCause "failed to determine content block type" data
             (Foreign syntaxError))
  | inl j => unmarshalContentBlock data j
  end.

(** The loop [for i, rawBlock := range ...] that decodes the blocks in
    order and returns at the first error.  A raw block is a value of the
    message, so it is JSON and its bytes are [raw_of rawBlock]. *)
Fixpoint unmarshalBlocks (raws : list json) : list ContentBlock + error :=
  match raws with
  | [] => inl []
  | rawBlock :: rest =>
      match unmarshalContentBlock (raw_of rawBlock) rawBlock with
      | inr e => inr e
      | inl block =>
          match unmarshalBlocks rest with
          | inr e => inr e
          | inl blocks => inl (block :: blocks)
          end
      end
  end.

(** [json.Unmarshal(raw, &s)] for a [string] and a [json.RawMessage] that
    may be empty: [None] is an error.  An empty raw message is not JSON;
    null is accepted and stores nothing. *)
Definition unmarshalString (raw : option json) : option string :=
  match raw with
  | Some (JString _ s) => Some s
  | Some (JNull _) => Some ""
  | _ => None
  end.

(** The same for a [[]json.RawMessage]; the inner [None] is the nil slice
    that null leaves. *)
Definition unmarshalRawSlice (raw : option json) : option (option (list json)) :=
  match raw with
  | Some (JArray _ elems) => Some (Some elems)
  | Some (JNull _) => Some None
  | _ => None
  end.

(** The fields of the auxiliary struct of [UserMessage.UnmarshalJSON]: the
    raw content, and through the alias the type and the parent identifier. *)
Definition userAuxFields : list (string * (json -> bool)) :=
  [("content", acceptsRaw); ("type", acceptsString); ("parent_tool_use_id", acceptsString)].

(** [UserMessage.UnmarshalJSON], which encoding/json calls with the bytes
    of the message, here already parsed. *)
Definition UserMessage_UnmarshalJSON (data : json) : UserMessage + error :=
  match unmarshalStruct userAuxFields
          (fun ms => (decodeField enc storeRaw "content" ms None,
                      decodeField enc storeString "type" ms "",
                      decodeField enc storeStringPtr "parent_tool_use_id" ms None))
          data with
  | inr e => inr e
  | inl (auxContent, ty, parent) =>
      (* Try to unmarshal as string first *)
      match unmarshalString auxContent with
      | Some contentStr => inl (mkUserMessage ty (ContentString contentStr) parent)
      | None =>
          (* Try to unmarshal as array of content blocks *)
          match unmarshalRawSlice auxContent with
          | Some contentArr =>
              match unmarshalBlocks (default [] contentArr) with
              | inr e => inr e
              | inl blocks => inl (mkUserMessage ty (ContentBlocks blocks) parent)
              end
          | None => inr (Foreign "content must be string or array of content blocks")
          end
      end
  end.

(** [AssistantMessage.UnmarshalJSON]. *)
Definition AssistantMessage_UnmarshalJSON (data : json) : AssistantMessage + error :=
  match unmarshalStruct
          [("content", acceptsArray); ("message", acceptsRawObject); ("type", acceptsString);
           ("model", acceptsString); ("parent_tool_use_id", acceptsString)]
          (fun ms => (decodeField enc storeRawSlice "content" ms None,
                      decodeField enc storeRawMap "message" ms None,
                      decodeField enc storeString "type" ms "",
                      decodeField enc storeString "model" ms "",
                      decodeField enc storeStringPtr "parent_tool_use_id" ms None))
          data with
  | inr e => inr e
  | inl (auxContent, auxMessage, ty, topModel, parent) =>
      (* Check if content is in nested message.content *)
      let nested : option (list json) :=
        match auxMessage with
        | Some _ =>
            match rawMapIndex auxMessage "content" with
            | Some contentRaw => default None (unmarshalRawSlice (Some contentRaw))
            | None => None
            end
        | None => None
        end in
      let model : string :=
        match auxMessage with
        | Some _ =>
            match rawMapIndex auxMessage "model" with
            | Some modelRaw => default topModel (unmarshalString (Some modelRaw))
            | None => topModel
            end
        | None => topModel
        end in
      (* Fall back to top-level content if nested not found *)
      let contentBlocks : option (list json) :=
        match nested, auxContent with
        | None, Some c => Some c
        | _, _ => nested
        end in
      match unmarshalBlocks (default [] contentBlocks) with
      | inr e => inr e
      | inl blocks => inl (mkAssistantMessage ty blocks model parent)
      end
  end.

Definition unmarshalSystemMessage : json -> SystemMessage + error :=
  unmarshalStruct
    [("type", acceptsString); ("subtype", acceptsString); ("data", acceptsObject enc);
     ("response", acceptsObject enc); ("request", acceptsObject enc)]
    (fun ms => mkSystemMessage (decodeField enc storeString "type" ms "")
                               (decodeField enc storeString "subtype" ms "")
                               (decodeField enc storeMap "data" ms None)
                               (decodeField enc storeMap "response" ms None)
                               (decodeField enc storeMap "request" ms None)).

Definition unmarshalResultMessage : json -> ResultMessage + error :=
  unmarshalStruct
    [("type", acceptsString); ("subtype", acceptsString); ("duration_ms", acceptsInt);
     ("duration_api_ms", acceptsInt); ("is_error", acceptsBool); ("num_turns", acceptsInt);
     ("session_id", acceptsString); ("total_cost_usd", acceptsFloat enc);
     ("usage", acceptsObject enc); ("result", acceptsString)]
    (fun ms => mkResultMessage (decodeField enc storeString "type" ms "")
                               (decodeField enc storeString "subtype" ms "")
                               (decodeField enc storeInt "duration_ms" ms 0)
                               (decodeField enc storeInt "duration_api_ms" ms 0)
                               (decodeField enc storeBool "is_error" ms false)
                               (decodeField enc storeInt "num_turns" ms 0)
                               (decodeField enc storeString "session_id" ms "")
                               (decodeField enc storeFloatPtr "total_cost_usd" ms None)
                               (decodeField enc storeMap "usage" ms None)
                               (decodeField enc storeStringPtr "result" ms None)).

Definition unmarshalStreamEvent : json -> StreamEvent + error :=
  unmarshalStruct
    [("type", acceptsString); ("uuid", acceptsString); ("session_id", acceptsString);
     ("event", acceptsObject enc); ("parent_tool_use_id", acceptsString)]
    (fun ms => mkStreamEvent (decodeField enc storeString "type" ms "")
                             (decodeField enc storeString "uuid" ms "")
                             (decodeField enc storeString "session_id" ms "")
                             (decodeField enc storeMap "event" ms None)
                             (decodeField enc storeStringPtr "parent_tool_use_id" ms None)).

(** The discriminators [UnmarshalMessage] knows. *)
Definition knownMessageTypes : list string :=
  ["user"; "assistant"; "system"; "control_request"; "control_response"; "result";
   "stream_event"].

(** [return &msg, nil] for the decoded struct, the error passed on. *)
Definition asMessage {A : Type} (wrap : A -> Message) (r : A + error) : Message + error :=
  match r with
  | inl m => inl (wrap m)
  | inr e => inr e
  end.

(** [UnmarshalMessage(data)] for an input [data] that has passed the syntax
    check as [j]. *)
Definition unmarshalMessage (data : string) (j : json) : Message + error :=
  match unmarshalTypeCheck j with
  | inr e => inr (NewJSONDecodeErrorWithCause "failed to determine message type" data e)
  | inl ty =>
      if String.eqb ty "user" then
        orDecodeError "failed to unmarshal user message" data
          (asMessage MsgUser (UserMessage_UnmarshalJSON j))
      else if String.eqb ty "assistant" then
        orDecodeError "failed to unmarshal assistant message" data
          (asMessage MsgAssistant (AssistantMessage_UnmarshalJSON j))
      else if String.eqb ty "system" || String.eqb ty "control_request"
              || String.eqb ty "control_response" then
        orDecodeError "failed to unmarshal system message" data
          (asMessage MsgSystem (unmarshalSystemMessage j))
      else if String.eqb ty "result" then
        orDecodeError "failed to unmarshal result message" data
          (asMessage MsgResult (unmarshalResultMessage j))
      else if String.eqb ty "stream_event" then
        orDecodeError "failed to unmarshal stream event" data
          (asMessage MsgStream (unmarshalStreamEvent j))
      else inr (NewMessageParseErrorWithType "unknown message type" ty)
  end.

(** [UnmarshalMessage]: the first [json.Unmarshal] rejects an input that is
    not JSON; an input that is JSON is decoded as above. *)
Definition UnmarshalMessage (data : string) : Message + error :=
  match parse enc data with
  | inr syntaxError =>
      inr (NewJSONDecodeErrorWithCause "failed to determine message type" data
             (Foreign syntaxError))
  | inl j => unmarshalMessage data j
  end.

End Decoder.

End Types.

Export Types.

(* ===================================================================== *)
(** ** The control-protocol engine (type Query) *)
(* ===================================================================== *)

Module Router.

(** A [context.Context] as the engine sees it: [None] while it is live,
    [Some e] once [Done()] is closed, [e] being what [Err()] returns. *)
Abbreviation Context := (option error).

(** Modelled from the spec: the declarations of [PermissionUpdate],
    [PermissionResultAllow], [PermissionResultDeny], [ToolPermissionContext]
    and [HookContext] are not among the sources.  The spec gives the shapes
    Allow{updatedInput?, updatedPermissions?} and Deny{message?, interrupt?};
    the fields are those [handlePermissionRequest] reads.  A permission
    update is kept as the value it stands for. *)
Definition PermissionUpdate : Type := value.

Record PermissionResultAllow : Type := mkAllow {
  allow_Behavior : string;
  UpdatedInput : option gomap;         (* *map[string]interface{}; None is nil *)
  UpdatedPermissions : list PermissionUpdate
}.

Record PermissionResultDeny : Type := mkDeny {
  deny_Behavior : string;
  deny_Message : string;
  deny_Interrupt : bool
}.

Record ToolPermissionContext : Type := mkToolPermissionContext {
  Suggestions : list PermissionUpdate
}.

(** What a permission callback returns in its [interface{}], by dynamic
    type, as the type switch of [handlePermissionRequest] tells them apart.
    A pointer may be nil ([None]). *)
Inductive PermissionResult : Type :=
| AllowValue (r : PermissionResultAllow)
| AllowPointer (r : option PermissionResultAllow)
| DenyValue (r : PermissionResultDeny)
| DenyPointer (r : option PermissionResultDeny)
| OtherResult (v : value).

(** [types.CanUseToolFunc]; the result is read only when the error is nil. *)
Definition CanUseToolFunc : Type :=
  Context -> string -> gmap string value -> ToolPermissionContext -> PermissionResult + error.

(** [types.HookCallbackFunc], without the empty [HookContext]. *)
Definition HookCallbackFunc : Type :=
  Context -> value -> option string -> value + error.

(** [types.MCPServer], reduced to the method the router calls. *)
Record MCPServer : Type := mkMCPServer {
  HandleMessage : gmap string value -> gomap + error
}.

(** [responseResult] *)
Record responseResult : Type := mkResponseResult {
  response : gomap;
  err : option error
}.

(** What a handler that may dereference a nil pointer does. *)
Inductive outcome (A : Type) : Type :=
| Returns (a : A)
| Fails (e : error)
| Panics.
Arguments Returns {A} a.
Arguments Fails {A} e.
Arguments Panics {A}.

(** The state of a [Query] and of the objects it owns.

    - [ctx] is [q.ctx];
    - a response channel is known by its identity, a number; [chans] holds
      the buffer of every channel made so far (capacity 1), [requestMap]
      maps a request identifier to the identity of its channel;
    - [messagesChan] is the buffer of the consumer channel (capacity 100),
      oldest message first;
    - [transport] is the state of the transport behind [q.transport]. *)
Record Query : Type := mkQuery {
  transport : Transport.SubprocessCLITransport;
  ctx : Context;
  requestMap : gmap string nat;
  nextRequestID : Z;
  hookCallbacks : gmap string HookCallbackFunc;
  canUseTool : option CanUseToolFunc;
  mcpServers : gmap string MCPServer;
  messagesChan : list Message;
  isStreamingMode : bool;
  chans : gmap nat (list responseResult)
}.

Definition set_transport (q : Query) (t : Transport.SubprocessCLITransport) : Query :=
  mkQuery t (ctx q) (requestMap q) (nextRequestID q) (hookCallbacks q) (canUseTool q)
    (mcpServers q) (messagesChan q) (isStreamingMode q) (chans q).
Definition set_ctx (q : Query) (c : Context) : Query :=
  mkQuery (transport q) c (requestMap q) (nextRequestID q) (hookCallbacks q) (canUseTool q)
    (mcpServers q) (messagesChan q) (isStreamingMode q) (chans q).
Definition set_requestMap (q : Query) (m : gmap string nat) : Query :=
  mkQuery (transport q) (ctx q) m (nextRequestID q) (hookCallbacks q) (canUseTool q)
    (mcpServers q) (messagesChan q) (isStreamingMode q) (chans q).
Definition set_nextRequestID (q : Query) (n : Z) : Query :=
  mkQuery (transport q) (ctx q) (requestMap q) n (hookCallbacks q) (canUseTool q)
    (mcpServers q) (messagesChan q) (isStreamingMode q) (chans q).
Definition set_messagesChan (q : Query) (ms : list Message) : Query :=
  mkQuery (transport q) (ctx q) (requestMap q) (nextRequestID q) (hookCallbacks q)
    (canUseTool q) (mcpServers q) ms (isStreamingMode q) (chans q).
Definition set_chans (q : Query) (c : gmap nat (list responseResult)) : Query :=
  mkQuery (transport q) (ctx q) (requestMap q) (nextRequestID q) (hookCallbacks q)
    (canUseTool q) (mcpServers q) (messagesChan q) (isStreamingMode q) c.

(** [NewQuery] over a transport [t], with the options' callback. *)
Definition NewQuery (t : Transport.SubprocessCLITransport) (opts_CanUseTool : option CanUseToolFunc)
  (isStreamingMode : bool) : Query :=
  mkQuery t None ∅ 0 ∅ opts_CanUseTool ∅ [] isStreamingMode ∅.

(** [AddMCPServer] *)
Definition AddMCPServer (q : Query) (name : string) (server : MCPServer) : Query :=
  mkQuery (transport q) (ctx q) (requestMap q) (nextRequestID q) (hookCallbacks q)
    (canUseTool q) (<[name := server]> (mcpServers q)) (messagesChan q)
    (isStreamingMode q) (chans q).

(** An [int64] after an addition: the value modulo 2^64, in
    [-2^63, 2^63). *)
Definition wrap64 (z : Z) : Z := (z + 2 ^ 63) mod 2 ^ 64 - 2 ^ 63.

(** [fmt.Sprintf("req_%d", id)] *)
Definition requestIDFor (id : Z) : string := "req_" +:+ pretty id.

(** [generateRequestID]: [atomic.AddInt64(&q.nextRequestID, 1)], then the
    identifier is formatted. *)
Definition generateRequestID (q : Query) : Query * string :=
  let id := wrap64 (nextRequestID q + 1) in
  (set_nextRequestID q id, requestIDFor id).

(** Capacities of the two kinds of channel: [make(chan responseResult, 1)]
    and [make(chan types.Message, 100)]. *)
Definition responseChanCap : nat := 1.
Definition messagesChanCap : nat := 100.

(** [select { case ch <- x: ... case <-q.ctx.Done(): ... }] on a buffered
    channel: which case is taken.  The send can proceed when the buffer has
    room, the other case when the context is done; when both can, Go picks
    one at random ([pickSend] says which); when neither can, the goroutine
    waits ([None]). *)
Inductive chosen : Type := SendCase | DoneCase.

Definition selectSendOrDone (room : bool) (c : Context) (pickSend : bool) : option chosen :=
  match room, c with
  | true, None => Some SendCase
  | true, Some _ => Some (if pickSend then SendCase else DoneCase)
  | false, Some _ => Some DoneCase
  | false, None => None
  end.

(** The select of [handleControlResponse] on a response channel. *)
Definition offerResult (pickSend : bool) (q : Query) (responseChan : nat)
  (r : responseResult) : option Query :=
  let buf := default [] (chans q !! responseChan) in
  match selectSendOrDone (bool_decide (length buf < responseChanCap)%nat) (ctx q) pickSend with
  | Some SendCase => Some (set_chans q (<[responseChan := buf ++ [r]]> (chans q)))
  | Some DoneCase => Some q
  | None => None
  end.

(** [handleControlResponse].  The result is [None] when the goroutine
    waits in the select for ever, else the new state and the error
    returned. *)
Definition handleControlResponse (pickSend : bool) (q : Query) (msg : SystemMessage)
  : option (Query * option error) :=
  let responseData := Response msg in
  match responseData with
  | None =>
      Some (q, Some (NewControlProtocolError
                       "invalid control response format: response field is nil"))
  | Some _ =>
      match asString (index responseData "request_id") with
      | (_, false) =>
          Some (q, Some (NewControlProtocolError "missing request_id in control response"))
      | (requestID, true) =>
          (* Find pending request *)
          match requestMap q !! requestID with
          | None => Some (q, None)       (* Orphaned response *)
          | Some responseChan =>
              let q := set_requestMap q (delete requestID (requestMap q)) in
              let subtype := fst (asString (index responseData "subtype")) in
              if String.eqb subtype "error" then
                let errMsg := fst (asString (index responseData "error")) in
                let errMsg := if String.eqb errMsg "" then "unknown control protocol error"
                              else errMsg in
                q' ← offerResult pickSend q responseChan
                       (mkResponseResult None (Some (NewControlProtocolError errMsg)));
                Some (q', None)
              else
                let response := asMap (index responseData "response") in
                q' ← offerResult pickSend q responseChan (mkResponseResult response None);
                Some (q', None)
          end
      end
  end.

Section Engine.

(** [json.Marshal] of a value, and the decoding of a permission suggestion
    ([json.Marshal] of the map, then [json.Unmarshal] into a
    [PermissionUpdate]; [None] when that fails). *)
Variable marshal : value -> string + error.
Variable decodePermissionUpdate : gomap -> option PermissionUpdate.

(** The loop over the suggestions: maps are decoded, suggestions that fail
    to decode and values that are no maps are skipped. *)
Definition permissionUpdates (suggestions : list value) : list PermissionUpdate :=
  omap (fun s => match s with
                 | VMap suggestionMap => decodePermissionUpdate suggestionMap
                 | _ => None
                 end) suggestions.

(** The two cases of the type switch, for a value and for a pointer. *)
Definition allowResponse (input : gomap) (r : PermissionResultAllow) : gmap string value :=
  let response := <["behavior" := VString "allow"]> ∅ in
  let response :=
    match UpdatedInput r with
    | Some updated => <["updatedInput" := VMap updated]> response
    | None => <["updatedInput" := VMap input]> response
    end in
  if bool_decide (0 < length (UpdatedPermissions r))%nat
  then <["updatedPermissions" := VSlice (UpdatedPermissions r)]> response
  else response.

Definition denyResponse (r : PermissionResultDeny) : gmap string value :=
  let response := <["behavior" := VString "deny"]> ∅ in
  let response := if String.eqb (deny_Message r) "" then response
                  else <["message" := VString (deny_Message r)]> response in
  if deny_Interrupt r then <["interrupt" := VBool (deny_Interrupt r)]> response
  else response.

(** [handlePermissionRequest] *)
Definition handlePermissionRequest (q : Query) (requestData : gomap) : outcome gomap :=
  match canUseTool q with
  | None => Fails (NewControlProtocolError "canUseTool callback is not provided")
  | Some callback =>
      let toolName := fst (asString (index requestData "tool_name")) in
      let input := asMap (index requestData "input") in
      let suggestions := asSlice (index requestData "permission_suggestions") in
      match String.eqb toolName "", input with
      | false, Some inputMap =>
          let permCtx := mkToolPermissionContext (permissionUpdates suggestions) in
          match callback (ctx q) toolName inputMap permCtx with
          | inr e => Fails e
          | inl (AllowValue r) => Returns (Some (allowResponse input r))
          | inl (AllowPointer (Some r)) => Returns (Some (allowResponse input r))
          | inl (DenyValue r) => Returns (Some (denyResponse r))
          | inl (DenyPointer (Some r)) => Returns (Some (denyResponse r))
          | inl (AllowPointer None) | inl (DenyPointer None) => Panics
          | inl (OtherResult _) =>
              Fails (NewControlProtocolError "permission callback returned invalid type")
          end
      | _, _ =>
          Fails (NewControlProtocolError "missing tool_name or input in permission request")
      end
  end.

(** [handleHookCallback].  No value read from JSON is a [*string], so the
    assertion on ["tool_use_id"] leaves [toolUseID] nil. *)
Definition handleHookCallback (q : Query) (requestData : gomap) : gomap + error :=
  let callbackID := fst (asString (index requestData "callback_id")) in
  let input := index requestData "input" in
  if String.eqb callbackID "" then
    inr (NewControlProtocolError "missing callback_id in hook callback request")
  else
    match hookCallbacks q !! callbackID with
    | None => inr (NewControlProtocolError ("no hook callback found for ID: " +:+ callbackID))
    | Some callback =>
        match callback (ctx q) input None with
        | inr e => inr e
        | inl (VMap response) => inl response
        | inl _ =>
            inr (NewControlProtocolError "hook callback must return map[string]interface{}")
        end
    end.

(** The JSON-RPC error response of [handleMCPMessage]. *)
Definition jsonrpcError (messageID : value) (code : Z) (message : string)
  : gmap string value :=
  <["mcp_response" :=
      VMap (Some (<["jsonrpc" := VString "2.0"]>
                 (<["id" := messageID]>
                 (<["error" := VMap (Some (<["code" := VInt code]>
                                          (<["message" := VString message]> ∅)))]> ∅))))]> ∅.

(** [handleMCPMessage] *)
Definition handleMCPMessage (q : Query) (requestData : gomap) : gomap + error :=
  let serverName := fst (asString (index requestData "server_name")) in
  let message := asMap (index requestData "message") in
  match String.eqb serverName "", message with
  | false, Some messageMap =>
      match mcpServers q !! serverName with
      | None =>
          inl (Some (jsonrpcError (index message "id") (-32601)
                       ("Server '" +:+ serverName +:+ "' not found")))
      | Some server =>
          match HandleMessage server messageMap with
          | inr e => inl (Some (jsonrpcError (index message "id") (-32603) (Error e)))
          | inl mcpResponse => inl (Some (<["mcp_response" := VMap mcpResponse]> ∅))
          end
      end
  | _, _ => inr (NewControlProtocolError "missing server_name or message in MCP request")
  end.

(** The envelopes of [sendSuccessResponse] and [sendErrorResponse]. *)
Definition successEnvelope (requestID : string) (response : gomap) : value :=
  VMap (Some (<["type" := VString "control_response"]>
             (<["response" := VMap (Some (<["subtype" := VString "success"]>
                                         (<["request_id" := VString requestID]>
                                         (<["response" := VMap response]> ∅))))]> ∅))).

Definition errorEnvelope (requestID : string) (errorMsg : string) : value :=
  VMap (Some (<["type" := VString "control_response"]>
             (<["response" := VMap (Some (<["subtype" := VString "error"]>
                                         (<["request_id" := VString requestID]>
                                         (<["error" := VString errorMsg]> ∅))))]> ∅))).

(** Marshal the envelope and write it; nothing is written when the
    marshalling fails, and the error of the write is dropped.  [io] is the
    outcome of the write on the pipe. *)
Definition sendEnvelope (q : Query) (envelope : value) (io : option error) : Query :=
  match marshal envelope with
  | inr _ => q
  | inl data => set_transport q (fst (Transport.Write (transport q) data io))
  end.

Definition sendSuccessResponse (q : Query) (requestID : string) (response : gomap)
  (io : option error) : Query :=
  sendEnvelope q (successEnvelope requestID response) io.

Definition sendErrorResponse (q : Query) (requestID errorMsg : string)
  (io : option error) : Query :=
  sendEnvelope q (errorEnvelope requestID errorMsg) io.

(** The request identifier and the request data of an inbound control
    request, as [handleControlRequest] finds them: the identifier in
    [msg.Data], else in [msg.Request]; the data in [msg.Request], else under
    ["request"] in [msg.Data]. *)
Definition requestIDOf (msg : SystemMessage) : string :=
  let requestID := fst (asString (index (Data msg) "request_id")) in
  if String.eqb requestID "" then fst (asString (index (Request msg) "request_id"))
  else requestID.

Definition requestDataOf (msg : SystemMessage) : gomap :=
  match Request msg with
  | Some _ => Request msg
  | None => asMap (index (Data msg) "request")
  end.

(** The switch on the subtype. *)
Definition dispatch (q : Query) (requestData : gomap) : outcome gomap :=
  let subtype := fst (asString (index requestData "subtype")) in
  if String.eqb subtype "can_use_tool" then handlePermissionRequest q requestData
  else if String.eqb subtype "hook_callback" then
    match handleHookCallback q requestData with
    | inl r => Returns r
    | inr e => Fails e
    end
  else if String.eqb subtype "mcp_message" then
    match handleMCPMessage q requestData with
    | inl r => Returns r
    | inr e => Fails e
    end
  else if String.eqb subtype "interrupt" then Returns (Some ∅)
  else if String.eqb subtype "set_permission_mode" then Returns (Some ∅)
  else Fails (NewControlProtocolError ("unsupported control request subtype: " +:+ subtype)).

(** [handleControlRequest], the body of the goroutine started for an
    inbound control request.  [None] is a panic of the goroutine. *)
Definition handleControlRequest (q : Query) (msg : SystemMessage) (io : option error)
  : option Query :=
  let requestID := requestIDOf msg in
  let requestData := requestDataOf msg in
  match String.eqb requestID "", requestData with
  | false, Some _ =>
      match dispatch q requestData with
      | Fails e => Some (sendErrorResponse q requestID (Error e) io)
      | Returns response => Some (sendSuccessResponse q requestID response io)
      | Panics => None
      end
  | _, _ => Some (sendErrorResponse q requestID "invalid control request format" io)
  end.

(** *** [sendControlRequest], cut at the points where other goroutines
    can run in between: after the identifier is generated (an atomic add,
    outside the mutex), after the registration (under the mutex), after the
    write, and at the select. *)

Inductive call : Type :=
| Generated (requestID : string) (request : gomap)
| Registered (requestID : string) (responseChan : nat) (request : gomap)
| Waiting (requestID : string) (responseChan : nat)
| Finished (result : gomap + error).

(** Entry: the streaming-mode guard, then [generateRequestID]. *)
Definition sendControlRequest_begin (q : Query) (request : gomap) : Query * call :=
  if negb (isStreamingMode q) then
    (q, Finished (inr (NewControlProtocolError "control requests require streaming mode")))
  else
    let '(q', requestID) := generateRequestID q in
    (q', Generated requestID request).

(** [responseChan := make(chan responseResult, 1)] and
    [q.requestMap[requestID] = responseChan].  The new channel is one that
    did not exist. *)
Definition sendControlRequest_register (q : Query) (requestID : string) (request : gomap)
  : Query * call :=
  let responseChan := fresh (dom (chans q)) in
  let q := set_chans q (<[responseChan := []]> (chans q)) in
  let q := set_requestMap q (<[requestID := responseChan]> (requestMap q)) in
  (q, Registered requestID responseChan request).

Definition controlRequestEnvelope (requestID : string) (request : gomap) : value :=
  VMap (Some (<["type" := VString "control_request"]>
             (<["request_id" := VString requestID]>
             (<["request" := VMap request]> ∅)))).

(** Marshal and send; on either failure the entry is deleted and the call
    returns the error. *)
Definition sendControlRequest_write (q : Query) (requestID : string) (responseChan : nat)
  (request : gomap) (io : option error) : Query * call :=
  match marshal (controlRequestEnvelope requestID request) with
  | inr e =>
      (set_requestMap q (delete requestID (requestMap q)),
       Finished (inr (NewControlProtocolErrorWithCause
                        "failed to marshal control request" e)))
  | inl data =>
      match Transport.Write (transport q) data io with
      | (t, Some e) =>
          (set_requestMap (set_transport q t) (delete requestID (requestMap q)),
           Finished (inr (NewControlProtocolErrorWithCause
                            "failed to send control request" e)))
      | (t, None) => (set_transport q t, Waiting requestID responseChan)
      end
  end.

(** [case result := <-responseChan]: possible when the channel holds a
    result. *)
Definition sendControlRequest_receive (q : Query) (responseChan : nat)
  : option (Query * call) :=
  match chans q !! responseChan with
  | Some (result :: rest) =>
      Some (set_chans q (<[responseChan := rest]> (chans q)),
            Finished (match err result with
                      | Some e => inr e
                      | None => inl (response result)
                      end))
  | _ => None
  end.

(** [case <-ctx.Done()]: the caller's context is done, [ctxErr] is its
    [Err()]. *)
Definition sendControlRequest_cancel (q : Query) (requestID : string) (ctxErr : error)
  : Query * call :=
  (set_requestMap q (delete requestID (requestMap q)), Finished (inr ctxErr)).

(** *** [routeMessage] *)

Inductive routed : Type :=
| RouteReturned (q : Query) (e : option error)
| RouteSpawned (q : Query) (sysMsg : SystemMessage)  (* [go q.handleControlRequest(sysMsg)] *)
| RouteWaiting                  (* waiting in the select on the consumer channel *)
| RouteStuck.                   (* waiting in the select of handleControlResponse *)

Definition routeMessage (pickSend : bool) (q : Query) (msg : Message) : routed :=
  let msgType := GetMessageType msg in
  if String.eqb msgType "control_response" then
    match msg with
    | MsgSystem sysMsg =>
        match handleControlResponse pickSend q sysMsg with
        | Some (q', e) => RouteReturned q' e
        | None => RouteStuck
        end
    | _ => RouteReturned q (Some (NewControlProtocolError
                                    "invalid control_response message type"))
    end
  else if String.eqb msgType "control_request" then
    match msg with
    | MsgSystem sysMsg => RouteSpawned q sysMsg
    | _ => RouteReturned q (Some (NewControlProtocolError
                                    "invalid control_request message type"))
    end
  else
    (* Regular message - send to consumer *)
    match selectSendOrDone (bool_decide (length (messagesChan q) < messagesChanCap)%nat)
            (ctx q) pickSend with
    | Some SendCase => RouteReturned (set_messagesChan q (messagesChan q ++ [msg])) None
    | Some DoneCase => RouteReturned q (ctx q)
    | None => RouteWaiting
    end.

(** *** The engine at work: the message loop, the callers of
    [sendControlRequest], the handler goroutines and the consumer *)

(** Where the goroutine of [messageLoop] stands: at its select, inside
    [routeMessage] waiting for room in the consumer channel with the message
    in hand, or returned. *)
Inductive loopState : Type :=
| Running
| Parked (msg : Message)
| Exited.

Record System : Type := mkSystem {
  query : Query;
  calls : gmap nat call;          (* calls of sendControlRequest, by goroutine *)
  loop : loopState;
  spawned : list SystemMessage;   (* handler goroutines started, not yet run *)
  consumed : list Message         (* what the consumer has received, in order *)
}.

Definition set_query (s : System) (q : Query) : System :=
  mkSystem q (calls s) (loop s) (spawned s) (consumed s).
Definition set_call (s : System) (q : Query) (g : nat) (c : call) : System :=
  mkSystem q (<[g := c]> (calls s)) (loop s) (spawned s) (consumed s).
Definition set_loop (s : System) (q : Query) (l : loopState) : System :=
  mkSystem q (calls s) l (spawned s) (consumed s).

(** A started engine: [NewQuery] and [Start]. *)
Definition started (t : Transport.SubprocessCLITransport)
  (opts_CanUseTool : option CanUseToolFunc) (streaming : bool) : System :=
  mkSystem (NewQuery t opts_CanUseTool streaming) ∅ Running [] [].

(** What happens, one atomic step at a time. *)
Inductive event : Type :=
| CallSend (g : nat) (request : gomap)      (* goroutine g enters sendControlRequest *)
| CallRegister (g : nat)
| CallWrite (g : nat) (io : option error)
| CallReceive (g : nat)
| CallCancel (g : nat) (ctxErr : error)
| LoopRead (msg : Message) (pickSend : bool) (* the loop takes msg from the transport *)
| LoopExit                      (* context done, stop signal or transport closed *)
| ConsumerReceive               (* the consumer takes a message from the channel *)
| RunHandler (n : nat) (io : option error)   (* the n-th started handler runs *)
| CancelContext (e : error).                 (* q.ctx is cancelled *)

(** One step; [None] when the event cannot happen in the state (the
    goroutine is elsewhere or would wait), and after a panic. *)
Definition step (s : System) (ev : event) : option System :=
  let q := query s in
  match ev with
  | CallSend g request =>
      match calls s !! g with
      | None | Some (Finished _) =>
          let '(q', c) := sendControlRequest_begin q request in Some (set_call s q' g c)
      | _ => None
      end
  | CallRegister g =>
      match calls s !! g with
      | Some (Generated requestID request) =>
          let '(q', c) := sendControlRequest_register q requestID request in
          Some (set_call s q' g c)
      | _ => None
      end
  | CallWrite g io =>
      match calls s !! g with
      | Some (Registered requestID responseChan request) =>
          let '(q', c) := sendControlRequest_write q requestID responseChan request io in
          Some (set_call s q' g c)
      | _ => None
      end
  | CallReceive g =>
      match calls s !! g with
      | Some (Waiting requestID responseChan) =>
          '(q', c) ← sendControlRequest_receive q responseChan;
          Some (set_call s q' g c)
      | _ => None
      end
  | CallCancel g ctxErr =>
      match calls s !! g with
      | Some (Waiting requestID responseChan) =>
          let '(q', c) := sendControlRequest_cancel q requestID ctxErr in
          Some (set_call s q' g c)
      | _ => None
      end
  | LoopRead msg pickSend =>
      match loop s with
      | Running =>
          match routeMessage pickSend q msg with
          | RouteReturned q' _ => Some (set_loop s q' Running)
          | RouteSpawned q' sysMsg =>
              Some (mkSystem q' (calls s) Running (spawned s ++ [sysMsg]) (consumed s))
          | RouteWaiting => Some (set_loop s q (Parked msg))
          | RouteStuck => None
          end
      | _ => None
      end
  | LoopExit =>
      match loop s with
      | Running => Some (set_loop s q Exited)
      | _ => None
      end
  | ConsumerReceive =>
      match messagesChan q with
      | [] => None
      | m :: rest =>
          match loop s with
          | Parked msg =>
              (* the waiting send completes; routeMessage returns nil *)
              Some (mkSystem (set_messagesChan q (rest ++ [msg])) (calls s) Running
                      (spawned s) (consumed s ++ [m]))
          | l => Some (mkSystem (set_messagesChan q rest) (calls s) l (spawned s)
                         (consumed s ++ [m]))
          end
      end
  | RunHandler n io =>
      match spawned s !! n with
      | Some sysMsg =>
          q' ← handleControlRequest q sysMsg io;
          Some (mkSystem q' (calls s) (loop s) (delete n (spawned s)) (consumed s))
      | None => None
      end
  | CancelContext e =>
      match ctx q with
      | Some _ => Some s
      | None =>
          match loop s with
          | Parked _ =>
              (* the waiting select takes the Done case; the message is dropped *)
              Some (set_loop s (set_ctx q (Some e)) Running)
          | _ => Some (set_query s (set_ctx q (Some e)))
          end
      end
  end.

(** A run: the steps in order; [None] when one of them cannot happen. *)
Fixpoint run (s : System) (evs : list event) : option System :=
  match evs with
  | [] => Some s
  | ev :: rest => s' ← step s ev; run s' rest
  end.

(** The request identifiers generated along a run, in order. *)
Fixpoint generatedIDs (s : System) (evs : list event) : list string :=
  match evs with
  | [] => []
  | ev :: rest =>
      match step s ev with
      | None => []
      | Some s' =>
          match ev, calls s' with
          | CallSend g _, cs =>
              match cs !! g with
              | Some (Generated requestID _) => requestID :: generatedIDs s' rest
              | _ => generatedIDs s' rest
              end
          | _, _ => generatedIDs s' rest
          end
      end
  end.

(** The messages the loop has read from the transport along a run. *)
Definition messagesRead (evs : list event) : list Message :=
  omap (fun ev => match ev with LoopRead msg _ => Some msg | _ => None end) evs.

(** *** Vocabulary of the statements about the engine *)

(** A control-protocol envelope, by its type. *)
Definition isControl (msg : Message) : bool :=
  String.eqb (GetMessageType msg) "control_request"
  || String.eqb (GetMessageType msg) "control_response".

(** The messages of a sequence that are no control-protocol envelopes, in
    the order of the sequence. *)
Definition regular (msgs : list Message) : list Message :=
  List.filter (fun msg => negb (isControl msg)) msgs.

(** The message the loop holds while it waits for room in the channel. *)
Definition inflight (l : loopState) : list Message :=
  match l with
  | Parked msg => [msg]
  | _ => []
  end.

(** What has reached the consumer side: the messages the consumer has
    received, followed by those waiting in the channel. *)
Definition delivered (s : System) : list Message :=
  consumed s ++ messagesChan (query s).

(** The request identifier a call of [sendControlRequest] holds while it is
    in progress, and the entry it has made in the pending table. *)
Definition held (c : call) : option string :=
  match c with
  | Generated requestID _ | Registered requestID _ _ | Waiting requestID _ => Some requestID
  | Finished _ => None
  end.

Definition registered (c : call) : option (string * nat) :=
  match c with
  | Registered requestID responseChan _ | Waiting requestID responseChan =>
      Some (requestID, responseChan)
  | _ => None
  end.

(** The messages on the consumer side together with the one in flight. *)
Definition pipeline (s : System) : list Message := delivered s ++ inflight (loop s).

(** What a step adds to the regular messages read so far. *)
Definition arrival (ev : event) : list Message :=
  match ev with
  | LoopRead msg _ => regular [msg]
  | _ => []
  end.

(** A goroutine that is not inside [sendControlRequest]. *)
Definition free (s : System) (g : nat) : Prop :=
  calls s !! g = None \/ exists r, calls s !! g = Some (Finished r).

(** What one step does to the counter, the pending table, the response
    channels and the calls in progress. *)
Inductive effect (s s' : System) : Prop :=
| eff_same :
    nextRequestID (query s') = nextRequestID (query s) ->
    requestMap (query s') = requestMap (query s) ->
    chans (query s') = chans (query s) ->
    calls s' = calls s ->
    effect s s'
| eff_begin (g : nat) (request : gomap) :
    free s g ->
    nextRequestID (query s') = wrap64 (nextRequestID (query s) + 1) ->
    requestMap (query s') = requestMap (query s) ->
    chans (query s') = chans (query s) ->
    calls s' = <[g := Generated (requestIDFor (nextRequestID (query s'))) request]> (calls s) ->
    effect s s'
| eff_refuse (g : nat) (r : gomap + error) :
    free s g ->
    nextRequestID (query s') = nextRequestID (query s) ->
    requestMap (query s') = requestMap (query s) ->
    chans (query s') = chans (query s) ->
    calls s' = <[g := Finished r]> (calls s) ->
    effect s s'
| eff_register (g : nat) (requestID : string) (request : gomap) :
    calls s !! g = Some (Generated requestID request) ->
    nextRequestID (query s') = nextRequestID (query s) ->
    requestMap (query s')
    = <[requestID := fresh (dom (chans (query s)))]> (requestMap (query s)) ->
    chans (query s') = <[fresh (dom (chans (query s))) := []]> (chans (query s)) ->
    calls s' = <[g := Registered requestID (fresh (dom (chans (query s)))) request]> (calls s) ->
    effect s s'
| eff_written (g : nat) (requestID : string) (responseChan : nat) (request : gomap) :
    calls s !! g = Some (Registered requestID responseChan request) ->
    nextRequestID (query s') = nextRequestID (query s) ->
    requestMap (query s') = requestMap (query s) ->
    chans (query s') = chans (query s) ->
    calls s' = <[g := Waiting requestID responseChan]> (calls s) ->
    effect s s'
| eff_withdraw (g : nat) (c : call) (requestID : string) (responseChan : nat)
    (r : gomap + error) :
    calls s !! g = Some c ->
    registered c = Some (requestID, responseChan) ->
    nextRequestID (query s') = nextRequestID (query s) ->
    requestMap (query s') = delete requestID (requestMap (query s)) ->
    chans (query s') = chans (query s) ->
    calls s' = <[g := Finished r]> (calls s) ->
    effect s s'
| eff_receive (g : nat) (requestID : string) (responseChan : nat)
    (result : responseResult) (rest : list responseResult) (r : gomap + error) :
    calls s !! g = Some (Waiting requestID responseChan) ->
    chans (query s) !! responseChan = Some (result :: rest) ->
    nextRequestID (query s') = nextRequestID (query s) ->
    requestMap (query s') = requestMap (query s) ->
    chans (query s') = <[responseChan := rest]> (chans (query s)) ->
    calls s' = <[g := Finished r]> (calls s) ->
    effect s s'
| eff_resolve (requestID : string) (responseChan : nat) :
    requestMap (query s) !! requestID = Some responseChan ->
    nextRequestID (query s') = nextRequestID (query s) ->
    requestMap (query s') = delete requestID (requestMap (query s)) ->
    (chans (query s') = chans (query s)
     \/ exists r, chans (query s')
                  = <[responseChan := default [] (chans (query s) !! responseChan) ++ [r]]>
                      (chans (query s))) ->
    calls s' = calls s ->
    effect s s'.

(** The invariant of the pending-request table: the identifiers held by
    the calls in progress are numbers generated so far, no two calls hold the
    same one, every entry of the table belongs to a call that has registered
    it and not yet returned, its channel is empty, and no two calls share a
    channel. *)
Record Inv (s : System) : Prop := mkInv {
  inv_counter : 0 <= nextRequestID (query s);
  inv_held : forall g c requestID,
    calls s !! g = Some c -> held c = Some requestID ->
    exists k, 1 <= k <= nextRequestID (query s) /\ requestID = requestIDFor k;
  inv_unique : forall g1 g2 c1 c2 requestID,
    calls s !! g1 = Some c1 -> calls s !! g2 = Some c2 ->
    held c1 = Some requestID -> held c2 = Some requestID -> g1 = g2;
  inv_owner : forall requestID responseChan,
    requestMap (query s) !! requestID = Some responseChan ->
    exists g c, calls s !! g = Some c /\ registered c = Some (requestID, responseChan);
  inv_empty : forall requestID responseChan,
    requestMap (query s) !! requestID = Some responseChan ->
    chans (query s) !! responseChan = Some [];
  inv_chan : forall g c requestID responseChan,
    calls s !! g = Some c -> registered c = Some (requestID, responseChan) ->
    is_Some (chans (query s) !! responseChan);
  inv_chan_unique : forall g1 g2 c1 c2 r1 r2 responseChan,
    calls s !! g1 = Some c1 -> calls s !! g2 = Some c2 ->
    registered c1 = Some (r1, responseChan) -> registered c2 = Some (r2, responseChan) ->
    g1 = g2
}.

End Engine.


(** A state of an engine that is not in streaming mode and has neither
    generated an identifier nor entered a request in the table. *)
Definition idle (s : System) : Prop :=
  isStreamingMode (query s) = false
  /\ nextRequestID (query s) = 0
  /\ requestMap (query s) = ∅
  /\ forall g c, calls s !! g = Some c ->
       c = Finished (inr (NewControlProtocolError "control requests require streaming mode")).

(** What the caller of [sendControlRequest] returns for a response
    payload: a control-protocol error for the subtype "error", the inner
    response otherwise. *)
Definition resultOfResponse (responseData : gmap string value) : gomap + error :=
  if String.eqb (fst (asString (index (Some responseData) "subtype"))) "error"
  then inr (NewControlProtocolError
              (let errMsg := fst (asString (index (Some responseData) "error")) in
               if String.eqb errMsg "" then "unknown control protocol error" else errMsg))
  else inl (asMap (index (Some responseData) "response")).

(** *** Hook callbacks: [registerHookCallback] and the loops of
    [Initialize] that register the callbacks of the options *)

(** [types.HookMatcher] *)
Record HookMatcher : Type := mkHookMatcher {
  Matcher : option string;
  Hooks : list HookCallbackFunc
}.

Definition set_hookCallbacks (q : Query) (m : gmap string HookCallbackFunc) : Query :=
  mkQuery (transport q) (ctx q) (requestMap q) (nextRequestID q) m (canUseTool q)
    (mcpServers q) (messagesChan q) (isStreamingMode q) (chans q).

(** [fmt.Sprintf("hook_%d", id)] *)
Definition hookIDFor (id : Z) : string := "hook_" +:+ pretty id.

(** [registerHookCallback].  The counter [q.nextHookCallbackID], which the
    record [Query] above leaves out, is passed beside the query. *)
Definition registerHookCallback (q : Query) (nextHookCallbackID : Z)
  (callback : HookCallbackFunc) : Query * Z * string :=
  let id := wrap64 (nextHookCallbackID + 1) in
  let callbackID := hookIDFor id in
  (set_hookCallbacks q (<[callbackID := callback]> (hookCallbacks q)), id, callbackID).

(** [for _, callback := range matcher.Hooks]: the callbacks of a matcher
    are registered in order; the result lists their identifiers. *)
Fixpoint registerHooks (q : Query) (next : Z) (callbacks : list HookCallbackFunc)
  : Query * Z * list string :=
  match callbacks with
  | [] => (q, next, [])
  | callback :: rest =>
      let '(q, next, callbackID) := registerHookCallback q next callback in
      let '(q, next, callbackIDs) := registerHooks q next rest in
      (q, next, callbackID :: callbackIDs)
  end.

(** [for _, matcher := range matchers]: each matcher with the identifiers
    of its callbacks. *)
Fixpoint registerMatchers (q : Query) (next : Z) (matchers : list HookMatcher)
  : Query * Z * list (HookMatcher * list string) :=
  match matchers with
  | [] => (q, next, [])
  | matcher :: rest =>
      let '(q, next, callbackIDs) := registerHooks q next (Hooks matcher) in
      let '(q, next, registered) := registerMatchers q next rest in
      (q, next, (matcher, callbackIDs) :: registered)
  end.

(** [for event, matchers := range q.hooks]: [hooks] lists the entries of
    the map in the order the iteration takes them; an event without matchers
    is skipped. *)
Fixpoint registerEvents (q : Query) (next : Z) (hooks : list (string * list HookMatcher))
  : Query * Z * list (string * list (HookMatcher * list string)) :=
  match hooks with
  | [] => (q, next, [])
  | (event, matchers) :: rest =>
      if bool_decide (length matchers = 0)%nat then registerEvents q next rest
      else
        let '(q, next, eventHooks) := registerMatchers q next matchers in
        let '(q, next, registered) := registerEvents q next rest in
        (q, next, (event, eventHooks) :: registered)
  end.

(** The identifiers of a registration, in the order they were given out. *)
Definition registeredIDs (registered : list (string * list (HookMatcher * list string)))
  : list string :=
  concat (snd <$> concat (snd <$> registered)).

(** What a registration keeps true: the counter has not wrapped, and every
    identifier in the table is one given out so far. *)
Definition registryOK (q : Query) (next : Z) : Prop :=
  0 <= next
  /\ forall callbackID, is_Some (hookCallbacks q !! callbackID) ->
       exists k, 1 <= k <= next /\ callbackID = hookIDFor k.

(** Every identifier of the list resolves to the callback at its place. *)
Definition resolves (q : Query) (callbacks : list HookCallbackFunc) (ids : list string)
  : Prop :=
  Forall2 (fun callback callbackID => hookCallbacks q !! callbackID = Some callback)
          callbacks ids.

(** A later state of the registration: everything registered is still
    there. *)
Definition extends (q q' : Query) : Prop :=
  forall callbackID callback,
    hookCallbacks q !! callbackID = Some callback ->
    hookCallbacks q' !! callbackID = Some callback.


(** The callbacks of a list of matchers and of a hooks map, in the order of
    their registration. *)
Definition callbacksOf (matchers : list HookMatcher) : list HookCallbackFunc :=
  concat (Hooks <$> matchers).

Definition allCallbacks (hooks : list (string * list HookMatcher)) : list HookCallbackFunc :=
  concat ((fun entry => callbacksOf (snd entry)) <$> hooks).

End Router.

(* ===================================================================== *)
(** ** client.go: the interactive client *)
(* ===================================================================== *)

Module Session.

Abbreviation Context := (option error).

(** The fields of [Client] that decide its lifecycle.  [ctx] is [c.ctx],
    the context made by [NewClient] from its parent; [cancel] and [query]
    say whether [c.cancel] and [c.query] are non-nil.  The transport and the
    query handler are behind interfaces: what their methods return comes
    from the environment of each call. *)
Record Client : Type := mkClient {
  connected : bool;
  ctx : Context;
  cancel : bool;
  query : bool
}.

(** [NewClient] *)
Definition NewClient : Client := mkClient false None true false.

(** What one call of [Connect] meets: the caller's context and the results
    of the calls it makes, as far as it gets. *)
Record ConnectEnv : Type := mkConnectEnv {
  callerCtx : Context;                (* ctx.Err() of the argument *)
  transportConnect : option error;    (* c.transport.Connect(ctx) *)
  transportGetError : option error;   (* c.transport.GetError() *)
  queryStart : option error;          (* c.query.Start(ctx) *)
  queryInitialize : option error      (* c.query.Initialize(ctx) *)
}.

(** [Connect] *)
Definition Connect (c : Client) (env : ConnectEnv) : Client * option error :=
  if connected c then (c, Some (NewControlProtocolError "client already connected"))
  else
    match transportConnect env with
    | Some e =>
        (c, Some (NewCLIConnectionErrorWithCause "failed to connect to Claude CLI" e))
    | None =>
        match ctx c with
        | Some _ => (c, callerCtx env)      (* case <-c.ctx.Done(): return ctx.Err() *)
        | None =>
            match transportGetError env with
            | Some e => (c, Some e)
            | None =>
                (* c.query = internal.NewQuery(...) *)
                let c := mkClient (connected c) (ctx c) (cancel c) true in
                match queryStart env with
                | Some e => (c, Some e)
                | None =>
                    match queryInitialize env with
                    | Some e =>
                        (c, Some (NewControlProtocolErrorWithCause
                                    "failed to initialize control protocol" e))
                    | None => (mkClient true (ctx c) (cancel c) (query c), None)
                    end
                end
            end
        end
    end.

(** What one call of [Close] meets. *)
Record CloseEnv : Type := mkCloseEnv {
  queryStop : option error;           (* c.query.Stop(ctx) *)
  transportClose : option error       (* c.transport.Close(ctx) *)
}.

(** [Close].  [c.transport] is set by [NewClient] and never nil. *)
Definition Close (c : Client) (env : CloseEnv) : Client * option error :=
  if negb (connected c) then (c, None)
  else
    let errs : list error :=
      (if query c then option_list (queryStop env) else [])
      ++ option_list (transportClose env) in
    let ctx' := if cancel c then (match ctx c with Some e => Some e | None => Some Canceled end)
                else ctx c in
    (mkClient false ctx' false false, head errs).

(** [Query]; [io] is what [c.transport.Write] returns.  Marshalling a map
    of strings does not fail. *)
Definition Query (c : Client) (prompt : string) (io : option error) : option error :=
  if negb (connected c) then
    Some (NewCLIConnectionError "not connected - call Connect() first")
  else if String.eqb prompt "" then Some (Foreign "prompt cannot be empty")
  else io.

(** [QueryWithContent]; [marshalError] is the error of [json.Marshal] on
    the message that holds the content, if any. *)
Definition QueryWithContent (c : Client) (content : value) (marshalError : option error)
  (io : option error) : option error :=
  if negb (connected c) then
    Some (NewCLIConnectionError "not connected - call Connect() first")
  else
    match content with
    | VNil => Some (Foreign "content cannot be nil")
    | _ =>
        match marshalError with
        | Some e => Some (NewControlProtocolErrorWithCause "failed to marshal query" e)
        | None => io
        end
    end.

(** What can happen to a client: the calls of its methods, and the
    cancellation of the parent context given to [NewClient]. *)
Inductive event : Type :=
| EvConnect (env : ConnectEnv)
| EvClose (env : CloseEnv)
| EvQuery (prompt : string) (io : option error)
| EvQueryWithContent (content : value) (marshalError io : option error)
| EvParentCancel (e : error).

Definition step (c : Client) (ev : event) : Client :=
  match ev with
  | EvConnect env => fst (Connect c env)
  | EvClose env => fst (Close c env)
  | EvQuery _ _ | EvQueryWithContent _ _ _ => c
  | EvParentCancel e =>
      match ctx c with
      | Some _ => c
      | None => mkClient (connected c) (Some e) (cancel c) (query c)
      end
  end.

Definition run (c : Client) (evs : list event) : Client := foldl step c evs.

(** *** Vocabulary of the statements about the client *)

(** Once [Close] has taken [c.cancel], the client's context is done. *)
Definition cancelled_once_closed (c : Client) : Prop :=
  cancel c = false -> is_Some (ctx c).

(** A client that is not connected and whose context is done. *)
Definition closed (c : Client) : Prop :=
  connected c = false /\ is_Some (ctx c).

End Session.


(* ===================================================================== *)
(** ** The CLI version check and the search for the CLI binary *)
(* ===================================================================== *)

Module Version.

(** [SemanticVersion]; a Go [int] is 64 bits wide. *)
Record SemanticVersion : Type := mkSemanticVersion {
  Major : Z;
  Minor : Z;
  Patch : Z
}.

(** [SemanticVersion.String]: [fmt.Sprintf("%d.%d.%d", ...)]. *)
Definition SemanticVersion_String (v : SemanticVersion) : string :=
  pretty (Major v) +:+ "." +:+ pretty (Minor v) +:+ "." +:+ pretty (Patch v).

(** [SemanticVersion.IsAtLeast] *)
Definition IsAtLeast (v required : SemanticVersion) : bool :=
  if Major required <? Major v then true
  else if Major v <? Major required then false
  else if Minor required <? Minor v then true
  else if Minor v <? Minor required then false
  else Patch required <=? Patch v.

(** [strings.TrimPrefix] *)
Definition TrimPrefix (s prefix : string) : string :=
  if String.prefix prefix s
  then String.substring (String.length prefix) (String.length s - String.length prefix) s
  else s.

(** The longest run of ASCII digits a string starts with, and what
    follows it. *)
Fixpoint digitsPrefix (s : string) : string * string :=
  match s with
  | EmptyString => ("", "")
  | String c s' =>
      if isDigit c then let '(digits, rest) := digitsPrefix s' in (String c digits, rest)
      else ("", s)
  end.

(** [regexp.MustCompile(`^(\d+)\.(\d+)\.(\d+)`).FindStringSubmatch]: the
    three groups of the match, [None] when the string does not match.  A
    group is followed by a dot or by the end of the match and [\d] is an
    ASCII digit, so each group is the longest run of digits at its place. *)
Definition versionSubmatch (s : string) : option (string * string * string) :=
  let '(major, rest) := digitsPrefix s in
  if String.eqb major "" then None
  else
    match rest with
    | String "."%char rest =>
        let '(minor, rest) := digitsPrefix rest in
        if String.eqb minor "" then None
        else
          match rest with
          | String "."%char rest =>
              let '(patch, _) := digitsPrefix rest in
              if String.eqb patch "" then None else Some (major, minor, patch)
          | _ => None
          end
    | _ => None
    end.

(** A string of ASCII digits, and a string whose first byte is one. *)
Fixpoint allDigits (s : string) : bool :=
  match s with
  | EmptyString => true
  | String c s' => isDigit c && allDigits s'
  end.

Definition startsWithDigit (s : string) : bool :=
  match s with
  | String c _ => isDigit c
  | EmptyString => false
  end.

(** [strconv.Atoi] on a non-empty string of ASCII digits, which is all the
    regular expression lets through: the value when it fits in an [int],
    else an error. *)
Definition Atoi (digits : string) : option Z :=
  z ← digitsValue digits 0; if z <? 2 ^ 63 then Some z else None.

Section WithTrimSpace.

(** [strings.TrimSpace] is left to the library. *)
Variable TrimSpace : string -> string.

(** [ParseSemanticVersion] *)
Definition ParseSemanticVersion (versionStr : string) : SemanticVersion + error :=
  let versionStr := TrimSpace versionStr in
  let versionStr := TrimPrefix versionStr "v" in
  match versionSubmatch versionStr with
  | None => inr (Foreign ("invalid version format: " +:+ versionStr))
  | Some (major_s, minor_s, patch_s) =>
      match Atoi major_s with
      | None => inr (Foreign ("invalid major version: " +:+ major_s))
      | Some major =>
          match Atoi minor_s with
          | None => inr (Foreign ("invalid minor version: " +:+ minor_s))
          | Some minor =>
              match Atoi patch_s with
              | None => inr (Foreign ("invalid patch version: " +:+ patch_s))
              | Some patch => inl (mkSemanticVersion major minor patch)
              end
          end
      end
  end.

(** What running [claude --version] gives: the error of [cmd.Run] with
    what the process wrote to its standard error, or what it wrote to its
    standard output. *)
Inductive versionRun : Type :=
| RunFailed (e : error) (stderr : string)
| RunPrinted (stdout : string).

(** [GetCLIVersion] *)
Definition GetCLIVersion (run : versionRun) : SemanticVersion + error :=
  match run with
  | RunFailed e stderr =>
      inr (Foreign ("failed to get CLI version: " +:+ Error e
                    +:+ " (stderr: " +:+ stderr +:+ ")"))
  | RunPrinted stdout => ParseSemanticVersion (TrimSpace stdout)
  end.

Definition MinimumCLIMajor : Z := 2.
Definition MinimumCLIMinor : Z := 0.
Definition MinimumCLIPatch : Z := 0.

Definition newline : string := String (ascii_of_nat 10) EmptyString.

(** The text of the error for a CLI that is too old. *)
Definition tooOldMessage (version minVersion : SemanticVersion) : string :=
  "Claude CLI version " +:+ SemanticVersion_String version
  +:+ " is installed, but version " +:+ SemanticVersion_String minVersion
  +:+ " or higher is required." +:+ newline
  +:+ "Please update with:" +:+ newline
  +:+ "  npm install -g @anthropic-ai/claude-code@latest" +:+ newline
  +:+ newline +:+ "To skip this check, set:" +:+ newline
  +:+ "  export CLAUDE_AGENT_SDK_SKIP_VERSION_CHECK=1".

(** [CheckCLIVersion]; [skipEnv] is the value of the environment variable
    CLAUDE_AGENT_SDK_SKIP_VERSION_CHECK. *)
Definition CheckCLIVersion (skipEnv : string) (run : versionRun) : option error :=
  if negb (String.eqb skipEnv "") then None
  else
    match GetCLIVersion run with
    | inr _ => None
    | inl version =>
        let minVersion := mkSemanticVersion MinimumCLIMajor MinimumCLIMinor MinimumCLIPatch in
        if negb (IsAtLeast version minVersion)
        then Some (NewCLINotFoundError (tooOldMessage version minVersion))
        else None
    end.

(** What [FindCLI] meets: the result of [exec.LookPath("claude")], the
    home directory of the current user ([None] when [user.Current] fails),
    [filepath.Join], which paths [os.Stat] finds, the environment variable
    that switches the version check off, and what [--version] gives for the
    binary at a path. *)
Record FindEnv : Type := mkFindEnv {
  lookPath : option string;
  homeDir : option string;
  join : string -> string -> string;
  statOK : string -> bool;
  skipEnv : string;
  versionOf : string -> versionRun
}.

(** [expandHome] *)
Definition expandHome (env : FindEnv) (path : string) : string :=
  if negb (String.prefix "~" path) then path
  else
    match homeDir env with
    | None => path
    | Some home =>
        if String.eqb path "~" then home
        else if String.prefix "~/" path
        then join env home (String.substring 2 (String.length path - 2) path)
        else path
    end.

Definition locations : list string :=
  ["~/.claude/local/claude"; "~/.npm-global/bin/claude"; "/usr/local/bin/claude";
   "~/.local/bin/claude"; "~/node_modules/.bin/claude"; "~/.yarn/bin/claude"].

Definition notFoundMessage : string :=
  "Claude Code not found. Install with:" +:+ newline
  +:+ "  npm install -g @anthropic-ai/claude-code" +:+ newline
  +:+ newline +:+ "If already installed locally, try:" +:+ newline
  +:+ "  export PATH=" +:+ String (ascii_of_nat 34) "$HOME/node_modules/.bin:$PATH"
  +:+ String (ascii_of_nat 34) newline
  +:+ newline +:+ "Or provide the path via ClaudeAgentOptions:" +:+ newline
  +:+ "  ClaudeAgentOptions{CLIPath: " +:+ String (ascii_of_nat 34) "/path/to/claude"
  +:+ String (ascii_of_nat 34) "}".

(** The loop of [FindCLI] over the install locations: the first one that
    exists decides. *)
Fixpoint findInLocations (env : FindEnv) (locs : list string) : string + error :=
  match locs with
  | [] => inr (NewCLINotFoundError notFoundMessage)
  | location :: rest =>
      let expandedPath := expandHome env location in
      if statOK env expandedPath then
        match CheckCLIVersion (skipEnv env) (versionOf env expandedPath) with
        | Some e => inr e
        | None => inl expandedPath
        end
      else findInLocations env rest
  end.

(** [FindCLI] *)
Definition FindCLI (env : FindEnv) : string + error :=
  match lookPath env with
  | Some cliPath =>
      match CheckCLIVersion (skipEnv env) (versionOf env cliPath) with
      | Some e => inr e
      | None => inl cliPath
      end
  | None => findInLocations env locations
  end.

End WithTrimSpace.

End Version.


(* ===================================================================== *)
(** ** The reader loop of the transport *)
(* ===================================================================== *)

Module Reader.

Import Transport.

(** What one round of [messageReaderLoop] meets: [reader.ReadLine] returns
    a line, the end of the stream, or another error together with the bytes
    read; or the context is done at the head of the loop.  For a line,
    [cancelled] says that the context is done when the decoded message is
    offered to the channel and the select takes that case. *)
Inductive read : Type :=
| ReadLine (line : string) (cancelled : bool)
| ReadEOF
| ReadFailed (line : string) (e : error)
| ContextDone.

Section WithEncoding.

Variable enc : Encoding.

(** [messageReaderLoop]: the transport it leaves and the messages it has
    put on [t.messages], in order.  The list of rounds ends where the loop
    is still waiting for the next line. *)
Fixpoint messageReaderLoop (reads : list read) (t : SubprocessCLITransport)
  : SubprocessCLITransport * list Message :=
  match reads with
  | [] => (t, [])
  | ContextDone :: _ => (t, [])
  | ReadEOF :: _ => (t, [])
  | ReadFailed line e :: _ =>
      (OnError t (NewJSONDecodeErrorWithCause "failed to read JSON line from subprocess"
                    line e), [])
  | ReadLine line cancelled :: rest =>
      if len line =? 0 then messageReaderLoop rest t       (* skip empty lines *)
      else
        match UnmarshalMessage enc line with
        | inr e => messageReaderLoop rest (OnError t e) (* store the error, continue *)
        | inl msg =>
            if cancelled then (t, [])
            else let '(t', msgs) := messageReaderLoop rest t in (t', msg :: msgs)
        end
  end.

(** The message a line decodes to, and the error it is refused with. *)
Definition decoded (line : string) : option Message :=
  if len line =? 0 then None
  else match UnmarshalMessage enc line with
       | inl msg => Some msg
       | inr _ => None
       end.

Definition refused (line : string) : option error :=
  if len line =? 0 then None
  else match UnmarshalMessage enc line with
       | inl _ => None
       | inr e => Some e
       end.

End WithEncoding.

End Reader.

(** ** Forwarding the messages of a response: [Client.ReceiveResponse] and
    the goroutine of the one-shot [Query] *)

Module Forward.

Import Types.

(** What the forwarding goroutine meets in one round of its loop: the
    caller's context is done, the messages channel is closed, or a message
    arrives; for a message, [sent] says whether the inner select takes the
    send on [outputChan] or [ctx.Done()]. *)
Inductive round : Type :=
| CtxDone
| ChanClosed
| Received (msg : Message) (sent : bool).

(** The type assertion of [msg] to a pointer to [types.ResultMessage]. *)
Definition isResult (msg : Message) : bool :=
  match msg with
  | MsgResult _ => true
  | _ => false
  end.

(** The loop.  The result is what has been put on [outputChan], and whether
    the goroutine has returned, which closes the channel. *)
Fixpoint forward (rounds : list round) : list Message * bool :=
  match rounds with
  | [] => ([], false)
  | CtxDone :: _ | ChanClosed :: _ => ([], true)
  | Received msg false :: _ => ([], true)
  | Received msg true :: rest =>
      if isResult msg then ([msg], true)
      else let '(out, closed) := forward rest in (msg :: out, closed)
  end.

(** [ReceiveResponse]: the goroutine returns at once when the client is not
    connected or has no query handler. *)
Definition ReceiveResponse (c : Session.Client) (rounds : list round) : list Message * bool :=
  if negb (Session.connected c) || negb (Session.query c) then ([], true)
  else forward rounds.

(** The messages that arrive in a sequence of rounds. *)
Definition received (rounds : list round) : list Message :=
  omap (fun r => match r with Received msg _ => Some msg | _ => None end) rounds.

End Forward.

(** ** The command line of the subprocess: [buildCommandArgs] *)

Module Command.

(** [ClaudeAgentOptions.SystemPrompt] is an [interface{}]: a string, or a
    value of another type (a preset). *)
Inductive SystemPromptValue : Type :=
| PromptString (promptStr : string)
| PromptOther.

(** The fields of [ClaudeAgentOptions] that [buildCommandArgs] reads. *)
Record ClaudeAgentOptions : Type := mkOptions {
  PermissionPromptToolName : option string;
  PermissionMode : option string;
  SystemPrompt : option SystemPromptValue;
  Model : option string;
  ForkSession : bool;
  DangerouslySkipPermissions : bool;
  AllowDangerouslySkipPermissions : bool
}.

Definition allowFlag : string := "--allow-dangerously-skip-permissions".
Definition skipFlag : string := "--dangerously-skip-permissions".

(** [buildCommandArgs]; [options] is [t.options], which may be nil. *)
Definition buildCommandArgs (options : option ClaudeAgentOptions) (resumeSessionID : string)
  : list string :=
  let args := ["--input-format=stream-json"; "--output-format=stream-json"; "--verbose"] in
  let args :=
    match options with
    | Some o =>
        match PermissionPromptToolName o with
        | Some name => args ++ ["--permission-prompt-tool"; name]
        | None => args
        end
    | None => args
    end in
  let args :=
    match options with
    | Some o =>
        match PermissionMode o with
        | Some mode => args ++ ["--permission-mode"; mode]
        | None => args
        end
    | None => args
    end in
  let args :=
    match options with
    | Some o =>
        match SystemPrompt o with
        | Some (PromptString promptStr) => args ++ ["--system-prompt"; promptStr]
        | _ => args
        end
    | None => args
    end in
  let args :=
    match options with
    | Some o =>
        match Model o with
        | Some model => args ++ ["--model"; model]
        | None => args
        end
    | None => args
    end in
  let args :=
    if String.eqb resumeSessionID "" then args else args ++ ["--resume"; resumeSessionID] in
  let args :=
    match options with
    | Some o => if ForkSession o then args ++ ["--fork-session"] else args
    | None => args
    end in
  match options with
  | Some o =>
      if AllowDangerouslySkipPermissions o then
        let args := args ++ [allowFlag] in
        if DangerouslySkipPermissions o then args ++ [skipFlag] else args
      else args
  | None => args
  end.

(** The strings of the caller that become arguments of their own. *)
Definition operands (options : option ClaudeAgentOptions) (resumeSessionID : string)
  : list string :=
  match options with
  | Some o =>
      option_list (PermissionPromptToolName o) ++ option_list (PermissionMode o)
      ++ match SystemPrompt o with
         | Some (PromptString promptStr) => [promptStr]
         | _ => []
         end
      ++ option_list (Model o)
  | None => []
  end
  ++ [resumeSessionID].

End Command.

(* ===================================================================== *)
(** ** Concrete inputs used by the examples and counterexamples *)
(* ===================================================================== *)

Module Examples.

(** The double quote, and a quoted JSON string. *)
Definition dq : string := String (ascii_of_nat 34) EmptyString.
Definition quoted (s : string) : string := dq +:+ s +:+ dq.

(** [{"type":"bogus"}] *)
Definition bogusLine : string := "{" +:+ quoted "type" +:+ ":" +:+ quoted "bogus" +:+ "}".
Definition bogusJson : json :=
  JObject bogusLine [("type", JString (quoted "bogus") "bogus")].

(** [{"type":"user","content":42}] *)
Definition userNumberLine : string :=
  "{" +:+ quoted "type" +:+ ":" +:+ quoted "user" +:+ "," +:+ quoted "content" +:+ ":42}".
Definition userNumberJson : json :=
  JObject userNumberLine [("type", JString (quoted "user") "user"); ("content", JNumber "42")].

(** [{"type":"user","content":null}] *)
Definition userNullLine : string :=
  "{" +:+ quoted "type" +:+ ":" +:+ quoted "user" +:+ "," +:+ quoted "content" +:+ ":null}".
Definition userNullJson : json :=
  JObject userNullLine [("type", JString (quoted "user") "user"); ("content", JNull "null")].

(** [{"type":"user","content":[{"type":"text","text":"Hello"}]}] *)
Definition helloBlockText : string :=
  "{" +:+ quoted "type" +:+ ":" +:+ quoted "text" +:+ "," +:+ quoted "text" +:+ ":"
  +:+ quoted "Hello" +:+ "}".
Definition helloBlockJson : json :=
  JObject helloBlockText
    [("type", JString (quoted "text") "text"); ("text", JString (quoted "Hello") "Hello")].
Definition userBlocksLine : string :=
  "{" +:+ quoted "type" +:+ ":" +:+ quoted "user" +:+ "," +:+ quoted "content" +:+ ":["
  +:+ helloBlockText +:+ "]}".
Definition userBlocksJson : json :=
  JObject userBlocksLine
    [("type", JString (quoted "user") "user");
     ("content", JArray ("[" +:+ helloBlockText +:+ "]") [helloBlockJson])].

(** An input that is not JSON: an object that is never closed. *)
Definition truncatedLine : string := "{" +:+ quoted "type" +:+ ":".

(** A long input that is not JSON: 150 times the letter x. *)
Fixpoint repeatString (n : nat) (s : string) : string :=
  match n with
  | O => EmptyString
  | S n' => s +:+ repeatString n' s
  end.
Definition longLine : string := repeatString 150 "x".

(** encoding/json on these inputs: the parse of the JSON texts, a syntax
    error for the others; keys are matched by name; the text of a type
    error names the field; a number literal of up to 300 digits without
    sign, fraction or exponent, the only kind these inputs hold, converts to
    a [float64]. *)
Definition exampleEncoding : Encoding :=
  mkEncoding
    (fun data =>
       if String.eqb data bogusLine then inl bogusJson
       else if String.eqb data userNumberLine then inl userNumberJson
       else if String.eqb data userNullLine then inl userNullJson
       else if String.eqb data userBlocksLine then inl userBlocksJson
       else if String.eqb data longLine
       then inr "invalid character 'x' looking for beginning of value"
       else inr "unexpected end of JSON input")
    String.eqb
    (fun name _ => Foreign ("json: cannot unmarshal value into Go struct field " +:+ name))
    (fun lit => Version.allDigits lit && (String.length lit <=? 300)%nat).


(** *** For the control-protocol engine *)

Import Router.

Fixpoint joinWith (sep : string) (l : list string) : string :=
  match l with
  | [] => EmptyString
  | [x] => x
  | x :: rest => x +:+ sep +:+ joinWith sep rest
  end.

Definition keyLe (a b : string * string) : Prop := String.leb (fst a) (fst b) = true.

#[local] Instance keyLe_dec (a b : string * string) : Decision (keyLe a b).
Proof. unfold keyLe. apply _. Defined.

(** [json.Marshal] on values that hold no float and whose strings need no
    escaping: the keys of a map in sorted order, no white space. *)
Fixpoint marshalValue (v : value) : string :=
  match v with
  | VNil => "null"
  | VBool b => if b then "true" else "false"
  | VInt z => pretty z
  | VFloat lit => lit
  | VString s => quoted s
  | VSlice l => "[" +:+ joinWith "," (map marshalValue l) +:+ "]"
  | VMap None => "null"
  | VMap (Some g) =>
      "{" +:+ joinWith "," (map (fun kv => quoted (fst kv) +:+ ":" +:+ snd kv)
                             (merge_sort keyLe (map_to_list (marshalValue <$> g)))) +:+ "}"
  end.

Definition exampleMarshal (v : value) : string + error := inl (marshalValue v).

(** A permission update that decodes to the map it was read from. *)
Definition exampleDecodeUpdate (m : gomap) : option PermissionUpdate := Some (VMap m).

(** A callback that allows every tool and leaves the input alone. *)
Definition allowAll : CanUseToolFunc :=
  fun _ _ _ _ => inl (AllowValue (mkAllow "allow" None [])).

(** The request of the test "allow permission":
    [{subtype: can_use_tool, tool_name: Bash, input: {command: ls}}]. *)
Definition bashInput : gmap string value := <["command" := VString "ls"]> ∅.
Definition bashRequest : gomap :=
  Some (<["subtype" := VString "can_use_tool"]>
       (<["tool_name" := VString "Bash"]>
       (<["input" := VMap (Some bashInput)]> ∅))).

(** A started engine in streaming mode over a connected transport. *)
Definition engine : System := started Transport.connected (Some allowAll) true.

(** A JSON-RPC message and two control requests that carry an
    [mcp_message]: one names a server and carries the message, the other
    names the server and carries no message. *)
Definition pingMessage : gmap string value :=
  <["jsonrpc" := VString "2.0"]> (<["id" := VInt 7]> (<["method" := VString "ping"]> ∅)).
Definition mcpRequest : SystemMessage :=
  mkSystemMessage "control_request" "" None None
    (Some (<["request_id" := VString "cli_1"]>
          (<["subtype" := VString "mcp_message"]>
          (<["server_name" := VString "ghost"]>
          (<["message" := VMap (Some pingMessage)]> ∅))))).

(** A server whose handler fails. *)
Definition failingServer : MCPServer :=
  mkMCPServer (fun _ => inr (Foreign "tool crashed")).

(** Control responses for the request [req_1]: a success and an error. *)
Definition successResponse : SystemMessage :=
  mkSystemMessage "control_response" "" None
    (Some (<["subtype" := VString "success"]>
          (<["request_id" := VString "req_1"]>
          (<["response" := VMap (Some (<["mode" := VString "default"]> ∅))]> ∅))))
    None.
Definition errorResponse : SystemMessage :=
  mkSystemMessage "control_response" "" None
    (Some (<["subtype" := VString "error"]>
          (<["request_id" := VString "req_1"]>
          (<["error" := VString "invalid permission mode"]> ∅))))
    None.

(** A request payload and a conversational message. *)
Definition modeRequest : gomap :=
  Some (<["subtype" := VString "set_permission_mode"]> (<["mode" := VString "default"]> ∅)).
Definition helloUser : Message := MsgUser (mkUserMessage "user" (ContentString "hello") None).
Definition interruptRequest : Message :=
  MsgSystem (mkSystemMessage "control_request" "" None None
               (Some (<["subtype" := VString "interrupt"]> ∅))).

(** A second conversational message. *)
Definition lateUser : Message := MsgUser (mkUserMessage "user" (ContentString "late") None).

(** Two callers send a control request each; the response for the first
    arrives, the context of the second is cancelled. *)
Definition twoCalls : list event :=
  [CallSend 1 modeRequest; CallSend 2 modeRequest; CallRegister 2; CallRegister 1;
   CallWrite 1 None; CallWrite 2 None; LoopRead (MsgSystem successResponse) true;
   CallReceive 1; CallCancel 2 Canceled].

(** Conversational messages with control envelopes in between, and a
    consumer that takes the first message. *)
Definition mixedTraffic : list event :=
  [LoopRead helloUser true; LoopRead interruptRequest true;
   LoopRead (MsgSystem successResponse) true; LoopRead lateUser true; ConsumerReceive].

(** A consumer that does not read: the channel fills up, the loop waits
    with the next message, and the router's context is cancelled. *)
Definition fullThenCancelled : list event :=
  replicate 100 (LoopRead helloUser true) ++ [LoopRead lateUser true; CancelContext Canceled].

(** A caller waits for [req_1]; the router's context is cancelled and the
    response arrives afterwards, the select taking the Done case. *)
Definition pendingCall : list event :=
  [CallSend 1 modeRequest; CallRegister 1; CallWrite 1 None].



(** *** For the client *)

(** A connection and a close in which every call succeeds and the caller's
    context is live, and a client that has connected and has been closed. *)
Definition okConnect : Session.ConnectEnv := Session.mkConnectEnv None None None None None.
Definition okClose : Session.CloseEnv := Session.mkCloseEnv None None.
Definition closedClient : Session.Client :=
  Session.run Session.NewClient [Session.EvConnect okConnect; Session.EvClose okClose].

(** *** For the version check *)

(** [strings.TrimSpace] on text whose white space is blanks, tabs, line
    feeds and carriage returns, where it agrees with the transport's own
    [trimWhitespace]. *)
Definition asciiTrimSpace : string -> string := Transport.trimWhitespace.

(** *** For the transport *)

(** A report, a write that succeeds, a write that fails on the pipe, and
    what comes after it. *)
Definition brokenPipe : list Transport.op :=
  [Transport.OpOnError (Foreign "read failed"); Transport.OpWrite "{}" None;
   Transport.OpWrite "{}" (Some (Foreign "broken pipe"));
   Transport.OpOnError Canceled; Transport.OpWrite "{}" None].

(** *** More runs of the engine *)

(** An engine that is not in streaming mode, a caller that sends a control
    request and a message that arrives. *)
Definition refusedCall : list event := [CallSend 1 modeRequest; LoopRead helloUser true].

(** A caller that has its identifier and has not registered it yet. *)
Definition generatedCall : list event := [CallSend 1 modeRequest].

(** An inbound control request has been read and its handler spawned. *)
Definition inboundRequest : list event := [LoopRead (MsgSystem mcpRequest) true].

(** Two hook callbacks, and the hooks of two events; the second event has a
    matcher without pattern. *)
Definition approveHook : HookCallbackFunc :=
  fun _ _ _ => inl (VMap (Some (<["decision" := VString "approve"]> ∅))).
Definition blockHook : HookCallbackFunc :=
  fun _ _ _ => inl (VMap (Some (<["decision" := VString "block"]> ∅))).
Definition exampleHooks : list (string * list HookMatcher) :=
  [("PreToolUse", [mkHookMatcher (Some "Bash") [approveHook; blockHook]]);
   ("Stop", []);
   ("PostToolUse", [mkHookMatcher None [blockHook]])].

(** The hook_callback request for the second callback. *)
Definition hookRequest : gomap :=
  Some (<["subtype" := VString "hook_callback"]>
       (<["callback_id" := VString "hook_2"]>
       (<["input" := VMap (Some bashInput)]> ∅))).

End Examples.

(* ===================================================================== *)
(** * Theorems *)
(* ===================================================================== *)

(** ** The transport's sticky error *)

Section TransportFacts.

Import Transport.

(** A stored error survives every operation except a write that fails on
    the pipe of a ready transport. *)
Lemma err_kept_by_op (t : SubprocessCLITransport) (o : op) (e : error) :
  err t = Some e ->
  (forall data io, o = OpWrite data (Some io) -> ready t && writer t = false) ->
  err (apply_op t o) = Some e.
Proof.
  intros He Hw. destruct o as [e' | text | data io]; simpl.
  - unfold OnError. now rewrite He.
  - unfold parseStderrError. destruct (extractSessionNotFoundError text) as [[] sid]; [|done].
    unfold OnError. now rewrite He.
  - unfold Write. destruct io as [io|].
    + specialize (Hw data io eq_refl).
      destruct (ready t), (writer t); simpl in *; done.
    + destruct (ready t), (writer t); simpl; done.
Qed.

(** C9: the stderr scanner on the two texts of the scenario: the first is
    recognised with the session identifier that follows the pattern and is
    stored as a SessionNotFound error carrying exactly that identifier (when
    no error is stored yet); the second is not recognised, the extracted
    identifier is empty and the transport is left as it was. *)
Theorem C9_session_not_found_scenario :
  extractSessionNotFoundError
    "No conversation found with session ID: 8587b432-e504-42c8-b9a7-e3fd0b4b2c60"
  = (true, "8587b432-e504-42c8-b9a7-e3fd0b4b2c60")
  /\ (forall t : SubprocessCLITransport,
        GetError (parseStderrError t
          "No conversation found with session ID: 8587b432-e504-42c8-b9a7-e3fd0b4b2c60")
        = match GetError t with
          | Some e => Some e
          | None => Some (SessionNotFoundError "8587b432-e504-42c8-b9a7-e3fd0b4b2c60"
                            sessionNotFoundMessage None)
          end)
  /\ extractSessionNotFoundError "Connection failed: timeout" = (false, "")
  /\ (forall t : SubprocessCLITransport,
        parseStderrError t "Connection failed: timeout" = t).
Proof.
  assert (H1 : extractSessionNotFoundError
            "No conversation found with session ID: 8587b432-e504-42c8-b9a7-e3fd0b4b2c60"
          = (true, "8587b432-e504-42c8-b9a7-e3fd0b4b2c60")) by (vm_compute; reflexivity).
  assert (H2 : extractSessionNotFoundError "Connection failed: timeout" = (false, ""))
    by (vm_compute; reflexivity).
  split; [exact H1|]. split; [|split; [exact H2|]].
  - intros t. unfold parseStderrError. rewrite H1.
    unfold OnError, GetError. destruct (err t) eqn:E; simpl; rewrite ?E; reflexivity.
  - intros t. unfold parseStderrError. now rewrite H2.
Qed.

(** C1: on a connected transport the reader loop reports a parse error and
    a later write fails on the pipe: [GetError] then returns the connection
    error of the write, not the error reported first. *)
Theorem C1_failed_write_replaces_first_error :
  let first := MessageParseError "unknown message type" "bogus" None in
  let pipe := Foreign "write |1: broken pipe" in
  GetError (run connected [OpOnError first]) = Some first
  /\ GetError (run connected [OpOnError first; OpWrite "{}" (Some pipe)])
     = Some (CLIConnectionError "failed to write to subprocess stdin" (Some pipe)).
Proof. split; reflexivity. Qed.

(** X1: a stored error survives every sequence of reports, stderr lines
    and writes in which no write fails on the pipe: [GetError] keeps
    returning it. *)
Theorem first_error_kept_without_failed_write (t : SubprocessCLITransport)
  (ops : list op) (e : error) :
  GetError t = Some e ->
  Forall (fun o => forall data io, o <> OpWrite data (Some io)) ops ->
  GetError (run t ops) = Some e.
Proof.
  unfold GetError, run. revert t. induction ops as [|o ops IH]; intros t He Hops; [done|].
  apply Forall_cons in Hops as [Ho Hops]. simpl. apply IH; [|done].
  apply err_kept_by_op; [done|]. intros data io ->. by destruct (Ho data io).
Qed.

Lemma first_error_kept_without_failed_write_witness :
  GetError (run connected
              [OpOnError (Foreign "read failed");
               OpStderr "No conversation found with session ID: 8587b432";
               OpWrite "{}" None; OpOnError Canceled])
  = Some (Foreign "read failed").
Proof.
  apply (first_error_kept_without_failed_write
           (apply_op connected (OpOnError (Foreign "read failed")))
           [OpStderr "No conversation found with session ID: 8587b432";
            OpWrite "{}" None; OpOnError Canceled]).
  - reflexivity.
  - repeat constructor; discriminate.
Defined.

End TransportFacts.

(** ** The message decoder *)

Section DecoderFacts.

Variable enc : Encoding.

(** The first [n] bytes of a string of at least [n] bytes are a prefix of
    length [n]. *)
Lemma substring_prefix (n : nat) (s : string) :
  (n <= String.length s)%nat ->
  exists rest, s = String.substring 0 n s +:+ rest
               /\ String.length (String.substring 0 n s) = n.
Proof.
  revert s. induction n as [|n IH]; intros s Hn.
  - exists s. destruct s; simpl; auto.
  - destruct s as [|c s]; simpl in Hn; [lia|].
    destruct (IH s) as (rest & Hs & Hl); [lia|].
    exists rest. simpl. split; [|lia].
    change (String c s = String c (String.substring 0 n s +:+ rest)). congruence.
Qed.

(** What [rawSnippet] keeps of the input: all of it up to 100 bytes, else
    the first 100 bytes followed by an ellipsis. *)
Lemma rawSnippet_spec (raw : string) :
  (len raw <= 100 /\ rawSnippet raw = raw)
  \/ (100 < len raw
      /\ exists head rest, raw = head +:+ rest /\ String.length head = 100%nat
                           /\ rawSnippet raw = head +:+ "...").
Proof.
  unfold rawSnippet. destruct (100 <? len raw) eqn:E.
  - right. apply Z.ltb_lt in E. split; [exact E|].
    destruct (substring_prefix 100 raw) as (rest & Hs & Hl); [unfold len in E; lia|].
    exists (String.substring 0 100 raw), rest. repeat split; auto.
  - left. apply Z.ltb_ge in E. auto.
Qed.

(** A discriminator outside the known ones passes every case of the
    switch of [UnmarshalMessage]. *)
Lemma unknown_type_falls_through (ty : string) :
  ty ∉ knownMessageTypes ->
  String.eqb ty "user" = false /\ String.eqb ty "assistant" = false
  /\ String.eqb ty "system" = false /\ String.eqb ty "control_request" = false
  /\ String.eqb ty "control_response" = false /\ String.eqb ty "result" = false
  /\ String.eqb ty "stream_event" = false.
Proof.
  unfold knownMessageTypes. rewrite !not_elem_of_cons.
  intros (? & ? & ? & ? & ? & ? & ? & _).
  repeat split; apply String.eqb_neq; assumption.
Qed.

(** C8: the decoder fails closed.  An input that is JSON and whose type
    discriminator is none of the known ones yields a parse error that carries
    the discriminator (and prints it when it is not empty); an input that is
    not JSON yields a decode error whose text carries the input itself when
    it has at most 100 bytes, else its first 100 bytes and an ellipsis. *)
Theorem C8_decoder_fails_closed (data : string) :
  (forall (j : json) (ty : string),
      parse enc data = inl j ->
      unmarshalTypeCheck enc j = inl ty ->
      ty ∉ knownMessageTypes ->
      UnmarshalMessage enc data = inr (MessageParseError "unknown message type" ty None)
      /\ IsMessageParseError (MessageParseError "unknown message type" ty None) = true
      /\ (ty <> "" ->
          Error (MessageParseError "unknown message type" ty None)
          = "unknown message type" +:+ " (type: " +:+ ty +:+ ")"))
  /\ (forall syntaxError : string,
      parse enc data = inr syntaxError ->
      let e := JSONDecodeError "failed to determine message type" data
                 (Some (Foreign syntaxError)) in
      UnmarshalMessage enc data = inr e
      /\ IsJSONDecodeError e = true
      /\ (data <> "" ->
          Error e = ("failed to determine message type" +:+ " (raw: " +:+ rawSnippet data
                     +:+ ")") +:+ ": " +:+ syntaxError)
      /\ ((len data <= 100 /\ rawSnippet data = data)
          \/ (100 < len data
              /\ exists head rest, data = head +:+ rest
                                   /\ String.length head = 100%nat
                                   /\ rawSnippet data = head +:+ "..."))).
Proof.
  split.
  - intros j ty Hp Ht Hty.
    destruct (unknown_type_falls_through ty Hty) as (H1 & H2 & H3 & H4 & H5 & H6 & H7).
    split; [|split].
    + unfold UnmarshalMessage, unmarshalMessage. rewrite Hp, Ht.
      rewrite H1, H2, H3, H4, H5, H6, H7. reflexivity.
    + reflexivity.
    + intros Hne. simpl. apply String.eqb_neq in Hne. rewrite Hne. reflexivity.
  - intros syntaxError Hp e. split; [|split; [|split]].
    + unfold UnmarshalMessage. rewrite Hp. reflexivity.
    + reflexivity.
    + intros Hne. subst e. simpl. apply String.eqb_neq in Hne. rewrite Hne. reflexivity.
    + apply rawSnippet_spec.
Qed.

(** [unmarshalBlocks] decodes every raw block, in order. *)
Lemma unmarshalBlocks_inl (raws : list json) (blocks : list ContentBlock) :
  unmarshalBlocks enc raws = inl blocks ->
  Forall2 (fun raw b => unmarshalContentBlock enc (raw_of raw) raw = inl b) raws blocks.
Proof.
  revert blocks. induction raws as [|raw raws IH]; intros blocks; simpl.
  - intros [= <-]. constructor.
  - destruct (unmarshalContentBlock enc (raw_of raw) raw) as [b|e] eqn:Hb; [|discriminate].
    destruct (unmarshalBlocks enc raws) as [bs|e]; [|discriminate].
    intros [= <-]. constructor; auto.
Qed.

(** When it fails, the error is that of a block. *)
Lemma unmarshalBlocks_inr (raws : list json) (e : error) :
  unmarshalBlocks enc raws = inr e ->
  exists raw, raw ∈ raws /\ unmarshalContentBlock enc (raw_of raw) raw = inr e.
Proof.
  induction raws as [|raw raws IH]; simpl; [discriminate|].
  destruct (unmarshalContentBlock enc (raw_of raw) raw) as [b|e'] eqn:Hb.
  - destruct (unmarshalBlocks enc raws) as [bs|e'']; [discriminate|].
    intros [= <-]. destruct IH as (raw' & Hin & Hraw'); [reflexivity|].
    exists raw'. split; [apply elem_of_cons; by right|done].
  - intros [= <-]. exists raw. split; [apply elem_of_cons; by left|done].
Qed.

(** C7 (as amended): a line that is JSON, has the discriminator "user",
    carries a content field and whose type and parent identifier are strings
    or null is decoded by the shape of its content: a string is kept, null
    counts as the empty string, an array is decoded block by block in order
    (each block by its own type) and the first failing block makes the
    message fail with that error inside a decode error; content of any other
    shape (a number, a boolean, an object) fails with a decode error that is
    no parse error. *)
Theorem C7_user_content_by_shape (data : string) (j : json) (ms : list (string * json))
  (content : json) :
  parse enc data = inl j ->
  unmarshalTypeCheck enc j = inl "user" ->
  structMembers enc j = inl ms ->
  firstMismatch enc userAuxFields ms = None ->
  decodeField enc storeRaw "content" ms None = Some content ->
  let parent := decodeField enc storeStringPtr "parent_tool_use_id" ms None in
  let shapeError :=
    JSONDecodeError "failed to unmarshal user message" data
      (Some (Foreign "content must be string or array of content blocks")) in
  match content with
  | JString _ s =>
      UnmarshalMessage enc data = inl (MsgUser (mkUserMessage "user" (ContentString s) parent))
  | JNull _ =>
      UnmarshalMessage enc data = inl (MsgUser (mkUserMessage "user" (ContentString "") parent))
  | JArray _ elems =>
      match unmarshalBlocks enc elems with
      | inl blocks =>
          UnmarshalMessage enc data
          = inl (MsgUser (mkUserMessage "user" (ContentBlocks blocks) parent))
          /\ Forall2 (fun raw b => unmarshalContentBlock enc (raw_of raw) raw = inl b)
                     elems blocks
      | inr e =>
          UnmarshalMessage enc data
          = inr (JSONDecodeError "failed to unmarshal user message" data (Some e))
          /\ exists raw, raw ∈ elems /\ unmarshalContentBlock enc (raw_of raw) raw = inr e
      end
  | JNumber _ | JBool _ _ | JObject _ _ =>
      UnmarshalMessage enc data = inr shapeError
      /\ IsJSONDecodeError shapeError = true
      /\ IsMessageParseError shapeError = false
  end.
Proof.
  intros Hp Ht Hs Hm Hcontent parent shapeError.
  assert (Hty : decodeField enc storeString "type" ms "" = "user").
  { unfold unmarshalTypeCheck, unmarshalStruct in Ht. rewrite Hs in Ht.
    destruct (firstMismatch enc [("type", acceptsString)] ms); congruence. }
  assert (Hum : UnmarshalMessage enc data
                = orDecodeError "failed to unmarshal user message" data
                    (asMessage MsgUser (UserMessage_UnmarshalJSON enc j))).
  { unfold UnmarshalMessage, unmarshalMessage. rewrite Hp, Ht. reflexivity. }
  rewrite Hum. unfold UserMessage_UnmarshalJSON, unmarshalStruct.
  rewrite Hs, Hm, Hty, Hcontent. fold parent.
  destruct content as [r|r b|r|r s|r elems|r mem];
    simpl; try (repeat split; reflexivity).
  destruct (unmarshalBlocks enc elems) as [blocks|e] eqn:Hb; simpl.
  - split; [reflexivity|]. by apply unmarshalBlocks_inl.
  - split; [reflexivity|]. by apply unmarshalBlocks_inr.
Qed.

End DecoderFacts.

(** The two inputs of C8, decoded with the example encoding. *)
Lemma C8_decoder_fails_closed_witness :
  UnmarshalMessage Examples.exampleEncoding Examples.bogusLine
  = inr (MessageParseError "unknown message type" "bogus" None)
  /\ UnmarshalMessage Examples.exampleEncoding Examples.longLine
     = inr (JSONDecodeError "failed to determine message type" Examples.longLine
              (Some (Foreign "invalid character 'x' looking for beginning of value"))).
Proof.
  split.
  - apply (proj1 (C8_decoder_fails_closed Examples.exampleEncoding Examples.bogusLine)
             Examples.bogusJson "bogus").
    + reflexivity.
    + reflexivity.
    + unfold knownMessageTypes. rewrite !not_elem_of_cons.
      repeat split; try discriminate. apply not_elem_of_nil.
  - apply (proj2 (C8_decoder_fails_closed Examples.exampleEncoding Examples.longLine)
             "invalid character 'x' looking for beginning of value").
    reflexivity.
Defined.

(** C7 fails as the specification words it: content that is a number makes the
    decoding fail with a decode error that is no parse error, and content
    that is null does not fail at all. *)
Lemma C7_number_and_null_content :
  UnmarshalMessage Examples.exampleEncoding Examples.userNumberLine
  = inr (JSONDecodeError "failed to unmarshal user message" Examples.userNumberLine
           (Some (Foreign "content must be string or array of content blocks")))
  /\ IsMessageParseError
       (JSONDecodeError "failed to unmarshal user message" Examples.userNumberLine
          (Some (Foreign "content must be string or array of content blocks"))) = false
  /\ UnmarshalMessage Examples.exampleEncoding Examples.userNullLine
     = inl (MsgUser (mkUserMessage "user" (ContentString "") None)).
Proof. repeat split; vm_compute; reflexivity. Qed.

(** C7 at a message whose content is an array of one text block. *)
Lemma C7_user_content_by_shape_witness :
  UnmarshalMessage Examples.exampleEncoding Examples.userBlocksLine
  = inl (MsgUser (mkUserMessage "user" (ContentBlocks [TextBlock "text" "Hello"]) None)).
Proof.
  exact (proj1 (C7_user_content_by_shape Examples.exampleEncoding Examples.userBlocksLine
                  Examples.userBlocksJson
                  [("type", JString (Examples.quoted "user") "user");
                   ("content", JArray ("[" +:+ Examples.helloBlockText +:+ "]")
                                 [Examples.helloBlockJson])]
                  (JArray ("[" +:+ Examples.helloBlockText +:+ "]")
                     [Examples.helloBlockJson])
                  eq_refl eq_refl eq_refl eq_refl eq_refl)).
Defined.

(** ** The handlers of inbound control requests *)

Section HandlerFacts.

Import Router.

Variable marshal : value -> string + error.
Variable decodePermissionUpdate : gomap -> option PermissionUpdate.

(** The response of an Allow result holds the behaviour and, under
    ["updatedInput"], the callback's updated input when it gave one and the
    input of the request otherwise. *)
Lemma allowResponse_lookup (input : gomap) (r : PermissionResultAllow) :
  allowResponse input r !! "behavior" = Some (VString "allow")
  /\ allowResponse input r !! "updatedInput"
     = Some (VMap (match UpdatedInput r with Some updated => updated | None => input end)).
Proof.
  unfold allowResponse.
  destruct (UpdatedInput r) as [updated|]; case_bool_decide; split;
    by simplify_map_eq.
Qed.

(** C10: when the permission callback is called for a request and returns
    an Allow result, as a value or through a pointer, the handler returns a
    response whose behaviour is "allow" and whose "updatedInput" is the input
    of the request if the result has no updated input, and the updated input
    of the result otherwise. *)
Theorem C10_allow_echoes_input (q : Query) (requestData : gomap) (callback : CanUseToolFunc)
  (toolName : string) (inputMap : gmap string value) (res : PermissionResult)
  (r : PermissionResultAllow) :
  canUseTool q = Some callback ->
  fst (asString (index requestData "tool_name")) = toolName ->
  toolName <> "" ->
  asMap (index requestData "input") = Some inputMap ->
  callback (ctx q) toolName inputMap
    (mkToolPermissionContext
       (permissionUpdates decodePermissionUpdate
          (asSlice (index requestData "permission_suggestions")))) = inl res ->
  res = AllowValue r \/ res = AllowPointer (Some r) ->
  exists response : gmap string value,
    handlePermissionRequest decodePermissionUpdate q requestData = Returns (Some response)
    /\ response !! "behavior" = Some (VString "allow")
    /\ response !! "updatedInput"
       = Some (VMap (match UpdatedInput r with
                     | Some updated => updated
                     | None => Some inputMap
                     end)).
Proof.
  intros Hcb Hname Hne Hin Hcall Hres.
  exists (allowResponse (Some inputMap) r).
  destruct (allowResponse_lookup (Some inputMap) r) as [Hb Hu].
  split; [|split; assumption].
  unfold handlePermissionRequest. rewrite Hcb, Hname, Hin.
  apply String.eqb_neq in Hne. rewrite Hne, Hcall.
  destruct Hres as [-> | ->]; reflexivity.
Qed.

(** The error code of the JSON-RPC error response. *)
Lemma jsonrpcError_code (messageID : value) (code : Z) (message : string) :
  index (asMap (index (asMap (index (Some (jsonrpcError messageID code message))
                                "mcp_response")) "error")) "code" = VInt code.
Proof. reflexivity. Qed.


(** A success envelope that marshals is written as one line when the
    transport is ready and the write succeeds. *)
Lemma sendSuccessResponse_writes (q : Query) (requestID : string) (response : gomap)
  (data : string) :
  marshal (successEnvelope requestID response) = inl data ->
  Transport.ready (transport q) = true ->
  Transport.writer (transport q) = true ->
  Transport.stdin (transport (sendSuccessResponse marshal q requestID response None))
  = Transport.stdin (transport q) ++ [data].
Proof.
  intros Hm Hr Hw. unfold sendSuccessResponse, sendEnvelope. rewrite Hm.
  unfold Transport.Write. rewrite Hr, Hw. reflexivity.
Qed.


End HandlerFacts.

(** C10 at the request of the test "allow permission". *)
Lemma C10_allow_echoes_input_witness :
  exists response : gmap string value,
    Router.handlePermissionRequest Examples.exampleDecodeUpdate
      (Router.query Examples.engine) Examples.bashRequest = Router.Returns (Some response)
    /\ response !! "behavior" = Some (VString "allow")
    /\ response !! "updatedInput" = Some (VMap (Some Examples.bashInput)).
Proof.
  apply (C10_allow_echoes_input Examples.exampleDecodeUpdate (Router.query Examples.engine)
           Examples.bashRequest Examples.allowAll "Bash" Examples.bashInput
           (Router.AllowValue (Router.mkAllow "allow" None []))
           (Router.mkAllow "allow" None [])).
  - reflexivity.
  - reflexivity.
  - discriminate.
  - reflexivity.
  - reflexivity.
  - left. reflexivity.
Defined.



(** ** The engine: what each step changes *)

Section EngineFacts.

Import Router.

Variable marshal : value -> string + error.
Variable decodePermissionUpdate : gomap -> option PermissionUpdate.

Abbreviation step := (Router.step marshal decodePermissionUpdate).
Abbreviation run := (Router.run marshal decodePermissionUpdate).
Abbreviation generatedIDs := (Router.generatedIDs marshal decodePermissionUpdate).

(** A handler of an inbound control request touches the transport only. *)
Lemma handleControlRequest_transport (q q' : Query) (msg : SystemMessage) (io : option error) :
  handleControlRequest marshal decodePermissionUpdate q msg io = Some q' ->
  exists t, q' = set_transport q t.
Proof.
  assert (Henv : forall env, exists t, sendEnvelope marshal q env io = set_transport q t).
  { intros env. unfold sendEnvelope. destruct (marshal env); eauto.
    exists (transport q). by destruct q. }
  unfold handleControlRequest, sendErrorResponse, sendSuccessResponse.
  repeat case_match; intros; simplify_eq; apply Henv.
Qed.

(** [handleControlResponse] leaves the state alone, or removes the entry
    of a pending request and may put a result on its channel. *)
Lemma handleControlResponse_effect (pickSend : bool) (q q' : Query) (msg : SystemMessage)
  (e : option error) :
  handleControlResponse pickSend q msg = Some (q', e) ->
  q' = q
  \/ exists requestID responseChan,
       requestMap q !! requestID = Some responseChan
       /\ (q' = set_requestMap q (delete requestID (requestMap q))
           \/ exists r, q' = set_chans (set_requestMap q (delete requestID (requestMap q)))
                               (<[responseChan := default [] (chans q !! responseChan) ++ [r]]>
                                  (chans q))).
Proof.
  unfold handleControlResponse, offerResult, selectSendOrDone.
  intros H. repeat (case_match; simplify_option_eq; eauto 10).
Qed.

(** *** Delivery to the consumer *)

Lemma regular_cons (msg : Message) (msgs : list Message) :
  regular (msg :: msgs) = regular [msg] ++ regular msgs.
Proof. unfold regular. simpl. by destruct (negb (isControl msg)). Qed.

Lemma messagesRead_cons (ev : event) (evs : list event) :
  regular (messagesRead (ev :: evs)) = arrival ev ++ regular (messagesRead evs).
Proof.
  unfold messagesRead, arrival. destruct ev; simpl; try reflexivity. apply regular_cons.
Qed.

Lemma regular_not_control (msgs : list Message) :
  Forall (fun msg => isControl msg = false) (regular msgs).
Proof.
  unfold regular. induction msgs as [|m msgs IH]; simpl; [constructor|].
  destruct (isControl m) eqn:E; simpl; [exact IH|]. by constructor.
Qed.

(** A regular message passes the two tests of [routeMessage]. *)
Lemma isControl_false (msg : Message) :
  isControl msg = false ->
  String.eqb (GetMessageType msg) "control_response" = false
  /\ String.eqb (GetMessageType msg) "control_request" = false.
Proof. unfold isControl. intros H. apply orb_false_elim in H. tauto. Qed.

(** One step: the pipeline grows by the regular message read, if any, or
    loses a message; it loses none while the router's context is live, and a
    cancelled context stays cancelled. *)
Lemma step_pipeline (s s' : System) (ev : event) :
  step s ev = Some s' ->
  pipeline s' `sublist_of` pipeline s ++ arrival ev
  /\ (ctx (query s') = None ->
      ctx (query s) = None /\ pipeline s' = pipeline s ++ arrival ev).
Proof.
  unfold pipeline, delivered.
  destruct ev as [g request|g|g io|g|g ctxErr|msg pickSend| | |n io|e]; simpl; intros Hstep.
  - (* CallSend *)
    unfold sendControlRequest_begin, generateRequestID in Hstep.
    repeat case_match; simplify_eq; simpl; rewrite app_nil_r; auto.
  - (* CallRegister *)
    unfold sendControlRequest_register in Hstep.
    repeat case_match; simplify_eq; simpl; rewrite app_nil_r; auto.
  - (* CallWrite *)
    unfold sendControlRequest_write in Hstep.
    repeat case_match; simplify_eq; simpl; rewrite app_nil_r; auto.
  - (* CallReceive *)
    unfold sendControlRequest_receive in Hstep.
    repeat (case_match; simplify_option_eq); simpl; rewrite app_nil_r; auto.
  - (* CallCancel *)
    unfold sendControlRequest_cancel in Hstep.
    repeat case_match; simplify_eq; simpl; rewrite app_nil_r; auto.
  - (* LoopRead *)
    destruct (loop s) eqn:Hloop; try discriminate.
    unfold routeMessage in Hstep. unfold regular. simpl.
    destruct (String.eqb (GetMessageType msg) "control_response") eqn:Hresp.
    { assert (Hc : isControl msg = true) by (unfold isControl; rewrite Hresp; apply orb_true_r).
      rewrite Hc. simpl. rewrite !app_nil_r.
      destruct msg as [m|m|m|m|m]; simplify_eq; simpl; rewrite ?app_nil_r; auto.
      destruct (handleControlResponse pickSend (query s) m) as [[q' e]|] eqn:Hh;
        simplify_eq; simpl.
      apply handleControlResponse_effect in Hh as [->|(rid & ch & _ & [->|[r ->]])];
        simpl; rewrite ?app_nil_r; auto. }
    destruct (String.eqb (GetMessageType msg) "control_request") eqn:Hreq.
    { assert (Hc : isControl msg = true) by (unfold isControl; rewrite Hreq; done).
      rewrite Hc. simpl. rewrite !app_nil_r.
      destruct msg as [m|m|m|m|m]; simplify_eq; simpl; rewrite ?app_nil_r; auto. }
    assert (Hc : isControl msg = false) by (unfold isControl; rewrite Hresp, Hreq; done).
    rewrite Hc. simpl.
    unfold selectSendOrDone in Hstep.
    repeat case_match; simplify_eq; simpl; rewrite ?app_nil_r, <- ?app_assoc; auto;
      (split; [first [reflexivity | rewrite ?app_assoc; by apply sublist_inserts_r]
              |intros; congruence]).
  - (* LoopExit *)
    repeat case_match; simplify_eq; simpl; rewrite !app_nil_r; auto.
  - (* ConsumerReceive *)
    destruct (messagesChan (query s)) as [|m rest] eqn:Hchan; [discriminate|].
    destruct (loop s) eqn:Hloop; simplify_eq; simpl; rewrite !app_nil_r;
      rewrite <- ?app_assoc; simpl; auto.
  - (* RunHandler *)
    destruct (spawned s !! n); [|discriminate]. simpl in Hstep.
    destruct (handleControlRequest marshal decodePermissionUpdate (query s) s0 io) as [q'|]
      eqn:Hh; [|discriminate].
    apply handleControlRequest_transport in Hh as [t ->].
    simpl in Hstep. simplify_eq. simpl. rewrite app_nil_r. auto.
  - (* CancelContext *)
    destruct (ctx (query s)) eqn:Hctx.
    + simplify_eq. rewrite app_nil_r. split; [reflexivity|intros; congruence].
    + destruct (loop s) eqn:Hloop; simplify_eq; simpl; rewrite ?Hloop; simpl;
        rewrite ?app_nil_r;
        (split; [first [reflexivity | by apply sublist_inserts_r] | intros; congruence]).
Qed.

Lemma run_pipeline (evs : list event) (s s' : System) :
  run s evs = Some s' ->
  pipeline s' `sublist_of` pipeline s ++ regular (messagesRead evs)
  /\ (ctx (query s') = None ->
      ctx (query s) = None /\ pipeline s' = pipeline s ++ regular (messagesRead evs)).
Proof.
  revert s. induction evs as [|ev evs IH]; intros s Hrun; simpl in Hrun.
  - injection Hrun as ->. unfold messagesRead, regular. simpl. rewrite app_nil_r. auto.
  - destruct (step s ev) as [s1|] eqn:Hstep; [|discriminate]. simpl in Hrun.
    destruct (step_pipeline _ _ _ Hstep) as [Hsub1 Heq1].
    destruct (IH _ Hrun) as [Hsub Heq].
    rewrite messagesRead_cons, app_assoc. split.
    + etrans; [exact Hsub|]. by apply sublist_app.
    + intros Hlive. destruct (Heq Hlive) as [Hlive1 ->].
      destruct (Heq1 Hlive1) as [Hlive0 ->]. auto.
Qed.

(** C4 (as amended): along every run of a started engine, what reaches the
    consumer side holds no control_request and no control_response message,
    and is a subsequence, in order and unmodified, of the other messages read
    from the transport; while the router's context is not cancelled it is all
    of them: the consumer side followed by the message the loop is waiting to
    put on the full channel. *)
Theorem C4_consumer_stream (t : Transport.SubprocessCLITransport)
  (callback : option CanUseToolFunc) (streaming : bool) (evs : list event) (s : System) :
  run (started t callback streaming) evs = Some s ->
  Forall (fun msg => isControl msg = false) (delivered s)
  /\ delivered s `sublist_of` regular (messagesRead evs)
  /\ (ctx (query s) = None ->
      delivered s ++ inflight (loop s) = regular (messagesRead evs)).
Proof.
  intros Hrun. destruct (run_pipeline _ _ _ Hrun) as [Hsub Heq].
  change (pipeline (started t callback streaming)) with (@nil Message) in *.
  simpl in *.
  assert (Hd : delivered s `sublist_of` regular (messagesRead evs)).
  { etrans; [|exact Hsub]. unfold pipeline. by apply sublist_inserts_r. }
  split; [|split].
  - apply Forall_forall. intros msg Hin.
    pose proof (regular_not_control (messagesRead evs)) as Hall.
    rewrite Forall_forall in Hall. apply Hall. by apply (sublist_subseteq _ _ Hd).
  - exact Hd.
  - intros Hlive. destruct (Heq Hlive) as [_ Hp]. exact Hp.
Qed.


(** *** Request identifiers and the pending table *)

Lemma wrap64_small (z : Z) : - 2 ^ 63 <= z < 2 ^ 63 -> wrap64 z = z.
Proof. intros Hz. unfold wrap64. rewrite Z.mod_small; lia. Qed.

#[local] Instance requestIDFor_inj : Inj (=) (=) requestIDFor.
Proof.
  intros k1 k2 H. unfold requestIDFor in H.
  apply (inj (String.append "req_")) in H. by apply (inj pretty) in H.
Qed.

Lemma registered_held (c : call) (requestID : string) (responseChan : nat) :
  registered c = Some (requestID, responseChan) -> held c = Some requestID.
Proof. destruct c; simpl; congruence. Qed.

Lemma step_effect (s s' : System) (ev : event) : step s ev = Some s' -> effect s s'.
Proof.
  destruct ev as [g request|g|g io|g|g ctxErr|msg pickSend| | |n io|e]; simpl; intros Hstep.
  - (* CallSend *)
    assert (Hfree : free s g).
    { unfold free. destruct (calls s !! g) as [[]|]; simplify_eq; eauto. }
    assert (Hs' : s' = let '(q', c) := sendControlRequest_begin (query s) request in
                       set_call s q' g c).
    { destruct (sendControlRequest_begin (query s) request) as [q' c].
      destruct (calls s !! g) as [[]|]; simplify_eq; done. }
    clear Hstep. unfold sendControlRequest_begin, generateRequestID in Hs'.
    destruct (isStreamingMode (query s)); simpl in Hs'; subst s'.
    + by eapply eff_begin.
    + by eapply eff_refuse.
  - (* CallRegister *)
    destruct (calls s !! g) as [[rid req| | |]|] eqn:Hg; simplify_eq.
    by eapply eff_register.
  - (* CallWrite *)
    destruct (calls s !! g) as [[|rid ch req| |]|] eqn:Hg; simplify_eq.
    unfold sendControlRequest_write in Hstep.
    destruct (marshal (controlRequestEnvelope rid req)) as [data|e].
    + destruct (Transport.Write (transport (query s)) data io) as [t [e|]]; simplify_eq.
      * by eapply (eff_withdraw _ _ g _ rid ch).
      * by eapply eff_written.
    + simplify_eq. by eapply (eff_withdraw _ _ g _ rid ch).
  - (* CallReceive *)
    destruct (calls s !! g) as [[| |rid ch|]|] eqn:Hg; simplify_eq.
    unfold sendControlRequest_receive in Hstep.
    destruct (chans (query s) !! ch) as [[|result rest]|] eqn:Hch; simplify_eq.
    simpl in Hstep. simplify_eq. by eapply eff_receive.
  - (* CallCancel *)
    destruct (calls s !! g) as [[| |rid ch|]|] eqn:Hg; simplify_eq.
    by eapply (eff_withdraw _ _ g _ rid ch).
  - (* LoopRead *)
    destruct (loop s); try discriminate.
    unfold routeMessage in Hstep.
    destruct (String.eqb (GetMessageType msg) "control_response").
    { destruct msg as [m|m|m|m|m]; simplify_eq; try by apply eff_same.
      destruct (handleControlResponse pickSend (query s) m) as [[q' e]|] eqn:Hh;
        simplify_eq.
      apply handleControlResponse_effect in Hh
        as [->|(rid & ch & Hp & [->|[r ->]])].
      - by apply eff_same.
      - eapply eff_resolve; eauto.
      - eapply eff_resolve; simpl; eauto. }
    destruct (String.eqb (GetMessageType msg) "control_request").
    { destruct msg as [m|m|m|m|m]; simplify_eq; by apply eff_same. }
    repeat case_match; simplify_eq; by apply eff_same.
  - (* LoopExit *)
    destruct (loop s); simplify_eq. by apply eff_same.
  - (* ConsumerReceive *)
    destruct (messagesChan (query s)); [discriminate|].
    destruct (loop s); simplify_eq; by apply eff_same.
  - (* RunHandler *)
    destruct (spawned s !! n) as [sysMsg|]; [|discriminate]. simpl in Hstep.
    destruct (handleControlRequest marshal decodePermissionUpdate (query s) sysMsg io)
      as [q'|] eqn:Hh; [|discriminate].
    apply handleControlRequest_transport in Hh as [t ->].
    simpl in Hstep. simplify_eq. by apply eff_same.
  - (* CancelContext *)
    destruct (ctx (query s)); [simplify_eq; by apply eff_same|].
    destruct (loop s); simplify_eq; by apply eff_same.
Qed.

(** Only a call that enters [sendControlRequest] moves the counter. *)
Lemma effect_counter (s s' : System) :
  effect s s' ->
  nextRequestID (query s') = nextRequestID (query s)
  \/ nextRequestID (query s') = wrap64 (nextRequestID (query s) + 1).
Proof. destruct 1; auto. Qed.

Ltac split_lookups :=
  repeat match goal with
    | H : <[_ := _]> _ !! _ = Some _ |- _ =>
        apply lookup_insert_Some in H as [[? ?]|[? H]]; simplify_eq
    | H : delete _ _ !! _ = Some _ |- _ =>
        apply lookup_delete_Some in H as [? H]
    end.

(** The invariant survives every step that does not overflow the counter. *)
Lemma effect_Inv (s s' : System) :
  effect s s' -> nextRequestID (query s) + 1 < 2 ^ 63 -> Inv s -> Inv s'.
Proof.
  intros Heff Hbound [Hc Hheld Huniq Hown Hempty Hchan Hcu].
  assert (Hreg : forall g c rid ch, calls s !! g = Some c -> registered c = Some (rid, ch) ->
                   exists k, 1 <= k <= nextRequestID (query s) /\ rid = requestIDFor k).
  { intros g c rid ch Hg Hr. eapply Hheld; eauto using registered_held. }
  destruct Heff as
    [Hn Hm Hch Hcalls
    |g request Hfree Hn Hm Hch Hcalls
    |g r Hfree Hn Hm Hch Hcalls
    |g rid request Hg Hn Hm Hch Hcalls
    |g rid ch request Hg Hn Hm Hch Hcalls
    |g c rid ch r Hg Hr Hn Hm Hch Hcalls
    |g rid ch result rest r Hg Hbuf Hn Hm Hch Hcalls
    |rid ch Hp Hn Hm Hch Hcalls].
  - (* nothing changes *)
    constructor; rewrite ?Hn, ?Hm, ?Hch, ?Hcalls; eauto.
  - (* a new identifier *)
    rewrite wrap64_small in Hn by lia.
    assert (Hg : forall c rid, calls s !! g = Some c -> held c = Some rid -> False).
    { intros c rid Hg Hh. destruct Hfree as [Hf|[r Hf]]; rewrite Hf in Hg; by simplify_eq. }
    assert (Hgr : forall c rid ch, calls s !! g = Some c -> registered c = Some (rid, ch)
                                   -> False).
    { intros c rid ch ? ?. eapply Hg; eauto using registered_held. }
    constructor; rewrite ?Hm, ?Hch, ?Hcalls.
    + lia.
    + intros g0 c0 rid0 H0 Hh. split_lookups.
      * simpl in Hh. simplify_eq. exists (nextRequestID (query s')). split; [lia|done].
      * destruct (Hheld _ _ _ H0 Hh) as (k & Hk & ->). exists k. split; [lia|done].
    + intros g1 g2 c1 c2 rid0 H1 H2 Hh1 Hh2. split_lookups; simpl in *; simplify_eq; eauto;
        match goal with
        | Hx : calls s !! _ = Some ?c, Hy : held ?c = Some (requestIDFor _) |- _ =>
            destruct (Hheld _ _ _ Hx Hy) as (k & Hk & Heq);
            apply (inj requestIDFor) in Heq; lia
        end.
    + intros rid0 ch0 H0. destruct (Hown _ _ H0) as (g0 & c0 & Hg0 & Hr0).
      exists g0, c0. split; [|done]. rewrite lookup_insert_ne; [done|].
      intros <-. eauto.
    + eauto.
    + intros g0 c0 rid0 ch0 H0 Hr0. split_lookups; simpl in *; simplify_eq; eauto.
    + intros g1 g2 c1 c2 r1 r2 ch0 H1 H2 Hr1 Hr2. split_lookups; simpl in *; simplify_eq; eauto.
  - (* a refused call *)
    assert (Hg : forall c rid, calls s !! g = Some c -> held c = Some rid -> False).
    { intros c rid Hg Hh. destruct Hfree as [Hf|[r' Hf]]; rewrite Hf in Hg; by simplify_eq. }
    assert (Hgr : forall c rid ch, calls s !! g = Some c -> registered c = Some (rid, ch)
                                   -> False).
    { intros c rid ch ? ?. eapply Hg; eauto using registered_held. }
    constructor; rewrite ?Hn, ?Hm, ?Hch, ?Hcalls.
    + lia.
    + intros g0 c0 rid0 H0 Hh. split_lookups; simpl in *; simplify_eq; eauto.
    + intros g1 g2 c1 c2 rid0 H1 H2 Hh1 Hh2. split_lookups; simpl in *; simplify_eq; eauto.
    + intros rid0 ch0 H0. destruct (Hown _ _ H0) as (g0 & c0 & Hg0 & Hr0).
      exists g0, c0. split; [|done]. rewrite lookup_insert_ne; [done|].
      intros <-. eauto.
    + eauto.
    + intros g0 c0 rid0 ch0 H0 Hr0. split_lookups; simpl in *; simplify_eq; eauto.
    + intros g1 g2 c1 c2 r1 r2 ch0 H1 H2 Hr1 Hr2. split_lookups; simpl in *; simplify_eq; eauto.
  - (* a registration *)
    assert (Hnew : chans (query s) !! fresh (dom (chans (query s))) = None).
    { apply not_elem_of_dom. apply is_fresh. }
    assert (Hother : forall g0 c0 r0 ch0, calls s !! g0 = Some c0 ->
                       registered c0 = Some (r0, ch0) ->
                       ch0 <> fresh (dom (chans (query s)))).
    { intros g0 c0 r0 ch0 H0 Hr0 Heq. destruct (Hchan _ _ _ _ H0 Hr0) as [x Hx].
      congruence. }
    constructor; rewrite ?Hn, ?Hm, ?Hch, ?Hcalls.
    + lia.
    + intros g0 c0 rid0 H0 Hh. split_lookups; simpl in *; simplify_eq; eauto.
    + intros g1 g2 c1 c2 rid0 H1 H2 Hh1 Hh2. split_lookups; simpl in *; simplify_eq; eauto.
    + intros rid0 ch0 H0. split_lookups.
      * eexists g, _. by rewrite lookup_insert_eq.
      * destruct (Hown _ _ H0) as (g0 & c0 & Hg0 & Hr0).
        exists g0, c0. split; [|done]. rewrite lookup_insert_ne; [done|].
        intros <-. rewrite Hg in Hg0. by simplify_eq.
    + intros rid0 ch0 H0. split_lookups.
      * by rewrite lookup_insert_eq.
      * rewrite lookup_insert_ne; [eauto|]. intros Heq.
        destruct (Hown _ _ H0) as (g0 & c0 & Hg0 & Hr0). by eapply Hother.
    + intros g0 c0 rid0 ch0 H0 Hr0. split_lookups; simpl in *; simplify_eq.
      * rewrite lookup_insert_eq. eauto.
      * rewrite lookup_insert_ne; [eauto|]. intros Heq. by eapply Hother.
    + intros g1 g2 c1 c2 r1 r2 ch0 H1 H2 Hr1 Hr2.
      split_lookups; simpl in *; simplify_eq; eauto; exfalso; by eapply Hother.
  - (* a successful write *)
    constructor; rewrite ?Hn, ?Hm, ?Hch, ?Hcalls.
    + lia.
    + intros g0 c0 rid0 H0 Hh. split_lookups; simpl in *; simplify_eq; eauto.
    + intros g1 g2 c1 c2 rid0 H1 H2 Hh1 Hh2. split_lookups; simpl in *; simplify_eq; eauto.
    + intros rid0 ch0 H0. destruct (Hown _ _ H0) as (g0 & c0 & Hg0 & Hr0).
      destruct (decide (g0 = g)) as [->|Hne].
      * rewrite Hg in Hg0. simplify_eq. simpl in Hr0. simplify_eq.
        exists g, (Waiting rid0 ch0). by rewrite lookup_insert_eq.
      * exists g0, c0. by rewrite lookup_insert_ne.
    + eauto.
    + intros g0 c0 rid0 ch0 H0 Hr0. split_lookups; simpl in *; simplify_eq; eauto.
    + intros g1 g2 c1 c2 r1 r2 ch0 H1 H2 Hr1 Hr2.
      split_lookups; simpl in *; simplify_eq; eauto.
  - (* an entry withdrawn by its call *)
    constructor; rewrite ?Hn, ?Hm, ?Hch, ?Hcalls.
    + lia.
    + intros g0 c0 rid0 H0 Hh. split_lookups; simpl in *; simplify_eq; eauto.
    + intros g1 g2 c1 c2 rid0 H1 H2 Hh1 Hh2. split_lookups; simpl in *; simplify_eq; eauto.
    + intros rid0 ch0 H0. split_lookups. destruct (Hown _ _ H0) as (g0 & c0 & Hg0 & Hr0).
      exists g0, c0. split; [|done]. rewrite lookup_insert_ne; [done|].
      intros <-. rewrite Hg in Hg0. simplify_eq.
    + intros rid0 ch0 H0. split_lookups. eauto.
    + intros g0 c0 rid0 ch0 H0 Hr0. split_lookups; simpl in *; simplify_eq; eauto.
    + intros g1 g2 c1 c2 r1 r2 ch0 H1 H2 Hr1 Hr2.
      split_lookups; simpl in *; simplify_eq; eauto.
  - (* a result received *)
    assert (Hgone : forall rid0, requestMap (query s) !! rid0 = Some ch -> False).
    { intros rid0 H0. apply Hempty in H0. congruence. }
    constructor; rewrite ?Hn, ?Hm, ?Hch, ?Hcalls.
    + lia.
    + intros g0 c0 rid0 H0 Hh. split_lookups; simpl in *; simplify_eq; eauto.
    + intros g1 g2 c1 c2 rid0 H1 H2 Hh1 Hh2. split_lookups; simpl in *; simplify_eq; eauto.
    + intros rid0 ch0 H0. destruct (Hown _ _ H0) as (g0 & c0 & Hg0 & Hr0).
      exists g0, c0. split; [|done]. rewrite lookup_insert_ne; [done|].
      intros <-. rewrite Hg in Hg0. simplify_eq. simpl in Hr0. simplify_eq. eauto.
    + intros rid0 ch0 H0. rewrite lookup_insert_ne; [eauto|]. intros <-. eauto.
    + intros g0 c0 rid0 ch0 H0 Hr0. split_lookups; simpl in *; simplify_eq.
      destruct (decide (ch = ch0)) as [->|Hne];
        [rewrite lookup_insert_eq|rewrite lookup_insert_ne by done]; eauto.
    + intros g1 g2 c1 c2 r1 r2 ch0 H1 H2 Hr1 Hr2.
      split_lookups; simpl in *; simplify_eq; eauto.
  - (* a response resolved by the router *)
    assert (Hsole : forall rid0 ch0, rid0 <> rid ->
              requestMap (query s) !! rid0 = Some ch0 -> ch0 <> ch).
    { intros rid0 ch0 Hne H0 ->.
      destruct (Hown _ _ H0) as (g0 & c0 & Hg0 & Hr0).
      destruct (Hown _ _ Hp) as (g1 & c1 & Hg1 & Hr1).
      assert (g0 = g1) by eauto. subst g1. rewrite Hg0 in Hg1. by simplify_eq. }
    constructor; rewrite ?Hn, ?Hm, ?Hcalls; eauto.
    + intros rid0 ch0 H0. split_lookups. eauto.
    + intros rid0 ch0 H0. split_lookups.
      destruct Hch as [->|[r ->]]; [eauto|].
      rewrite lookup_insert_ne; [eauto|]. intros <-. by eapply Hsole.
    + intros g0 c0 rid0 ch0 H0 Hr0. destruct Hch as [->|[r ->]]; [eauto|].
      destruct (decide (ch = ch0)) as [->|Hne];
        [rewrite lookup_insert_eq|rewrite lookup_insert_ne by done]; eauto.
Qed.

(** The counter after a step: it moves only when a call enters
    [sendControlRequest] in streaming mode. *)
Lemma step_counter (s s' : System) (ev : event) :
  step s ev = Some s' ->
  nextRequestID (query s')
  = match ev with
    | CallSend _ _ =>
        if isStreamingMode (query s) then wrap64 (nextRequestID (query s) + 1)
        else nextRequestID (query s)
    | _ => nextRequestID (query s)
    end.
Proof.
  intros Hstep.
  destruct ev as [g request|g|g io|g|g ctxErr|msg pickSend| | |n io|e]; simpl in Hstep.
  - destruct (sendControlRequest_begin (query s) request) as [q' c] eqn:Hb.
    assert (Hs' : s' = set_call s q' g c)
      by (destruct (calls s !! g) as [[]|]; by simplify_eq).
    subst s'. simpl. unfold sendControlRequest_begin, generateRequestID in Hb.
    destruct (isStreamingMode (query s)); simpl in Hb; by simplify_eq.
  - destruct (calls s !! g) as [[]|]; simplify_eq. reflexivity.
  - destruct (calls s !! g) as [[|rid ch req| |]|]; simplify_eq.
    unfold sendControlRequest_write in Hstep.
    repeat case_match; by simplify_eq.
  - destruct (calls s !! g) as [[| |rid ch|]|]; simplify_eq.
    unfold sendControlRequest_receive in Hstep.
    repeat (case_match; simplify_option_eq); reflexivity.
  - destruct (calls s !! g) as [[| |rid ch|]|]; simplify_eq. reflexivity.
  - destruct (loop s); try discriminate.
    unfold routeMessage in Hstep.
    destruct (String.eqb (GetMessageType msg) "control_response").
    { destruct msg as [m|m|m|m|m]; simplify_eq; try done.
      destruct (handleControlResponse pickSend (query s) m) as [[q' e]|] eqn:Hh;
        simplify_eq.
      by apply handleControlResponse_effect in Hh
        as [->|(rid & ch & Hp & [->|[r ->]])]. }
    destruct (String.eqb (GetMessageType msg) "control_request").
    { destruct msg as [m|m|m|m|m]; by simplify_eq. }
    repeat case_match; by simplify_eq.
  - destruct (loop s); by simplify_eq.
  - destruct (messagesChan (query s)); [discriminate|].
    destruct (loop s); by simplify_eq.
  - destruct (spawned s !! n) as [sysMsg|]; [|discriminate]. simpl in Hstep.
    destruct (handleControlRequest marshal decodePermissionUpdate (query s) sysMsg io)
      as [q'|] eqn:Hh; [|discriminate].
    apply handleControlRequest_transport in Hh as [t ->].
    simpl in Hstep. by simplify_eq.
  - destruct (ctx (query s)); [by simplify_eq|].
    destruct (loop s); by simplify_eq.
Qed.

(** The call record left by a step into [sendControlRequest]. *)
Lemma step_CallSend (s s' : System) (g : nat) (request : gomap) :
  step s (CallSend g request) = Some s' ->
  calls s' !! g
  = Some (if isStreamingMode (query s)
          then Generated (requestIDFor (wrap64 (nextRequestID (query s) + 1))) request
          else Finished
                 (inr (NewControlProtocolError "control requests require streaming mode"))).
Proof.
  simpl. intros Hstep.
  destruct (sendControlRequest_begin (query s) request) as [q' c] eqn:Hb.
  assert (Hs' : s' = set_call s q' g c)
    by (destruct (calls s !! g) as [[]|]; by simplify_eq).
  subst s'. simpl. rewrite lookup_insert_eq.
  unfold sendControlRequest_begin, generateRequestID in Hb.
  destruct (isStreamingMode (query s)); simpl in Hb; by simplify_eq.
Qed.

(** What one step contributes to the list of generated identifiers. *)
Lemma generatedIDs_cons (s s' : System) (ev : event) (rest : list event) :
  step s ev = Some s' ->
  generatedIDs s (ev :: rest)
  = match ev with
    | CallSend _ _ =>
        if isStreamingMode (query s)
        then requestIDFor (wrap64 (nextRequestID (query s) + 1)) :: generatedIDs s' rest
        else generatedIDs s' rest
    | _ => generatedIDs s' rest
    end.
Proof.
  intros Hstep.
  change (generatedIDs s (ev :: rest))
    with (match step s ev with
          | None => []
          | Some s' =>
              match ev, calls s' with
              | CallSend g _, cs =>
                  match cs !! g with
                  | Some (Generated requestID _) => requestID :: generatedIDs s' rest
                  | _ => generatedIDs s' rest
                  end
              | _, _ => generatedIDs s' rest
              end
          end).
  rewrite Hstep. destruct ev as [g request| | | | | | | | |]; try reflexivity.
  rewrite (step_CallSend _ _ _ _ Hstep).
  by destruct (isStreamingMode (query s)).
Qed.

Lemma Inv_started (t : Transport.SubprocessCLITransport)
  (callback : option CanUseToolFunc) (streaming : bool) :
  Inv (started t callback streaming).
Proof. split; simpl; intros; simplify_map_eq; lia. Qed.

(** Along a run the invariant is kept, the counter counts the identifiers
    handed out, and these are the consecutive ones. *)
Lemma run_Inv (evs : list event) :
  forall s s' : System,
    run s evs = Some s' -> Inv s ->
    nextRequestID (query s) + Z.of_nat (length evs) < 2 ^ 63 ->
    Inv s'
    /\ nextRequestID (query s) <= nextRequestID (query s')
       <= nextRequestID (query s) + Z.of_nat (length evs)
    /\ generatedIDs s evs
       = requestIDFor <$> seqZ (nextRequestID (query s) + 1)
                               (nextRequestID (query s') - nextRequestID (query s)).
Proof.
  induction evs as [|ev evs IH]; intros s s' Hrun HI Hbound.
  - simpl in Hrun. simplify_eq. rewrite Z.sub_diag. simpl. split_and!; [done|lia..|done].
  - simpl in Hrun. destruct (step s ev) as [s1|] eqn:Hstep; [|discriminate].
    simpl in Hrun. rewrite length_cons in Hbound |- *.
    pose proof (inv_counter _ HI) as H0.
    assert (HI1 : Inv s1).
    { eapply effect_Inv; [by eapply step_effect| lia | done]. }
    pose proof (step_counter _ _ _ Hstep) as Hn.
    rewrite (generatedIDs_cons _ _ _ _ Hstep).
    assert (Hw : wrap64 (nextRequestID (query s) + 1) = nextRequestID (query s) + 1)
      by (apply wrap64_small; lia).
    rewrite Hw in *.
    assert (Hcases :
      nextRequestID (query s1) = nextRequestID (query s)
      /\ match ev with
         | CallSend _ _ =>
             if isStreamingMode (query s)
             then requestIDFor (nextRequestID (query s) + 1) :: generatedIDs s1 evs
             else generatedIDs s1 evs
         | _ => generatedIDs s1 evs
         end = generatedIDs s1 evs
      \/ nextRequestID (query s1) = nextRequestID (query s) + 1
      /\ match ev with
         | CallSend _ _ =>
             if isStreamingMode (query s)
             then requestIDFor (nextRequestID (query s) + 1) :: generatedIDs s1 evs
             else generatedIDs s1 evs
         | _ => generatedIDs s1 evs
         end = requestIDFor (nextRequestID (query s) + 1) :: generatedIDs s1 evs).
    { destruct ev; auto. destruct (isStreamingMode (query s)); auto. }
    destruct (IH s1 s' Hrun HI1) as (HI' & Hle & Hgen); [lia|].
    destruct Hcases as [[Heq ->]|[Heq ->]].
    + rewrite Hgen, Heq. split_and!; [done|lia..|done].
    + rewrite Hgen, Heq. split_and!; [done|lia..|].
      rewrite (seqZ_cons (nextRequestID (query s) + 1)) by lia.
      rewrite fmap_cons. do 3 f_equal; lia.
Qed.

(** C3: along every run of a started engine (shorter than [2 ^ 63] steps,
    so that the 64-bit counter has not wrapped), the identifiers generated by
    the calls of [sendControlRequest] are [req_1], [req_2], ... in this order,
    without repetition; no two calls in progress hold the same identifier, and
    every entry of the pending table belongs to a call in progress and maps
    its identifier to an empty channel.  A call that has its identifier
    finds no entry under it and registers a new, empty channel under it;
    a waiting call whose context is cancelled removes its entry and returns
    the context's error. *)
Theorem C3_request_ids_unique (t : Transport.SubprocessCLITransport)
  (callback : option CanUseToolFunc) (streaming : bool) (evs : list event) (s : System) :
  run (started t callback streaming) evs = Some s ->
  Z.of_nat (length evs) < 2 ^ 63 ->
  (generatedIDs (started t callback streaming) evs
   = requestIDFor <$> seqZ 1 (nextRequestID (query s))
   /\ NoDup (generatedIDs (started t callback streaming) evs))
  /\ (forall g1 g2 c1 c2 requestID,
        calls s !! g1 = Some c1 -> calls s !! g2 = Some c2 ->
        held c1 = Some requestID -> held c2 = Some requestID -> g1 = g2)
  /\ (forall requestID responseChan,
        requestMap (query s) !! requestID = Some responseChan ->
        chans (query s) !! responseChan = Some []
        /\ exists g c, calls s !! g = Some c
                       /\ registered c = Some (requestID, responseChan))
  /\ (forall g requestID request,
        calls s !! g = Some (Generated requestID request) ->
        requestMap (query s) !! requestID = None
        /\ exists s' responseChan,
             step s (CallRegister g) = Some s'
             /\ chans (query s) !! responseChan = None
             /\ chans (query s') = <[responseChan := []]> (chans (query s))
             /\ requestMap (query s') = <[requestID := responseChan]> (requestMap (query s))
             /\ calls s' !! g = Some (Registered requestID responseChan request))
  /\ (forall g requestID responseChan ctxErr,
        calls s !! g = Some (Waiting requestID responseChan) ->
        exists s',
          step s (CallCancel g ctxErr) = Some s'
          /\ calls s' !! g = Some (Finished (inr ctxErr))
          /\ requestMap (query s') = delete requestID (requestMap (query s))).
Proof.
  intros Hrun Hlen.
  destruct (run_Inv evs _ _ Hrun (Inv_started t callback streaming))
    as (HI & _ & Hgen); [simpl; lia|].
  simpl in Hgen. rewrite Z.sub_0_r in Hgen.
  destruct HI as [Hc Hheld Huniq Hown Hempty Hchan Hcu].
  split_and!.
  - exact Hgen.
  - rewrite Hgen. apply (NoDup_fmap_2 _), NoDup_seqZ.
  - exact Huniq.
  - intros requestID responseChan Hp. split; [by eapply Hempty | by apply Hown].
  - intros g requestID request Hg. split.
    + destruct (requestMap (query s) !! requestID) as [responseChan|] eqn:Hp; [|done].
      destruct (Hown _ _ Hp) as (g' & c' & Hg' & Hr).
      assert (g = g') by (eapply Huniq; eauto using registered_held). subst g'.
      rewrite Hg in Hg'. by simplify_eq.
    + simpl. rewrite Hg. simpl. eexists _, (fresh (dom (chans (query s)))).
      split_and!; [reflexivity| |reflexivity..|].
      * apply not_elem_of_dom, is_fresh.
      * simpl. apply lookup_insert_eq.
  - intros g requestID responseChan ctxErr Hg. simpl. rewrite Hg. simpl.
    eexists. split_and!; [reflexivity| |reflexivity].
    simpl. apply lookup_insert_eq.
Qed.

End EngineFacts.

Section EngineExamples.

Import Router Examples.

Lemma C3_request_ids_unique_witness :
  exists s : System,
    Router.run exampleMarshal exampleDecodeUpdate engine twoCalls = Some s
    /\ Router.generatedIDs exampleMarshal exampleDecodeUpdate engine twoCalls
       = requestIDFor <$> seqZ 1 (nextRequestID (query s))
    /\ NoDup (Router.generatedIDs exampleMarshal exampleDecodeUpdate engine twoCalls).
Proof.
  destruct (Router.run exampleMarshal exampleDecodeUpdate engine twoCalls) as [s|] eqn:Hrun;
    [|by vm_compute in Hrun].
  exists s. split; [reflexivity|].
  apply (C3_request_ids_unique exampleMarshal exampleDecodeUpdate
           Transport.connected (Some allowAll) true twoCalls s Hrun).
  vm_compute. reflexivity.
Defined.

Lemma C4_consumer_stream_witness :
  exists s : System,
    Router.run exampleMarshal exampleDecodeUpdate engine mixedTraffic = Some s
    /\ Forall (fun msg => isControl msg = false) (delivered s)
    /\ delivered s `sublist_of` regular (messagesRead mixedTraffic)
    /\ delivered s ++ inflight (loop s) = [helloUser; lateUser].
Proof.
  eexists. split; [vm_compute; reflexivity|].
  match goal with
  | |- context [delivered ?s] =>
      destruct (C4_consumer_stream exampleMarshal exampleDecodeUpdate
                  Transport.connected (Some allowAll) true mixedTraffic s)
        as (Hfiltered & Hordered & Hall); [vm_compute; reflexivity|]
  end.
  split_and!; [exact Hfiltered | exact Hordered | ].
  rewrite Hall; reflexivity.
Defined.

(** With a full channel and a cancelled context, a conversational message
    that was read is neither delivered nor held by the loop. *)
Lemma C4_message_dropped_on_cancel :
  exists s : System,
    Router.run exampleMarshal exampleDecodeUpdate engine fullThenCancelled = Some s
    /\ regular (messagesRead fullThenCancelled) = replicate 100 helloUser ++ [lateUser]
    /\ delivered s ++ inflight (loop s) = replicate 100 helloUser
    /\ ctx (query s) = Some Canceled.
Proof.
  eexists. split; [vm_compute; reflexivity|].
  split_and!; vm_compute; reflexivity.
Qed.



End EngineExamples.

(** ** The client's lifecycle *)

Section SessionFacts.

Import Session.

(** [Connect] leaves the context and the cancel function as they are. *)
Lemma Connect_frame (c : Client) (env : ConnectEnv) :
  cancel (fst (Connect c env)) = cancel c /\ ctx (fst (Connect c env)) = ctx c.
Proof. unfold Connect. repeat case_match; simpl; done. Qed.

Lemma step_cancelled_once_closed (c : Client) (ev : event) :
  cancelled_once_closed c -> cancelled_once_closed (step c ev).
Proof.
  unfold cancelled_once_closed. intros HI.
  destruct ev as [env|env|prompt io|content me io|e]; simpl; try done.
  - by destruct (Connect_frame c env) as [-> ->].
  - unfold Close. destruct (connected c); simpl; [|done].
    destruct (cancel c); [destruct (ctx c); eauto|by auto].
  - destruct (ctx c) eqn:Hctx; [by rewrite Hctx|eauto].
Qed.

Lemma run_cancelled_once_closed (evs : list event) (c : Client) :
  cancelled_once_closed c -> cancelled_once_closed (run c evs).
Proof.
  revert c. induction evs as [|ev evs IH]; intros c HI; [done|].
  apply (IH (step c ev)). by apply step_cancelled_once_closed.
Qed.

Lemma Connect_closed (c : Client) (env : ConnectEnv) :
  closed c ->
  Connect c env
  = (c, match transportConnect env with
        | Some e => Some (NewCLIConnectionErrorWithCause "failed to connect to Claude CLI" e)
        | None => callerCtx env
        end).
Proof.
  intros [Hconn [e He]]. unfold Connect. rewrite Hconn, He.
  by destruct (transportConnect env).
Qed.

Lemma Close_disconnected (c : Client) (env : CloseEnv) :
  connected c = false -> Close c env = (c, None).
Proof. intros Hconn. unfold Close. by rewrite Hconn. Qed.

Lemma step_closed (c : Client) (ev : event) : closed c -> closed (step c ev).
Proof.
  intros Hc. destruct ev as [env|env|prompt io|content me io|e]; simpl; try done.
  - by rewrite Connect_closed.
  - rewrite Close_disconnected; [done|apply Hc].
  - destruct Hc as [Hconn [e' He]]. by rewrite He.
Qed.

Lemma run_closed (evs : list event) (c : Client) : closed c -> closed (run c evs).
Proof.
  revert c. induction evs as [|ev evs IH]; intros c Hc; [done|].
  apply (IH (step c ev)). by apply step_closed.
Qed.

Lemma Close_closed (c : Client) (env : CloseEnv) :
  cancelled_once_closed c -> connected c = true -> closed (fst (Close c env)).
Proof.
  intros HI Hconn. unfold Close. rewrite Hconn. simpl. split; [done|].
  destruct (cancel c) eqn:Hcancel; [destruct (ctx c); eauto|by apply HI].
Qed.

(** A new client that connects without errors is connected. *)
Lemma Connect_NewClient (env : ConnectEnv) :
  transportConnect env = None -> transportGetError env = None ->
  queryStart env = None -> queryInitialize env = None ->
  Connect NewClient env = (mkClient true None true true, None).
Proof. intros H1 H2 H3 H4. unfold Connect. simpl. by rewrite H1, H2, H3, H4. Qed.

(** X26: in every state a client reaches from [NewClient], [Query] and
    [QueryWithContent] return the connection error "not connected" unless the
    client is connected; [Connect] on a connected client returns the
    control-protocol error "client already connected" and changes nothing;
    [Close] on a connected client leaves it closed, and from then on nothing
    connects it again: [Connect] leaves the client as it is and returns the
    transport's connection error or else the error of the caller's context,
    and [Close] returns no error and changes nothing. *)
Theorem client_lifecycle (evs : list event) :
  (forall prompt io content marshalError,
      connected (run NewClient evs) = false ->
      Query (run NewClient evs) prompt io
      = Some (NewCLIConnectionError "not connected - call Connect() first")
      /\ QueryWithContent (run NewClient evs) content marshalError io
         = Some (NewCLIConnectionError "not connected - call Connect() first")
      /\ IsCLIConnectionError
           (NewCLIConnectionError "not connected - call Connect() first") = true)
  /\ (forall env,
        connected (run NewClient evs) = true ->
        Connect (run NewClient evs) env
        = (run NewClient evs, Some (NewControlProtocolError "client already connected"))
        /\ IsControlProtocolError (NewControlProtocolError "client already connected") = true
        /\ IsCLIConnectionError (NewControlProtocolError "client already connected") = false)
  /\ (forall env later,
        connected (run NewClient evs) = true ->
        connected (fst (Close (run NewClient evs) env)) = false
        /\ connected (run (fst (Close (run NewClient evs) env)) later) = false
        /\ (forall cenv,
              Connect (run (fst (Close (run NewClient evs) env)) later) cenv
              = (run (fst (Close (run NewClient evs) env)) later,
                 match transportConnect cenv with
                 | Some e =>
                     Some (NewCLIConnectionErrorWithCause "failed to connect to Claude CLI" e)
                 | None => callerCtx cenv
                 end))
        /\ (forall env',
              Close (run (fst (Close (run NewClient evs) env)) later) env'
              = (run (fst (Close (run NewClient evs) env)) later, None))).
Proof.
  assert (HI : cancelled_once_closed (run NewClient evs)).
  { apply run_cancelled_once_closed. unfold cancelled_once_closed. simpl. done. }
  split_and!.
  - intros prompt io content marshalError Hconn.
    unfold Query, QueryWithContent. rewrite Hconn. simpl. done.
  - intros env Hconn. unfold Connect. rewrite Hconn. done.
  - intros env later Hconn.
    pose proof (Close_closed _ env HI Hconn) as Hclosed.
    pose proof (run_closed later _ Hclosed) as Hlater.
    split_and!.
    + apply Hclosed.
    + apply Hlater.
    + intros cenv. by apply Connect_closed.
    + intros env'. apply Close_disconnected, Hlater.
Qed.

(** C5: [Connect] after [Close] reports success.  A new client connects
    and is closed; [Connect] is then called with a live context, on a
    transport whose [Connect] returns nil.  The call takes the case of the
    client's cancelled context and returns the error of the caller's context,
    which is nil, although the client is not connected: [Query] still fails
    with the connection error "not connected". *)
Theorem C5_connect_after_close_returns_nil :
  closed Examples.closedClient
  /\ Connect Examples.closedClient Examples.okConnect = (Examples.closedClient, None)
  /\ connected (fst (Connect Examples.closedClient Examples.okConnect)) = false
  /\ Query (fst (Connect Examples.closedClient Examples.okConnect)) "hello" None
     = Some (NewCLIConnectionError "not connected - call Connect() first").
Proof.
  split_and!; [split; [reflexivity|by eexists]|reflexivity..].
Qed.

End SessionFacts.


(** ** Byte strings as lists of bytes *)

Section StringFacts.

Lemma append_assoc (a b c : string) : (a +:+ b) +:+ c = a +:+ b +:+ c.
Proof.
  induction a as [|x a IH]; [done|].
  change (String x ((a +:+ b) +:+ c) = String x (a +:+ b +:+ c)). by rewrite IH.
Qed.

Lemma append_nil_r (a : string) : a +:+ "" = a.
Proof.
  induction a as [|x a IH]; [done|]. change (String x (a +:+ "") = String x a). by rewrite IH.
Qed.

Lemma append_cons (x : ascii) (a b : string) : String x a +:+ b = String x (a +:+ b).
Proof. done. Qed.

Lemma length_append (a b : string) :
  String.length (a +:+ b) = (String.length a + String.length b)%nat.
Proof.
  induction a as [|x a IH]; [done|]. rewrite append_cons. simpl. by rewrite IH.
Qed.

Lemma bytes_append (a b : string) :
  list_ascii_of_string (a +:+ b) = list_ascii_of_string a ++ list_ascii_of_string b.
Proof.
  induction a as [|x a IH]; [done|]. rewrite append_cons. simpl. by rewrite IH.
Qed.

Lemma bytes_length (s : string) : length (list_ascii_of_string s) = String.length s.
Proof. induction s as [|x s IH]; [done|]. simpl. by rewrite IH. Qed.

Lemma bytes_inj (a b : string) : list_ascii_of_string a = list_ascii_of_string b -> a = b.
Proof.
  intros H. rewrite <- (string_of_list_ascii_of_string a), <- (string_of_list_ascii_of_string b).
  by rewrite H.
Qed.

Lemma bytes_substring (n m : nat) (s : string) :
  list_ascii_of_string (String.substring n m s) = take m (drop n (list_ascii_of_string s)).
Proof.
  revert n m. induction s as [|x s IH]; intros [|n] [|m]; simpl; rewrite ?IH; done.
Qed.

Lemma bytes_get (n : nat) (s : string) : String.get n s = list_ascii_of_string s !! n.
Proof. revert n. induction s as [|x s IH]; intros [|n]; simpl; try done. Qed.

Lemma bytes_slice (s : string) (lo hi : Z) :
  list_ascii_of_string (slice s lo hi)
  = take (Z.to_nat (hi - lo)) (drop (Z.to_nat lo) (list_ascii_of_string s)).
Proof. apply bytes_substring. Qed.

Lemma len_bytes (s : string) : len s = Z.of_nat (length (list_ascii_of_string s)).
Proof. unfold len. by rewrite bytes_length. Qed.

Lemma len_append (a b : string) : len (a +:+ b) = len a + len b.
Proof. unfold len. rewrite length_append. lia. Qed.

Lemma len_nonneg (s : string) : 0 <= len s.
Proof. unfold len. lia. Qed.

End StringFacts.


(** ** The CLI version check *)

Section VersionFacts.

Import Version.

(** [IsAtLeast] compares lexicographically. *)
Lemma IsAtLeast_spec (v required : SemanticVersion) :
  IsAtLeast v required = true
  <-> Major required < Major v
      \/ (Major v = Major required
          /\ (Minor required < Minor v
              \/ (Minor v = Minor required /\ Patch required <= Patch v))).
Proof.
  unfold IsAtLeast.
  repeat (case_match; try (rewrite Z.ltb_lt in * || rewrite Z.ltb_ge in * ));
    rewrite ?Z.leb_le; split; intros; try done; lia.
Qed.

(** X2: [IsAtLeast] is a total order on versions: reflexive, transitive,
    antisymmetric, and any two versions are comparable. *)
Theorem IsAtLeast_total_order :
  (forall v, IsAtLeast v v = true)
  /\ (forall a b c, IsAtLeast a b = true -> IsAtLeast b c = true -> IsAtLeast a c = true)
  /\ (forall a b, IsAtLeast a b = true -> IsAtLeast b a = true -> a = b)
  /\ (forall a b, IsAtLeast a b = true \/ IsAtLeast b a = true).
Proof.
  split_and!.
  - intros v. apply IsAtLeast_spec. lia.
  - intros a b c Hab Hbc. apply IsAtLeast_spec in Hab, Hbc. apply IsAtLeast_spec. lia.
  - intros [a1 a2 a3] [b1 b2 b3] Hab Hba. apply IsAtLeast_spec in Hab, Hba.
    simpl in *. f_equal; lia.
  - intros a b. rewrite !IsAtLeast_spec. lia.
Qed.

(** *** Digits *)

Lemma digitsPrefix_spec (s : string) :
  s = fst (digitsPrefix s) +:+ snd (digitsPrefix s)
  /\ allDigits (fst (digitsPrefix s)) = true
  /\ startsWithDigit (snd (digitsPrefix s)) = false.
Proof.
  induction s as [|c s IH]; [done|]. simpl.
  destruct (isDigit c) eqn:Hc; simpl; [|by rewrite Hc].
  destruct (digitsPrefix s) as [d r]. simpl in *. rewrite Hc.
  destruct IH as (Hs & Hd & Hr). split_and!; [|done..].
  change (String c s = String c (d +:+ r)). by f_equal.
Qed.

Lemma digitsPrefix_app (digits rest : string) :
  allDigits digits = true -> startsWithDigit rest = false ->
  digitsPrefix (digits +:+ rest) = (digits, rest).
Proof.
  intros Hd Hr. induction digits as [|c d IH].
  - change ("" +:+ rest) with rest. destruct rest as [|c r]; [done|].
    simpl in *. by rewrite Hr.
  - change (String c d +:+ rest) with (String c (d +:+ rest)). simpl in *.
    apply andb_true_iff in Hd as [Hc Hd]. by rewrite Hc, IH.
Qed.

Lemma pretty_N_char_digit (n : N) :
  (n < 10)%N ->
  isDigit (pretty_N_char n) = true
  /\ Z.of_nat (nat_of_ascii (pretty_N_char n)) - 48 = Z.of_N n.
Proof.
  intros Hn.
  assert (Hcases : n ∈ [0; 1; 2; 3; 4; 5; 6; 7; 8; 9]%N).
  { rewrite !elem_of_cons. lia. }
  rewrite !elem_of_cons, elem_of_nil in Hcases.
  repeat (destruct Hcases as [->|Hcases]; [by vm_compute|]). done.
Qed.

Lemma digitsValue_pretty_N_go (x : N) :
  forall s,
    digitsValue (pretty_N_go x s) 0 = digitsValue s (Z.of_N x)
    /\ allDigits (pretty_N_go x s) = allDigits s.
Proof.
  induction (N.lt_wf_0 x) as [x _ IH]. intros s.
  destruct (decide (0 < x)%N) as [Hx|Hx].
  - rewrite pretty_N_go_step by done.
    destruct (IH (x `div` 10)%N) with (s := String (pretty_N_char (x `mod` 10)) s)
      as [Hv Hd]; [by apply N.div_lt|].
    destruct (pretty_N_char_digit (x `mod` 10)) as [Hc Hval]; [by apply N.mod_lt|].
    rewrite Hv, Hd. simpl. rewrite Hc, Hval. split; [|done].
    f_equal. rewrite (N.div_mod x 10) at 3 by done. lia.
  - assert (x = 0%N) as -> by lia. by rewrite pretty_N_go_0.
Qed.

(** The decimal rendering of a natural number is a non-empty string of
    digits with that value. *)
Lemma pretty_digits (z : Z) :
  0 <= z ->
  digitsValue (pretty z) 0 = Some z
  /\ allDigits (pretty z) = true
  /\ pretty z <> "".
Proof.
  intros Hz. destruct z as [|p|p]; [done| |lia].
  change (pretty (Z.pos p)) with (pretty_N_go (N.pos p) "").
  destruct (digitsValue_pretty_N_go (N.pos p) "") as [Hv Hd].
  rewrite Hv, Hd. split_and!; [done..|].
  intros Hempty. rewrite pretty_N_go_step in Hempty by done.
  assert (Hlen : forall x s, (String.length s <= String.length (pretty_N_go x s))%nat).
  { clear. intros x. induction (N.lt_wf_0 x) as [x _ IH]. intros s.
    destruct (decide (0 < x)%N) as [Hx|Hx].
    - rewrite pretty_N_go_step by done. etrans; [|apply IH; by apply N.div_lt]. simpl. lia.
    - assert (x = 0%N) as -> by lia. by rewrite pretty_N_go_0. }
  specialize (Hlen (N.pos p `div` 10)%N (String (pretty_N_char (N.pos p `mod` 10)) "")).
  rewrite Hempty in Hlen. simpl in Hlen. lia.
Qed.

Lemma digitsValue_nonneg (s : string) :
  forall acc z, 0 <= acc -> digitsValue s acc = Some z -> 0 <= z.
Proof.
  induction s as [|c s IH]; intros acc z Hacc H; simpl in H; [by simplify_eq|].
  destruct (isDigit c) eqn:Hc; [|done]. eapply IH; [|done].
  unfold isDigit in Hc. apply andb_true_iff in Hc as [Hlo _]. apply Z.leb_le in Hlo. lia.
Qed.

Lemma Atoi_range (digits : string) (z : Z) :
  Atoi digits = Some z -> digitsValue digits 0 = Some z /\ 0 <= z < 2 ^ 63.
Proof.
  unfold Atoi. intros H. destruct (digitsValue digits 0) as [z'|] eqn:Hv; [|done].
  simpl in H. destruct (z' <? 2 ^ 63) eqn:Hlt; simplify_eq.
  apply Z.ltb_lt in Hlt. split; [done|]. split; [|done]. by eapply digitsValue_nonneg.
Qed.

Lemma Atoi_pretty (z : Z) : 0 <= z < 2 ^ 63 -> Atoi (pretty z) = Some z.
Proof.
  intros Hz. unfold Atoi. destruct (pretty_digits z) as (-> & _); [lia|]. simpl.
  destruct (z <? 2 ^ 63) eqn:Hlt; [done|]. apply Z.ltb_ge in Hlt. lia.
Qed.

Lemma eqb_empty_false (s : string) : s <> "" -> String.eqb s "" = false.
Proof. intros Hs. by apply String.eqb_neq. Qed.

(** The three groups of a string that starts with three runs of digits
    separated by dots. *)
Lemma versionSubmatch_app (major minor patch rest : string) :
  allDigits major = true -> major <> "" ->
  allDigits minor = true -> minor <> "" ->
  allDigits patch = true -> patch <> "" ->
  startsWithDigit rest = false ->
  versionSubmatch (major +:+ "." +:+ minor +:+ "." +:+ patch +:+ rest)
  = Some (major, minor, patch).
Proof.
  intros HM HM0 Hm Hm0 Hp Hp0 Hr. unfold versionSubmatch.
  rewrite digitsPrefix_app by done. rewrite eqb_empty_false by done.
  change ("." +:+ minor +:+ "." +:+ patch +:+ rest)
    with (String "." (minor +:+ "." +:+ patch +:+ rest)).
  cbv beta iota.
  rewrite digitsPrefix_app by done. rewrite eqb_empty_false by done.
  change ("." +:+ patch +:+ rest) with (String "." (patch +:+ rest)).
  cbv beta iota.
  rewrite digitsPrefix_app by done. by rewrite eqb_empty_false.
Qed.

Lemma versionSubmatch_sound (s major minor patch : string) :
  versionSubmatch s = Some (major, minor, patch) ->
  exists rest,
    s = major +:+ "." +:+ minor +:+ "." +:+ patch +:+ rest
    /\ allDigits major = true /\ major <> ""
    /\ allDigits minor = true /\ minor <> ""
    /\ allDigits patch = true /\ patch <> ""
    /\ startsWithDigit rest = false.
Proof.
  unfold versionSubmatch. intros H.
  destruct (digitsPrefix_spec s) as (Hs & HdM & _).
  destruct (digitsPrefix s) as [M r1]. simpl in *.
  destruct (String.eqb M "") eqn:HM0; [done|]. apply String.eqb_neq in HM0.
  destruct r1 as [|c r1]; [done|].
  destruct (decide (c = "."%char)) as [->|Hc];
    [|by repeat (case_match; try done)].
  destruct (digitsPrefix_spec r1) as (Hs1 & Hdm & _).
  destruct (digitsPrefix r1) as [m r2]. simpl in *.
  destruct (String.eqb m "") eqn:Hm0; [done|]. apply String.eqb_neq in Hm0.
  destruct r2 as [|c r2]; [done|].
  destruct (decide (c = "."%char)) as [->|Hc];
    [|by repeat (case_match; try done)].
  destruct (digitsPrefix_spec r2) as (Hs2 & Hdp & Hrest).
  destruct (digitsPrefix r2) as [p r3]. simpl in *.
  destruct (String.eqb p "") eqn:Hp0; [done|]. apply String.eqb_neq in Hp0.
  simplify_eq. exists r3. split_and!; done.
Qed.

Section Parsing.

Variable TrimSpace : string -> string.

Lemma TrimPrefix_v (s : string) :
  TrimPrefix ("v" +:+ s) "v" = s.
Proof.
  unfold TrimPrefix. change ("v" +:+ s) with (String "v" s).
  change (String.prefix "v" (String "v" s)) with (String.prefix "" s).
  assert (String.prefix "" s = true) as -> by by destruct s.
  simpl. rewrite Nat.sub_0_r.
  clear. induction s as [|c s IH]; [done|]. simpl. by rewrite IH.
Qed.

Lemma TrimPrefix_digit (s : string) :
  startsWithDigit s = true -> TrimPrefix s "v" = s.
Proof.
  unfold TrimPrefix. destruct s as [|c s]; [done|]. intros Hc.
  destruct (String.prefix "v" (String c s)) eqn:E; [|done].
  apply String.prefix_correct in E. simpl in E.
  destruct s; simplify_eq; by vm_compute in Hc.
Qed.

Lemma startsWithDigit_app (digits rest : string) :
  allDigits digits = true -> digits <> "" -> startsWithDigit (digits +:+ rest) = true.
Proof.
  destruct digits as [|c d]; [done|]. simpl. intros H _.
  by apply andb_true_iff in H as [-> _].
Qed.

(** X3: parsing the rendering of a version gives the version back, with
    or without a leading "v" and whatever follows the patch number, as long
    as this does not start with a digit. *)
Theorem ParseSemanticVersion_String (v : SemanticVersion) (input suffix : string) :
  0 <= Major v < 2 ^ 63 -> 0 <= Minor v < 2 ^ 63 -> 0 <= Patch v < 2 ^ 63 ->
  startsWithDigit suffix = false ->
  TrimSpace input = SemanticVersion_String v +:+ suffix
  \/ TrimSpace input = "v" +:+ SemanticVersion_String v +:+ suffix ->
  ParseSemanticVersion TrimSpace input = inl v.
Proof.
  intros HM Hm Hp Hsuffix Hclean.
  destruct (pretty_digits (Major v)) as (_ & HdM & HM0); [lia|].
  destruct (pretty_digits (Minor v)) as (_ & Hdm & Hm0); [lia|].
  destruct (pretty_digits (Patch v)) as (_ & Hdp & Hp0); [lia|].
  assert (Happ : SemanticVersion_String v +:+ suffix
                 = pretty (Major v) +:+ "." +:+ pretty (Minor v) +:+ "."
                   +:+ pretty (Patch v) +:+ suffix).
  { unfold SemanticVersion_String. by rewrite !append_assoc. }
  assert (Hcleaned : TrimPrefix (TrimSpace input) "v" = SemanticVersion_String v +:+ suffix).
  { destruct Hclean as [->| ->]; [|apply TrimPrefix_v].
    apply TrimPrefix_digit. rewrite Happ. by apply startsWithDigit_app. }
  unfold ParseSemanticVersion. rewrite Hcleaned, Happ.
  rewrite versionSubmatch_app by done.
  rewrite !Atoi_pretty by done. by destruct v.
Qed.

(** X4: a version that parses comes from three non-empty runs of digits,
    separated by dots, at the start of the cleaned string; its components
    are the values of the runs and lie in [0, 2^63). *)
Theorem ParseSemanticVersion_sound (input : string) (v : SemanticVersion) :
  ParseSemanticVersion TrimSpace input = inl v ->
  exists major minor patch rest,
    TrimPrefix (TrimSpace input) "v"
    = major +:+ "." +:+ minor +:+ "." +:+ patch +:+ rest
    /\ (allDigits major = true /\ major <> "" /\ digitsValue major 0 = Some (Major v))
    /\ (allDigits minor = true /\ minor <> "" /\ digitsValue minor 0 = Some (Minor v))
    /\ (allDigits patch = true /\ patch <> "" /\ digitsValue patch 0 = Some (Patch v))
    /\ startsWithDigit rest = false
    /\ 0 <= Major v < 2 ^ 63 /\ 0 <= Minor v < 2 ^ 63 /\ 0 <= Patch v < 2 ^ 63.
Proof.
  unfold ParseSemanticVersion. intros H.
  destruct (versionSubmatch (TrimPrefix (TrimSpace input) "v"))
    as [[[major minor] patch]|] eqn:Hmatch; [|done].
  destruct (Atoi major) as [M|] eqn:HM; [|done].
  destruct (Atoi minor) as [m|] eqn:Hm; [|done].
  destruct (Atoi patch) as [p|] eqn:Hp; [|done].
  simplify_eq. simpl.
  apply versionSubmatch_sound in Hmatch
    as (rest & Hs & HdM & HM0 & Hdm & Hm0 & Hdp & Hp0 & Hrest).
  apply Atoi_range in HM as [HvM HrM], Hm as [Hvm Hrm], Hp as [Hvp Hrp].
  exists major, minor, patch, rest. split_and!; try done; lia.
Qed.

(** The components of a version that parses are those of a Go [int]. *)
Lemma ParseSemanticVersion_range (input : string) (v : SemanticVersion) :
  ParseSemanticVersion TrimSpace input = inl v ->
  0 <= Major v < 2 ^ 63 /\ 0 <= Minor v < 2 ^ 63 /\ 0 <= Patch v < 2 ^ 63.
Proof.
  unfold ParseSemanticVersion. intros H.
  destruct (versionSubmatch _) as [[[major minor] patch]|]; [|done].
  destruct (Atoi major) as [M|] eqn:HM; [|done].
  destruct (Atoi minor) as [m|] eqn:Hm; [|done].
  destruct (Atoi patch) as [p|] eqn:Hp; [|done].
  simplify_eq. simpl.
  apply Atoi_range in HM as [_ ?], Hm as [_ ?], Hp as [_ ?]. done.
Qed.

(** X5: the version check lets a CLI pass unless the check is switched
    on, the version can be determined and its major number is below 2; a CLI
    whose version cannot be determined passes.  The error of a CLI that is
    too old is a CLINotFoundError that names both versions. *)
Theorem CheckCLIVersion_rejects_old_only (skipEnv : string) (run : versionRun) :
  (CheckCLIVersion TrimSpace skipEnv run = None
   <-> skipEnv <> ""
       \/ (forall v, GetCLIVersion TrimSpace run = inl v -> 2 <= Major v))
  /\ (forall e,
        CheckCLIVersion TrimSpace skipEnv run = Some e ->
        exists v,
          GetCLIVersion TrimSpace run = inl v
          /\ e = NewCLINotFoundError (tooOldMessage v (mkSemanticVersion 2 0 0))
          /\ IsCLINotFoundError e = true).
Proof.
  assert (Hmin : forall v, GetCLIVersion TrimSpace run = inl v ->
            IsAtLeast v (mkSemanticVersion MinimumCLIMajor MinimumCLIMinor MinimumCLIPatch)
            = true <-> 2 <= Major v).
  { intros v Hv. destruct run as [e stderr|stdout]; [done|]. simpl in Hv.
    apply ParseSemanticVersion_range in Hv as (HM & Hm & Hp).
    rewrite IsAtLeast_spec. unfold MinimumCLIMajor, MinimumCLIMinor, MinimumCLIPatch.
    simpl. lia. }
  unfold CheckCLIVersion. destruct (String.eqb skipEnv "") eqn:Hskip; simpl.
  - apply String.eqb_eq in Hskip as ->.
    destruct (GetCLIVersion TrimSpace run) as [v|e] eqn:Hv.
    + specialize (Hmin v eq_refl).
      destruct (IsAtLeast v _) eqn:Hat; simpl.
      * split; [|done]. split; [|done]. intros _. right. intros v' ?. simplify_eq.
        by apply Hmin.
      * split.
        -- split; [done|]. intros [?|Hall]; [done|].
           specialize (Hall v eq_refl). apply Hmin in Hall. congruence.
        -- intros e ?. simplify_eq. by exists v.
    + split; [|done]. split; [|done]. intros _. by right.
  - apply String.eqb_neq in Hskip. split; [|done]. split; [|done]. intros _. by left.
Qed.

(** The version check fails with a CLINotFoundError only. *)
Lemma CheckCLIVersion_error (skipEnv : string) (run : versionRun) (e : error) :
  CheckCLIVersion TrimSpace skipEnv run = Some e -> IsCLINotFoundError e = true.
Proof.
  unfold CheckCLIVersion. destruct (String.eqb skipEnv ""); [|done]. simpl.
  destruct (GetCLIVersion TrimSpace run) as [v|]; [|done].
  destruct (IsAtLeast v _); [done|]. by intros [= <-].
Qed.

Lemma findInLocations_result (env : FindEnv) (locs : list string) :
  match findInLocations TrimSpace env locs with
  | inl path =>
      CheckCLIVersion TrimSpace (skipEnv env) (versionOf env path) = None
      /\ exists before location after,
           locs = before ++ location :: after
           /\ path = expandHome env location
           /\ statOK env path = true
           /\ Forall (fun l => statOK env (expandHome env l) = false) before
  | inr e => IsCLINotFoundError e = true
  end.
Proof.
  induction locs as [|location rest IH]; [done|]. simpl.
  destruct (statOK env (expandHome env location)) eqn:Hstat.
  - destruct (CheckCLIVersion TrimSpace (skipEnv env)
                (versionOf env (expandHome env location))) as [e|] eqn:Hcheck.
    + by apply CheckCLIVersion_error in Hcheck.
    + split; [done|]. by exists [], location, rest.
  - destruct (findInLocations TrimSpace env rest) as [path|e]; [|done].
    destruct IH as (Hcheck & before & loc & after & -> & -> & Hok & Hbefore).
    split; [done|]. exists (location :: before), loc, after.
    split_and!; try done. by constructor.
Qed.

(** X6: the binary [FindCLI] returns is the one on the PATH or else the
    first install location that exists, and has passed the version check; an
    earlier hit that fails the check ends the search.  Whenever [FindCLI]
    fails, the error is a CLINotFoundError. *)
Theorem FindCLI_result (env : FindEnv) :
  match FindCLI TrimSpace env with
  | inl path =>
      CheckCLIVersion TrimSpace (skipEnv env) (versionOf env path) = None
      /\ (lookPath env = Some path
          \/ (lookPath env = None
              /\ exists before location after,
                   locations = before ++ location :: after
                   /\ path = expandHome env location
                   /\ statOK env path = true
                   /\ Forall (fun l => statOK env (expandHome env l) = false) before))
  | inr e => IsCLINotFoundError e = true
  end.
Proof.
  unfold FindCLI. destruct (lookPath env) as [cliPath|] eqn:Hpath.
  - destruct (CheckCLIVersion TrimSpace (skipEnv env) (versionOf env cliPath))
      as [e|] eqn:Hcheck.
    + by apply CheckCLIVersion_error in Hcheck.
    + split; [done|]. by left.
  - pose proof (findInLocations_result env locations) as H.
    destruct (findInLocations TrimSpace env locations) as [path|e]; [|done].
    destruct H as [Hcheck Hloc]. split; [done|]. by right.
Qed.

End Parsing.

End VersionFacts.


(** ** The string helpers of the stderr scanner *)

Section ScannerFacts.

Import Transport.

Lemma byte_at_lookup (s : string) (i : Z) :
  0 <= i < len s -> list_ascii_of_string s !! Z.to_nat i = Some (byte_at s i).
Proof.
  intros Hi. unfold byte_at. rewrite bytes_get.
  destruct (list_ascii_of_string s !! Z.to_nat i) eqn:E; [done|].
  apply lookup_ge_None in E. rewrite len_bytes in Hi. lia.
Qed.

Lemma lookup_byte_at (s : string) (n : nat) (c : ascii) :
  list_ascii_of_string s !! n = Some c -> byte_at s (Z.of_nat n) = c.
Proof. intros H. unfold byte_at. by rewrite Nat2Z.id, bytes_get, H. Qed.

(** A string cut at two offsets. *)
Lemma slice_split (s : string) (a b : Z) :
  0 <= a <= b -> b <= len s ->
  s = slice s 0 a +:+ slice s a b +:+ slice s b (len s).
Proof.
  intros Hab Hb. apply bytes_inj. rewrite !bytes_append, !bytes_slice.
  rewrite len_bytes in *. set (l := list_ascii_of_string s) in *.
  rewrite Z.sub_0_r. simpl.
  replace (Z.to_nat (Z.of_nat (length l) - b)) with (length l - Z.to_nat b)%nat by lia.
  rewrite (take_ge (drop (Z.to_nat b) l)) by (rewrite length_drop; lia).
  rewrite <- (take_drop (Z.to_nat a) l) at 1. f_equal.
  rewrite <- (take_drop (Z.to_nat (b - a)) (drop (Z.to_nat a) l)) at 1. f_equal.
  rewrite drop_drop. f_equal. lia.
Qed.

Lemma slice_Forall (P : ascii -> Prop) (s : string) (a b : Z) :
  0 <= a -> b <= len s ->
  (forall j, a <= j < b -> P (byte_at s j)) ->
  Forall P (list_ascii_of_string (slice s a b)).
Proof.
  intros Ha Hb HP. rewrite bytes_slice. apply Forall_lookup. intros k c Hk.
  apply lookup_take_Some in Hk as [Hk Hlt]. rewrite lookup_drop in Hk.
  apply lookup_byte_at in Hk as <-. apply HP. lia.
Qed.

Lemma len_slice (s : string) (a b : Z) :
  0 <= a <= b -> b <= len s -> len (slice s a b) = b - a.
Proof.
  intros Hab Hb. rewrite len_bytes, bytes_slice, length_take, length_drop.
  rewrite len_bytes in Hb. lia.
Qed.

Lemma slice_app_middle (before mid after : string) :
  slice (before +:+ mid +:+ after) (len before) (len before + len mid) = mid.
Proof.
  apply bytes_inj. rewrite bytes_slice, !bytes_append, !len_bytes.
  rewrite Nat2Z.id. rewrite drop_app_length.
  replace (Z.to_nat _) with (length (list_ascii_of_string mid)) by lia.
  by rewrite take_app_length.
Qed.

Lemma occursAt_slice (s substr : string) (i : Z) :
  occursAt s substr i
  <-> 0 <= i <= len s - len substr /\ slice s i (i + len substr) = substr.
Proof.
  split.
  - intros (before & after & -> & <-). rewrite !len_append.
    pose proof (len_nonneg before). pose proof (len_nonneg after).
    split; [lia|]. apply slice_app_middle.
  - intros [Hi Hs]. pose proof (len_nonneg substr).
    exists (slice s 0 i), (slice s (i + len substr) (len s)). split.
    + pose proof (slice_split s i (i + len substr)) as Hsplit.
      rewrite Hs in Hsplit. apply Hsplit; lia.
    + rewrite len_slice; lia.
Qed.

Lemma findSubstring_from_spec (s substr : string) (rounds : nat) :
  forall i,
    0 <= i -> len s - len substr - i < Z.of_nat rounds ->
    (findSubstring_from rounds s substr i = -1
     /\ forall j, i <= j <= len s - len substr -> slice s j (j + len substr) <> substr)
    \/ (i <= findSubstring_from rounds s substr i <= len s - len substr
        /\ slice s (findSubstring_from rounds s substr i)
             (findSubstring_from rounds s substr i + len substr) = substr
        /\ forall j, i <= j < findSubstring_from rounds s substr i ->
                     slice s j (j + len substr) <> substr).
Proof.
  induction rounds as [|rounds IH]; intros i Hi Hrounds; simpl.
  - left. split; [done|]. intros j Hj. lia.
  - destruct (i <=? len s - len substr) eqn:Hle.
    + apply Z.leb_le in Hle.
      destruct (String.eqb (slice s i (i + len substr)) substr) eqn:Heq.
      * apply String.eqb_eq in Heq. right. split_and!; [lia..|done|]. intros j Hj. lia.
      * apply String.eqb_neq in Heq.
        destruct (IH (i + 1)) as [[-> Hnone]|(Hrange & Hfound & Hfirst)]; [lia..| |].
        -- left. split; [done|]. intros j Hj.
           destruct (decide (j = i)) as [->|]; [done|]. apply Hnone. lia.
        -- right. split_and!; [lia..|done|]. intros j Hj.
           destruct (decide (j = i)) as [->|]; [done|]. apply Hfirst. lia.
    + apply Z.leb_gt in Hle. left. split; [done|]. intros j Hj. lia.
Qed.

(** [findSubstring] returns the offset of the first occurrence, or -1 when
    there is none. *)
Lemma findSubstring_occurrence (s substr : string) :
  (findSubstring s substr = -1 /\ forall j, ~ occursAt s substr j)
  \/ (occursAt s substr (findSubstring s substr)
      /\ forall j, occursAt s substr j -> findSubstring s substr <= j).
Proof.
  pose proof (len_nonneg substr) as Hsub.
  destruct (findSubstring_from_spec s substr (S (String.length s)) 0)
    as [[Hr Hnone]|(Hrange & Hfound & Hfirst)]; [lia|unfold len; lia| |].
  - left. split; [done|]. intros j Hj. apply occursAt_slice in Hj as [Hj Hs].
    by apply (Hnone j).
  - right. fold (findSubstring s substr) in *. split.
    + apply occursAt_slice. split; [lia|done].
    + intros j Hj. apply occursAt_slice in Hj as [Hj Hs].
      destruct (decide (findSubstring s substr <= j)) as [|Hlt]; [done|].
      destruct (Hfirst j); [lia|done].
Qed.

(** *** The three scanning loops *)

Lemma trim_start_spec (s : string) (rounds : nat) :
  forall start,
    0 <= start <= len s -> len s - start <= Z.of_nat rounds ->
    start <= trim_start rounds s start <= len s
    /\ (forall j, start <= j < trim_start rounds s start ->
                  isWhitespace (byte_at s j) = true)
    /\ (trim_start rounds s start < len s ->
        isWhitespace (byte_at s (trim_start rounds s start)) = false).
Proof.
  induction rounds as [|rounds IH]; intros start Hstart Hrounds; simpl.
  - split_and!; [lia..| |]; intros; lia.
  - destruct (start <? len s) eqn:Hlt; simpl.
    + apply Z.ltb_lt in Hlt.
      destruct (isWhitespace (byte_at s start)) eqn:Hws.
      * destruct (IH (start + 1)) as (Hrange & Hall & Hstop); [lia..|].
        split_and!; [lia..| |done]. intros j Hj.
        destruct (decide (j = start)) as [->|]; [done|]. apply Hall. lia.
      * split_and!; [lia..| |done]. intros j Hj. lia.
    + apply Z.ltb_ge in Hlt. split_and!; [lia..| |]; intros; lia.
Qed.

Lemma trim_end_spec (s : string) (start : Z) (rounds : nat) :
  forall stop,
    0 <= start <= stop -> stop <= len s -> stop - start <= Z.of_nat rounds ->
    start <= trim_end rounds s start stop <= stop
    /\ (forall j, trim_end rounds s start stop <= j < stop ->
                  isWhitespace (byte_at s j) = true)
    /\ (start < trim_end rounds s start stop ->
        isWhitespace (byte_at s (trim_end rounds s start stop - 1)) = false).
Proof.
  induction rounds as [|rounds IH]; intros stop Hstart Hstop Hrounds; simpl.
  - split_and!; [lia..| |]; intros; lia.
  - destruct (start <? stop) eqn:Hlt; simpl.
    + apply Z.ltb_lt in Hlt.
      destruct (isWhitespace (byte_at s (stop - 1))) eqn:Hws.
      * destruct (IH (stop - 1)) as (Hrange & Hall & Hlast); [lia..|].
        split_and!; [lia..| |done]. intros j Hj.
        destruct (decide (j = stop - 1)) as [->|]; [done|]. apply Hall. lia.
      * split_and!; [lia..| |done]. intros j Hj. lia.
    + apply Z.ltb_ge in Hlt. split_and!; [lia..| |]; intros; lia.
Qed.

Lemma token_end_spec (s : string) (rounds : nat) :
  forall endIdx,
    0 <= endIdx <= len s -> len s - endIdx <= Z.of_nat rounds ->
    endIdx <= token_end rounds s endIdx <= len s
    /\ (forall j, endIdx <= j < token_end rounds s endIdx ->
                  isWhitespace (byte_at s j) = false)
    /\ (token_end rounds s endIdx < len s ->
        isWhitespace (byte_at s (token_end rounds s endIdx)) = true).
Proof.
  induction rounds as [|rounds IH]; intros endIdx Hidx Hrounds; simpl.
  - split_and!; [lia..| |]; intros; lia.
  - destruct (endIdx <? len s) eqn:Hlt; simpl.
    + apply Z.ltb_lt in Hlt.
      destruct (isWhitespace (byte_at s endIdx)) eqn:Hws; simpl.
      * split_and!; [lia..| |done]. intros j Hj. lia.
      * destruct (IH (endIdx + 1)) as (Hrange & Hall & Hstop); [lia..|].
        split_and!; [lia..| |done]. intros j Hj.
        destruct (decide (j = endIdx)) as [->|]; [done|]. apply Hall. lia.
    + apply Z.ltb_ge in Hlt. split_and!; [lia..| |]; intros; lia.
Qed.

Lemma startsWithWhitespace_byte (s : string) :
  startsWithWhitespace s = if 0 <? len s then isWhitespace (byte_at s 0) else false.
Proof. destruct s as [|c s]; [done|]. unfold len. by simpl. Qed.

Lemma endsWithWhitespace_byte (s : string) :
  endsWithWhitespace s
  = if 0 <? len s then isWhitespace (byte_at s (len s - 1)) else false.
Proof.
  unfold endsWithWhitespace. rewrite len_bytes.
  destruct (list_ascii_of_string s) as [|c l _] eqn:Hl using rev_ind; [done|].
  rewrite last_snoc, length_app. simpl.
  assert ((0 <? Z.of_nat (length l + 1)) = true) as -> by (apply Z.ltb_lt; lia).
  replace (Z.of_nat (length l + 1) - 1) with (Z.of_nat (length l)) by lia.
  symmetry. f_equal. apply lookup_byte_at. rewrite Hl.
  by rewrite lookup_app_r, Nat.sub_diag by lia.
Qed.

Lemma byte_at_slice (s : string) (a b j : Z) :
  0 <= a -> b <= len s -> 0 <= j < b - a ->
  byte_at (slice s a b) j = byte_at s (a + j).
Proof.
  intros Ha Hb Hj.
  assert (Hin : list_ascii_of_string (slice s a b) !! Z.to_nat j
                = Some (byte_at s (a + j))).
  { rewrite bytes_slice, lookup_take_lt, lookup_drop by lia.
    replace (Z.to_nat a + Z.to_nat j)%nat with (Z.to_nat (a + j)) by lia.
    apply byte_at_lookup. lia. }
  apply lookup_byte_at in Hin. by rewrite Z2Nat.id in Hin by lia.
Qed.

(** [trimWhitespace] removes a run of white space at each end. *)
Lemma trimWhitespace_parts (s : string) :
  exists lead trail,
    s = lead +:+ trimWhitespace s +:+ trail
    /\ allWhitespace lead /\ allWhitespace trail
    /\ startsWithWhitespace (trimWhitespace s) = false
    /\ endsWithWhitespace (trimWhitespace s) = false.
Proof.
  pose proof (len_nonneg s) as Hlen. unfold trimWhitespace.
  destruct (trim_start_spec s (String.length s) 0) as (Hr1 & Hlead & Hfirst);
    [lia|unfold len; lia|].
  set (start := trim_start (String.length s) s 0) in *.
  destruct (trim_end_spec s start (String.length s) (len s)) as (Hr2 & Htrail & Hlast);
    [lia|lia|unfold len; lia|].
  set (stop := trim_end (String.length s) s start (len s)) in *.
  exists (slice s 0 start), (slice s stop (len s)). split_and!.
  - apply slice_split; lia.
  - apply slice_Forall; [lia..|]. intros j Hj. apply Hlead. lia.
  - apply slice_Forall; [lia..|]. intros j Hj. apply Htrail. lia.
  - rewrite startsWithWhitespace_byte, len_slice by lia.
    destruct (0 <? stop - start) eqn:Hlt; [|done]. apply Z.ltb_lt in Hlt.
    rewrite byte_at_slice by lia. rewrite Z.add_0_r. apply Hfirst. lia.
  - rewrite endsWithWhitespace_byte, len_slice by lia.
    destruct (0 <? stop - start) eqn:Hlt; [|done]. apply Z.ltb_lt in Hlt.
    rewrite byte_at_slice by lia.
    replace (start + (stop - start - 1)) with (stop - 1) by lia. apply Hlast. lia.
Qed.

(** *** The scanning loops on a string of known shape *)

Lemma byte_at_app_l (a b : string) (j : Z) :
  0 <= j < len a -> byte_at (a +:+ b) j = byte_at a j.
Proof.
  intros Hj. rewrite <- (Z2Nat.id j) at 1 by lia. apply lookup_byte_at.
  rewrite bytes_append, lookup_app_l by (rewrite len_bytes in Hj; lia).
  by apply byte_at_lookup.
Qed.

Lemma byte_at_app_r (a b : string) (j : Z) :
  len a <= j < len a + len b -> byte_at (a +:+ b) j = byte_at b (j - len a).
Proof.
  intros Hj. pose proof (len_nonneg a).
  rewrite <- (Z2Nat.id j) at 1 by lia. apply lookup_byte_at.
  rewrite bytes_append, lookup_app_r by (rewrite len_bytes in Hj; lia).
  replace (Z.to_nat j - length (list_ascii_of_string a))%nat
    with (Z.to_nat (j - len a)) by (rewrite len_bytes; lia).
  apply byte_at_lookup. lia.
Qed.

Lemma Forall_byte_at (P : ascii -> Prop) (s : string) (j : Z) :
  Forall P (list_ascii_of_string s) -> 0 <= j < len s -> P (byte_at s j).
Proof.
  intros HP Hj. rewrite Forall_lookup in HP. eapply HP. by apply byte_at_lookup.
Qed.

Lemma empty_len (s : string) : len s = 0 -> s = "".
Proof. destruct s; [done|]. unfold len. simpl. lia. Qed.

Lemma slice_empty (s : string) (a : Z) : slice s a a = "".
Proof.
  apply bytes_inj. rewrite bytes_slice, Z.sub_diag. done.
Qed.

Lemma slice_all (s : string) : slice s 0 (len s) = s.
Proof.
  apply bytes_inj. rewrite bytes_slice, len_bytes, Z.sub_0_r, Nat2Z.id.
  change (Z.to_nat 0) with 0%nat. by rewrite drop_0, take_ge.
Qed.

Lemma slice_app_prefix (a b : string) : slice (a +:+ b) 0 (len a) = a.
Proof.
  apply bytes_inj. rewrite bytes_slice, bytes_append, len_bytes, Z.sub_0_r, Nat2Z.id.
  change (Z.to_nat 0) with 0%nat. by rewrite drop_0, take_app_length.
Qed.

Lemma slice_app_suffix (a b : string) : slice (a +:+ b) (len a) (len (a +:+ b)) = b.
Proof.
  apply bytes_inj. rewrite bytes_slice, bytes_append, len_append, !len_bytes.
  rewrite Nat2Z.id, drop_app_length. apply take_ge. lia.
Qed.

Lemma trim_start_app (ws rest : string) :
  allWhitespace ws -> startsWithWhitespace rest = false ->
  trim_start (String.length (ws +:+ rest)) (ws +:+ rest) 0 = len ws.
Proof.
  intros Hws Hrest. pose proof (len_nonneg ws). pose proof (len_nonneg rest).
  destruct (trim_start_spec (ws +:+ rest) (String.length (ws +:+ rest)) 0)
    as (Hrange & Hall & Hstop); [rewrite len_append; lia|unfold len; lia|].
  set (r := trim_start _ _ _) in *. rewrite len_append in *.
  destruct (Z.lt_trichotomy r (len ws)) as [Hlt|[Heq|Hgt]]; [|done|].
  - specialize (Hstop ltac:(lia)). rewrite byte_at_app_l in Hstop by lia.
    by rewrite (Forall_byte_at _ _ _ Hws) in Hstop by lia.
  - specialize (Hall (len ws)). rewrite byte_at_app_r, Z.sub_diag in Hall by lia.
    rewrite startsWithWhitespace_byte in Hrest.
    assert ((0 <? len rest) = true) as Hpos by (apply Z.ltb_lt; lia).
    rewrite Hpos in Hrest. rewrite Hall in Hrest; [done|lia].
Qed.

Lemma token_end_app (token rest : string) :
  noWhitespace token -> rest = "" \/ startsWithWhitespace rest = true ->
  token_end (String.length (token +:+ rest)) (token +:+ rest) 0 = len token.
Proof.
  intros Htoken Hrest. pose proof (len_nonneg token). pose proof (len_nonneg rest).
  destruct (token_end_spec (token +:+ rest) (String.length (token +:+ rest)) 0)
    as (Hrange & Hall & Hstop); [rewrite len_append; lia|unfold len; lia|].
  set (r := token_end _ _ _) in *. rewrite len_append in *.
  destruct (Z.lt_trichotomy r (len token)) as [Hlt|[Heq|Hgt]]; [|done|].
  - specialize (Hstop ltac:(lia)). rewrite byte_at_app_l in Hstop by lia.
    by rewrite (Forall_byte_at _ _ _ Htoken) in Hstop by lia.
  - specialize (Hall (len token)). rewrite byte_at_app_r, Z.sub_diag in Hall by lia.
    destruct Hrest as [->|Hrest]; [unfold len in *; simpl in *; lia|].
    rewrite startsWithWhitespace_byte in Hrest.
    assert ((0 <? len rest) = true) as Hpos by (apply Z.ltb_lt; lia).
    rewrite Hpos in Hrest. rewrite Hall in Hrest; [done|lia].
Qed.

(** The text between two runs of white space is what [trimWhitespace]
    returns. *)
Lemma trimWhitespace_app (lead body trail : string) :
  allWhitespace lead -> allWhitespace trail ->
  startsWithWhitespace body = false -> endsWithWhitespace body = false ->
  trimWhitespace (lead +:+ body +:+ trail) = body.
Proof.
  intros Hlead Htrail Hfirst Hlast.
  pose proof (len_nonneg lead). pose proof (len_nonneg body). pose proof (len_nonneg trail).
  set (s := lead +:+ body +:+ trail).
  assert (Hlen : len s = len lead + len body + len trail).
  { unfold s. rewrite !len_append. lia. }
  unfold trimWhitespace.
  destruct (trim_start_spec s (String.length s) 0) as (Hr1 & Hall1 & Hstop1);
    [lia|unfold len; lia|].
  set (start := trim_start (String.length s) s 0) in *.
  destruct (trim_end_spec s start (String.length s) (len s)) as (Hr2 & Hall2 & Hstop2);
    [lia|lia|unfold len; lia|].
  set (stop := trim_end (String.length s) s start (len s)) in *.
  assert (Hbyte_lead : forall j, 0 <= j < len lead -> isWhitespace (byte_at s j) = true).
  { intros j Hj. unfold s. rewrite byte_at_app_l by lia. by apply Forall_byte_at. }
  assert (Hbyte_trail : forall j, len lead + len body <= j < len s ->
            isWhitespace (byte_at s j) = true).
  { intros j Hj. unfold s. rewrite <- append_assoc.
    rewrite byte_at_app_r by (rewrite len_append; lia).
    apply Forall_byte_at; [done|]. rewrite len_append. lia. }
  destruct (decide (len body = 0)) as [Hempty|Hne].
  - rewrite (empty_len body Hempty).
    assert (start = len s) as Hstart.
    { destruct (decide (start < len s)) as [Hlt|]; [|lia].
      specialize (Hstop1 Hlt).
      destruct (decide (start < len lead)).
      - rewrite Hbyte_lead in Hstop1 by lia. done.
      - rewrite Hbyte_trail in Hstop1 by lia. done. }
    replace stop with start by lia. apply slice_empty.
  - assert (Hbody_first : isWhitespace (byte_at s (len lead)) = false).
    { unfold s. rewrite byte_at_app_r, Z.sub_diag by (rewrite len_append; lia).
      rewrite byte_at_app_l by lia. rewrite startsWithWhitespace_byte in Hfirst.
      assert ((0 <? len body) = true) as Hpos by (apply Z.ltb_lt; lia).
      by rewrite Hpos in Hfirst. }
    assert (Hbody_last : isWhitespace (byte_at s (len lead + len body - 1)) = false).
    { unfold s. rewrite byte_at_app_r by (rewrite len_append; lia).
      rewrite byte_at_app_l by lia. rewrite endsWithWhitespace_byte in Hlast.
      assert ((0 <? len body) = true) as Hpos by (apply Z.ltb_lt; lia).
      rewrite Hpos in Hlast.
      by replace (len lead + len body - 1 - len lead) with (len body - 1) by lia. }
    assert (start = len lead) as Hstart.
    { destruct (Z.lt_trichotomy start (len lead)) as [Hlt|[Heq|Hgt]]; [|done|].
      - specialize (Hstop1 ltac:(lia)). by rewrite Hbyte_lead in Hstop1 by lia.
      - rewrite Hall1 in Hbody_first by lia. done. }
    assert (stop = len lead + len body) as Hstop.
    { destruct (Z.lt_trichotomy stop (len lead + len body)) as [Hlt|[Heq|Hgt]]; [|done|].
      - rewrite Hall2 in Hbody_last by lia. done.
      - specialize (Hstop2 ltac:(lia)). by rewrite Hbyte_trail in Hstop2 by lia. }
    rewrite Hstart, Hstop. apply slice_app_middle.
Qed.

Lemma startsWithWhitespace_app (a b : string) :
  a <> "" -> startsWithWhitespace (a +:+ b) = startsWithWhitespace a.
Proof. by destruct a. Qed.

Lemma endsWithWhitespace_app (a b : string) :
  b <> "" -> endsWithWhitespace (a +:+ b) = endsWithWhitespace b.
Proof.
  intros Hb. unfold endsWithWhitespace. rewrite bytes_append.
  destruct (list_ascii_of_string b) as [|c l _] eqn:Hl using rev_ind.
  - destruct b; simplify_eq.
  - by rewrite app_assoc, !last_snoc.
Qed.

Lemma noWhitespace_first (s : string) :
  noWhitespace s -> startsWithWhitespace s = false.
Proof. destruct s as [|c s]; [done|]. intros H. by apply Forall_cons in H as [? _]. Qed.

Lemma noWhitespace_last (s : string) :
  noWhitespace s -> endsWithWhitespace s = false.
Proof.
  unfold noWhitespace, endsWithWhitespace. intros H.
  destruct (last (list_ascii_of_string s)) as [c|] eqn:Hlast; [|done].
  rewrite Forall_forall in H. apply H. apply last_Some in Hlast as [l ->].
  apply elem_of_app. right. apply elem_of_cons. by left.
Qed.

Lemma allWhitespace_first (s : string) :
  allWhitespace s -> s = "" \/ startsWithWhitespace s = true.
Proof.
  destruct s as [|c s]; [by left|]. intros H. right. by apply Forall_cons in H as [? _].
Qed.

(** White space at the end of a string can be split off. *)
Lemma split_trailing_whitespace (s : string) :
  exists body trail,
    s = body +:+ trail /\ allWhitespace trail /\ endsWithWhitespace body = false.
Proof.
  rewrite <- (string_of_list_ascii_of_string s).
  induction (list_ascii_of_string s) as [|c l IH] using rev_ind.
  - exists "", "". split_and!; [done| |done]. constructor.
  - destruct (isWhitespace c) eqn:Hc.
    + destruct IH as (body & trail & Hs & Htrail & Hbody).
      exists body, (trail +:+ String c ""). split_and!; [| |done].
      * apply bytes_inj. rewrite bytes_append, !list_ascii_of_string_of_list_ascii.
        rewrite bytes_append. simpl. rewrite app_assoc. f_equal.
        by rewrite <- bytes_append, <- Hs, list_ascii_of_string_of_list_ascii.
      * unfold allWhitespace. rewrite bytes_append. apply Forall_app. split; [done|].
        by repeat constructor.
    + exists (string_of_list_ascii (l ++ [c])), "". split_and!.
      * by rewrite append_nil_r.
      * constructor.
      * unfold endsWithWhitespace.
        by rewrite list_ascii_of_string_of_list_ascii, last_snoc.
Qed.

(** X7: [findSubstring] finds [substr] exactly when it occurs in [s]:
    the result is then the offset of its first occurrence, and it is -1 when
    [substr] does not occur. *)
Theorem findSubstring_first_occurrence (s substr : string) :
  ((exists j, occursAt s substr j) <-> 0 <= findSubstring s substr)
  /\ (0 <= findSubstring s substr ->
      occursAt s substr (findSubstring s substr)
      /\ forall j, occursAt s substr j -> findSubstring s substr <= j)
  /\ ((forall j, ~ occursAt s substr j) -> findSubstring s substr = -1).
Proof.
  destruct (findSubstring_occurrence s substr) as [[Hr Hnone]|[Hat Hfirst]].
  - rewrite Hr. split_and!; [|lia|done].
    split; [intros [j Hj]; by destruct (Hnone j)|lia].
  - assert (Hpos : 0 <= findSubstring s substr).
    { destruct Hat as (before & after & _ & <-). apply len_nonneg. }
    split_and!; [|done|].
    + split; [done|]. intros _. by eexists.
    + intros Hnone. by destruct (Hnone _ Hat).
Qed.

(** X8: [trimWhitespace] removes a run of white space at each end and
    nothing else; what it returns neither starts nor ends with white space,
    so that trimming twice is trimming once. *)
Theorem trimWhitespace_spec (s : string) :
  (exists lead trail,
     s = lead +:+ trimWhitespace s +:+ trail
     /\ allWhitespace lead /\ allWhitespace trail
     /\ startsWithWhitespace (trimWhitespace s) = false
     /\ endsWithWhitespace (trimWhitespace s) = false)
  /\ trimWhitespace (trimWhitespace s) = trimWhitespace s.
Proof.
  destruct (trimWhitespace_parts s) as (lead & trail & Hs & Hlead & Htrail & Hfirst & Hlast).
  split; [by exists lead, trail|].
  rewrite <- (trimWhitespace_app "" (trimWhitespace s) "") at 2; try done.
  - by rewrite append_nil_r.
  - constructor.
  - constructor.
Qed.

(** X9: [extractSessionNotFoundError] recognises a text exactly when the
    first occurrence of the pattern is followed by optional white space and a
    non-empty run of bytes that are no white space; that run, which ends at
    the next white space or at the end of the text, is the session
    identifier returned. *)
Theorem extractSessionNotFoundError_spec (stderrText sessionID : string) :
  extractSessionNotFoundError stderrText = (true, sessionID)
  <-> exists before ws rest,
        stderrText = before +:+ pattern +:+ ws +:+ sessionID +:+ rest
        /\ (forall j, occursAt stderrText pattern j -> len before <= j)
        /\ allWhitespace ws
        /\ sessionID <> "" /\ noWhitespace sessionID
        /\ (rest = "" \/ startsWithWhitespace rest = true).
Proof.
  split.
  - unfold extractSessionNotFoundError. intros H.
    destruct (0 <=? findSubstring stderrText pattern) eqn:Hidx; [|done].
    apply Z.leb_le in Hidx.
    destruct (findSubstring_occurrence stderrText pattern)
      as [[Hnone _]|[Hocc Hfirst]]; [lia|].
    set (idx := findSubstring stderrText pattern) in *.
    destruct Hocc as (before & after & Htext & Hbefore).
    destruct (idx + len pattern <? len stderrText) eqn:Hstart; [|done].
    assert (Hremaining : slice stderrText (idx + len pattern) (len stderrText) = after).
    { rewrite Htext at 1 2. rewrite <- append_assoc. rewrite <- Hbefore, <- len_append.
      apply slice_app_suffix. }
    rewrite Hremaining in H.
    destruct (trimWhitespace_parts after) as (lead & trail & Hafter & Hlead & Htrail & Hs & He).
    set (mid := trimWhitespace after) in *.
    destruct (0 <? len mid) eqn:Hmid; [|done]. apply Z.ltb_lt in Hmid.
    destruct (token_end_spec mid (String.length mid) 0) as (Hrange & Hall & Hstop);
      [lia|unfold len; lia|].
    set (endIdx := token_end (String.length mid) mid 0) in *.
    injection H as <-.
    assert (Hpos : 0 < endIdx).
    { destruct (decide (0 < endIdx)) as [|Hz]; [done|].
      assert (endIdx = 0) as Hzero by lia. rewrite Hzero in Hstop.
      rewrite startsWithWhitespace_byte in Hs.
      assert ((0 <? len mid) = true) as Hp by (by apply Z.ltb_lt).
      rewrite Hp, Hstop in Hs; [done|lia]. }
    exists before, lead, (slice mid endIdx (len mid) +:+ trail). split_and!.
    + rewrite Htext. do 2 f_equal. rewrite Hafter. f_equal.
      rewrite <- append_assoc. f_equal.
      pose proof (slice_split mid 0 endIdx ltac:(lia) ltac:(lia)) as Hcut.
      by rewrite slice_empty in Hcut.
    + intros j Hj. rewrite Hbefore. by apply Hfirst.
    + done.
    + intros Hempty. pose proof (len_slice mid 0 endIdx ltac:(lia) ltac:(lia)) as Hl.
      rewrite Hempty in Hl. unfold len in Hl. simpl in Hl. lia.
    + apply slice_Forall; [lia..|]. intros j Hj. apply Hall. lia.
    + destruct (decide (endIdx < len mid)) as [Hlt|Hge].
      * right. rewrite startsWithWhitespace_app.
        -- rewrite startsWithWhitespace_byte, len_slice by lia.
           assert ((0 <? len mid - endIdx) = true) as -> by (apply Z.ltb_lt; lia).
           rewrite byte_at_slice by lia. rewrite Z.add_0_r. by apply Hstop.
        -- intros Hempty.
           pose proof (len_slice mid endIdx (len mid) ltac:(lia) ltac:(lia)) as Hl.
           rewrite Hempty in Hl. change (len "") with 0 in Hl. lia.
      * replace endIdx with (len mid) by lia. rewrite slice_empty.
        by apply allWhitespace_first.
  - intros (before & ws & rest & Htext & Hfirst & Hws & Hne & Hid & Hrest).
    pose proof (len_nonneg before). pose proof (len_nonneg pattern).
    assert (Hlen_id : 0 < len sessionID).
    { destruct sessionID; [done|]. unfold len. simpl. lia. }
    assert (Hidx : findSubstring stderrText pattern = len before).
    { assert (Hocc : occursAt stderrText pattern (len before)).
      { by exists before, (ws +:+ sessionID +:+ rest). }
      destruct (findSubstring_occurrence stderrText pattern)
        as [[_ Hnone]|[Hocc' Hmin]]; [by destruct (Hnone _ Hocc)|].
      apply Z.le_antisymm; [by apply Hmin|by apply Hfirst]. }
    destruct (split_trailing_whitespace rest) as (rest' & trail & Hsplit & Htrail & Hlast).
    assert (Hremaining : slice stderrText (len before + len pattern) (len stderrText)
                         = ws +:+ (sessionID +:+ rest') +:+ trail).
    { rewrite Htext at 1 2. rewrite <- append_assoc. rewrite <- len_append.
      rewrite slice_app_suffix. rewrite Hsplit. by rewrite !append_assoc. }
    assert (Htrim : trimWhitespace (ws +:+ (sessionID +:+ rest') +:+ trail)
                    = sessionID +:+ rest').
    { apply trimWhitespace_app; [done..| |].
      - rewrite startsWithWhitespace_app by done. by apply noWhitespace_first.
      - destruct (decide (rest' = "")) as [->|Hr].
        + rewrite append_nil_r. by apply noWhitespace_last.
        + by rewrite endsWithWhitespace_app. }
    assert (Htoken : token_end (String.length (sessionID +:+ rest')) (sessionID +:+ rest') 0
                     = len sessionID).
    { apply token_end_app; [done|].
      destruct rest' as [|c r]; [by left|]. right.
      destruct Hrest as [->|Hrest]; [done|]. by rewrite Hsplit in Hrest. }
    unfold extractSessionNotFoundError. rewrite Hidx.
    assert ((0 <=? len before) = true) as -> by (apply Z.leb_le; lia).
    assert ((len before + len pattern <? len stderrText) = true) as ->.
    { apply Z.ltb_lt. rewrite Htext, !len_append.
      pose proof (len_nonneg ws). pose proof (len_nonneg rest). lia. }
    rewrite Hremaining, Htrim.
    assert ((0 <? len (sessionID +:+ rest')) = true) as ->.
    { apply Z.ltb_lt. rewrite len_append. pose proof (len_nonneg rest'). lia. }
    by rewrite Htoken, slice_app_prefix.
Qed.

End ScannerFacts.


(** ** What the transport writes and reads *)

Section PipeFacts.

Import Transport.

Lemma not_ready_kept (t : SubprocessCLITransport) (o : op) :
  ready t = false ->
  ready (apply_op t o) = false /\ stdin (apply_op t o) = stdin t.
Proof.
  intros Hr. destruct o as [e|text|data io]; simpl.
  - unfold OnError. by destruct (err t).
  - unfold parseStderrError. destruct (extractSessionNotFoundError text) as [[] ?]; [|done].
    unfold OnError. by destruct (err t).
  - unfold Write. by rewrite Hr.
Qed.

Lemma not_ready_run (ops : list op) (t : SubprocessCLITransport) :
  ready t = false -> ready (run t ops) = false /\ stdin (run t ops) = stdin t.
Proof.
  revert t. induction ops as [|o ops IH]; intros t Hr; [done|].
  destruct (not_ready_kept t o Hr) as [Hr' Hs].
  destruct (IH _ Hr') as [? ?]. unfold run in *. simpl. split; congruence.
Qed.

(** X10: what a ready transport has sent to the child after a sequence of
    operations is what it had sent before followed by the data of the
    writes, in order, up to the first write that fails on the pipe; a
    transport that is not ready sends nothing and stays not ready. *)
Theorem stdin_after_run (t : SubprocessCLITransport) (ops : list op) :
  (ready t = true -> writer t = true -> stdin (run t ops) = stdin t ++ written ops)
  /\ (ready t = false -> stdin (run t ops) = stdin t /\ ready (run t ops) = false).
Proof.
  split; [|intros Hr; by destruct (not_ready_run ops t Hr)].
  revert t. induction ops as [|o ops IH]; intros t Hr Hw.
  - simpl. by rewrite app_nil_r.
  - unfold run in *. destruct o as [e|text|data [e|]]; simpl.
    + rewrite IH; unfold OnError; by destruct (err t).
    + unfold parseStderrError.
      destruct (extractSessionNotFoundError text) as [[] ?]; [|by apply IH].
      rewrite IH; unfold OnError; by destruct (err t).
    + unfold Write. rewrite Hr, Hw. simpl.
      match goal with
      | |- stdin (foldl apply_op ?t' ops) = _ =>
          destruct (not_ready_run ops t') as [_ Hs]; [done|]
      end.
      unfold run in Hs. by rewrite Hs, app_nil_r.
    + unfold Write. rewrite Hr, Hw. simpl. rewrite IH by done. simpl.
      by rewrite <- app_assoc.
Qed.

Lemma err_after_failed_write (ops : list op) (t : SubprocessCLITransport) (e : error) :
  ready t = false -> err t = Some e -> err (run t ops) = Some e.
Proof.
  revert t. induction ops as [|o ops IH]; intros t Hr He; [done|].
  unfold run in *. simpl. apply IH.
  - by destruct (not_ready_kept t o Hr) as [? _].
  - destruct o as [e'|text|data io]; simpl.
    + unfold OnError. by rewrite He.
    + unfold parseStderrError, OnError.
      destruct (extractSessionNotFoundError text) as [[] ?]; by rewrite ?He.
    + unfold Write. by rewrite Hr.
Qed.

(** X19: the error [GetError] returns after a sequence of operations on
    a ready transport.  When a write fails on the pipe, it is the connection
    error of the first such write, whatever was stored before; otherwise it is
    the first error reported: the one stored at the start, or else the first
    one given to [OnError] or made for a recognised stderr line. *)
Theorem GetError_after_run (t : SubprocessCLITransport) (ops : list op) :
  ready t = true -> writer t = true ->
  GetError (run t ops)
  = match failedWrite ops with
    | Some e => Some e
    | None => head (option_list (err t) ++ reports ops)
    end.
Proof.
  assert (HOn : forall t e, ready (OnError t e) = ready t /\ writer (OnError t e) = writer t
                            /\ err (OnError t e) = Some (default e (err t))).
  { intros t' e. unfold OnError. destruct (err t') eqn:E; simpl; by rewrite ?E. }
  revert t. induction ops as [|o ops IH]; intros t Hr Hw.
  - simpl. unfold GetError. by destruct (err t).
  - unfold run in *. destruct o as [e|text|data [e|]]; simpl.
    + destruct (HOn t e) as (Hr' & Hw' & He'). rewrite IH by congruence.
      destruct (failedWrite ops); [done|]. rewrite He'. by destruct (err t).
    + unfold parseStderrError.
      destruct (extractSessionNotFoundError text) as [[] sessionID]; [|by apply IH].
      destruct (HOn t (NewSessionNotFoundError sessionID sessionNotFoundMessage))
        as (Hr' & Hw' & He').
      rewrite IH by congruence.
      destruct (failedWrite ops); [done|]. rewrite He'. by destruct (err t).
    + unfold Write. rewrite Hr, Hw. simpl. unfold GetError.
      by apply (err_after_failed_write ops).
    + unfold Write. rewrite Hr, Hw. simpl. by rewrite IH.
Qed.

End PipeFacts.

Section ReaderFacts.

Import Transport Reader.

Variable enc : Encoding.

Lemma OnError_stored (t : SubprocessCLITransport) (e : error) :
  GetError (OnError t e) = match GetError t with Some e0 => Some e0 | None => Some e end.
Proof. unfold GetError, OnError. destruct (err t) eqn:E; simpl; by rewrite ?E. Qed.

(** X11: while lines keep coming, the reader loop puts on the channel
    the message of every non-empty line that decodes, in the order of the
    lines, whatever lines in between are empty or fail to decode; and the
    error [GetError] returns afterwards is the one stored before or else the
    error of the first line that failed. *)
Theorem messageReaderLoop_lines (lines : list string) (t : SubprocessCLITransport) :
  snd (messageReaderLoop enc (map (fun line => ReadLine line false) lines) t)
  = omap (decoded enc) lines
  /\ GetError (fst (messageReaderLoop enc (map (fun line => ReadLine line false) lines) t))
     = match GetError t with
       | Some e => Some e
       | None => head (omap (refused enc) lines)
       end.
Proof.
  revert t. induction lines as [|line lines IH]; intros t.
  - simpl. by destruct (GetError t).
  - simpl. unfold decoded at 1, refused at 1.
    destruct (len line =? 0); [apply IH|].
    destruct (UnmarshalMessage enc line) as [msg|e].
    + destruct (IH t) as [Hmsgs Herr].
      destruct (messageReaderLoop enc (map _ lines) t) as [t' msgs]. simpl in *.
      split; [by rewrite Hmsgs|done].
    + destruct (IH (OnError t e)) as [Hmsgs Herr]. split; [done|].
      rewrite Herr, OnError_stored. by destruct (GetError t).
Qed.

End ReaderFacts.

(** ** What the decoder returns *)

Section DecoderKinds.

Import Types.

Variable enc : Encoding.

(** The discriminator is the field "type" of the members the message is
    decoded from. *)
Lemma unmarshalTypeCheck_members (j : json) (ty : string) :
  unmarshalTypeCheck enc j = inl ty ->
  exists ms, structMembers enc j = inl ms
             /\ ty = decodeField enc storeString "type" ms "".
Proof.
  unfold unmarshalTypeCheck, unmarshalStruct. intros H.
  destruct (structMembers enc j) as [ms|e]; [|done].
  destruct (firstMismatch enc _ ms); [done|]. exists ms. split; congruence.
Qed.

Lemma orDecodeError_inl {A : Type} (message data : string) (r : A + error) (a : A) :
  orDecodeError message data r = inl a -> r = inl a.
Proof. destruct r; simpl; congruence. Qed.

Lemma orDecodeError_inr {A : Type} (message data : string) (r : A + error) (e : error) :
  orDecodeError message data r = inr e ->
  exists cause, e = JSONDecodeError message data (Some cause).
Proof. destruct r as [a|cause]; simpl; [done|]. intros [= <-]. by eexists. Qed.

(** X20: a message that decodes has the Go type its discriminator
    selects: the field the decoded message reports as its type is the
    discriminator of the input, a [UserMessage] has "user", an
    [AssistantMessage] "assistant", a [ResultMessage] "result", a
    [StreamEvent] "stream_event", and a [SystemMessage] one of "system",
    "control_request" and "control_response". *)
Theorem decoded_message_type (data : string) (msg : Message) :
  UnmarshalMessage enc data = inl msg ->
  exists j,
    parse enc data = inl j
    /\ unmarshalTypeCheck enc j = inl (GetMessageType msg)
    /\ match msg with
       | MsgUser _ => GetMessageType msg = "user"
       | MsgAssistant _ => GetMessageType msg = "assistant"
       | MsgSystem _ =>
           GetMessageType msg ∈ ["system"; "control_request"; "control_response"]
       | MsgResult _ => GetMessageType msg = "result"
       | MsgStream _ => GetMessageType msg = "stream_event"
       end.
Proof.
  unfold UnmarshalMessage. intros H.
  destruct (parse enc data) as [j|syntaxError]; [|done]. exists j. split; [done|].
  unfold unmarshalMessage in H.
  destruct (unmarshalTypeCheck enc j) as [ty|e] eqn:Hty; [|done].
  destruct (unmarshalTypeCheck_members j ty Hty) as (ms & Hms & Hfield).
  assert (Hsame : forall msg', GetMessageType msg' = ty ->
            inl (B := error) ty = inl (GetMessageType msg')) by (by intros ? ->).
  destruct (String.eqb ty "user") eqn:E1.
  { apply String.eqb_eq in E1. apply orDecodeError_inl in H.
    unfold asMessage, UserMessage_UnmarshalJSON, unmarshalStruct in H. rewrite Hms in H.
    destruct (firstMismatch enc userAuxFields ms); [done|].
    rewrite <- Hfield in H.
    destruct (unmarshalString _) as [s|].
    - simplify_eq. simpl. by split.
    - destruct (unmarshalRawSlice _) as [arr|]; [|done].
      destruct (unmarshalBlocks enc _); [|done]. simplify_eq. simpl. by split. }
  destruct (String.eqb ty "assistant") eqn:E2.
  { apply String.eqb_eq in E2. apply orDecodeError_inl in H.
    unfold asMessage, AssistantMessage_UnmarshalJSON, unmarshalStruct in H.
    rewrite Hms in H. destruct (firstMismatch enc _ ms); [done|].
    rewrite <- Hfield in H.
    destruct (unmarshalBlocks enc _); [|done]. simplify_eq. simpl. by split. }
  destruct (String.eqb ty "system" || String.eqb ty "control_request"
            || String.eqb ty "control_response") eqn:E3.
  { apply orDecodeError_inl in H.
    unfold asMessage, unmarshalSystemMessage, unmarshalStruct in H.
    rewrite Hms in H. destruct (firstMismatch enc _ ms); [done|].
    rewrite <- Hfield in H. simplify_eq. simpl. split; [done|].
    rewrite !orb_true_iff, !String.eqb_eq in E3. rewrite !elem_of_cons. tauto. }
  destruct (String.eqb ty "result") eqn:E4.
  { apply String.eqb_eq in E4. apply orDecodeError_inl in H.
    unfold asMessage, unmarshalResultMessage, unmarshalStruct in H.
    rewrite Hms in H. destruct (firstMismatch enc _ ms); [done|].
    rewrite <- Hfield in H. simplify_eq. simpl. by split. }
  destruct (String.eqb ty "stream_event") eqn:E5; [|done].
  apply String.eqb_eq in E5. apply orDecodeError_inl in H.
  unfold asMessage, unmarshalStreamEvent, unmarshalStruct in H.
  rewrite Hms in H. destruct (firstMismatch enc _ ms); [done|].
  rewrite <- Hfield in H. simplify_eq. simpl. by split.
Qed.

(** X21: [UnmarshalMessage] fails in two ways only.  The error is a
    decode error that carries the whole input and wraps a cause, or it is the
    parse error for a discriminator that is none of the known ones, without
    cause. *)
Theorem decoder_error_kinds (data : string) (e : error) :
  UnmarshalMessage enc data = inr e ->
  (exists message cause, e = JSONDecodeError message data (Some cause))
  \/ (exists j ty,
        parse enc data = inl j
        /\ unmarshalTypeCheck enc j = inl ty
        /\ (ty ∉ knownMessageTypes)
        /\ e = MessageParseError "unknown message type" ty None).
Proof.
  unfold UnmarshalMessage. intros H.
  destruct (parse enc data) as [j|syntaxError]; [|left; simplify_eq; by eexists _, _].
  unfold unmarshalMessage in H.
  destruct (unmarshalTypeCheck enc j) as [ty|e'] eqn:Hty;
    [|left; simplify_eq; by eexists _, _].
  destruct (String.eqb ty "user") eqn:E1;
    [left; apply orDecodeError_inr in H as [cause ->]; by eexists _, _|].
  destruct (String.eqb ty "assistant") eqn:E2;
    [left; apply orDecodeError_inr in H as [cause ->]; by eexists _, _|].
  destruct (String.eqb ty "system" || String.eqb ty "control_request"
            || String.eqb ty "control_response") eqn:E3;
    [left; apply orDecodeError_inr in H as [cause ->]; by eexists _, _|].
  destruct (String.eqb ty "result") eqn:E4;
    [left; apply orDecodeError_inr in H as [cause ->]; by eexists _, _|].
  destruct (String.eqb ty "stream_event") eqn:E5;
    [left; apply orDecodeError_inr in H as [cause ->]; by eexists _, _|].
  right. exists j, ty. split_and!; [done..| |by simplify_eq].
  rewrite !orb_false_iff in E3. destruct E3 as [[E3a E3b] E3c].
  rewrite String.eqb_neq in *. unfold knownMessageTypes.
  rewrite !not_elem_of_cons. split_and!; try done. apply not_elem_of_nil.
Qed.

(** X22: [UnmarshalContentBlock] returns the block its discriminator
    selects, and fails in two ways only: with a decode error that carries the
    whole input and wraps a cause, or with the parse error for a discriminator
    that is none of "text", "thinking", "tool_use" and "tool_result". *)
Theorem content_block_by_type (data : string) :
  match UnmarshalContentBlock enc data with
  | inl block =>
      match block with
      | TextBlock _ _ => GetType block = "text"
      | ThinkingBlock _ _ _ => GetType block = "thinking"
      | ToolUseBlock _ _ _ _ => GetType block = "tool_use"
      | ToolResultBlock _ _ _ _ => GetType block = "tool_result"
      end
  | inr e =>
      (exists message cause, e = JSONDecodeError message data (Some cause))
      \/ (exists ty,
            (ty ∉ ["text"; "thinking"; "tool_use"; "tool_result"])
            /\ e = MessageParseError "unknown content block type" ty None)
  end.
Proof.
  unfold UnmarshalContentBlock.
  destruct (parse enc data) as [j|syntaxError]; [|left; by eexists _, _].
  unfold unmarshalContentBlock.
  destruct (unmarshalTypeCheck enc j) as [ty|e'] eqn:Hty; [|left; by eexists _, _].
  destruct (unmarshalTypeCheck_members j ty Hty) as (ms & Hms & Hfield).
  destruct (String.eqb ty "text") eqn:E1.
  { apply String.eqb_eq in E1. unfold unmarshalTextBlock, unmarshalStruct. rewrite Hms.
    destruct (firstMismatch enc _ ms); simpl; [left; by eexists _, _|congruence]. }
  destruct (String.eqb ty "thinking") eqn:E2.
  { apply String.eqb_eq in E2. unfold unmarshalThinkingBlock, unmarshalStruct. rewrite Hms.
    destruct (firstMismatch enc _ ms); simpl; [left; by eexists _, _|congruence]. }
  destruct (String.eqb ty "tool_use") eqn:E3.
  { apply String.eqb_eq in E3. unfold unmarshalToolUseBlock, unmarshalStruct. rewrite Hms.
    destruct (firstMismatch enc _ ms); simpl; [left; by eexists _, _|congruence]. }
  destruct (String.eqb ty "tool_result") eqn:E4.
  { apply String.eqb_eq in E4. unfold unmarshalToolResultBlock, unmarshalStruct.
    rewrite Hms.
    destruct (firstMismatch enc _ ms); simpl; [left; by eexists _, _|congruence]. }
  right. exists ty. split; [|done]. rewrite String.eqb_neq in *.
  rewrite !not_elem_of_cons. split_and!; try done. apply not_elem_of_nil.
Qed.

End DecoderKinds.


(** ** More about the engine *)

Section ProtocolFacts.

Import Router.

Variable marshal : value -> string + error.
Variable decodePermissionUpdate : gomap -> option PermissionUpdate.

Abbreviation step := (Router.step marshal decodePermissionUpdate).
Abbreviation run := (Router.run marshal decodePermissionUpdate).
Abbreviation generatedIDs := (Router.generatedIDs marshal decodePermissionUpdate).

Lemma run_cons (s : System) (ev : event) (evs : list event) :
  run s (ev :: evs) = s' ← step s ev; run s' evs.
Proof. done. Qed.

Lemma reachable_Inv (t : Transport.SubprocessCLITransport)
  (callback : option CanUseToolFunc) (streaming : bool) (evs : list event) (s : System) :
  run (started t callback streaming) evs = Some s ->
  Z.of_nat (length evs) < 2 ^ 63 ->
  Inv s.
Proof.
  intros Hrun Hlen.
  by destruct (run_Inv marshal decodePermissionUpdate evs _ _ Hrun
                 (Inv_started t callback streaming)) as [? _]; [simpl; lia|].
Qed.

(** With the invariant of the pending table, the select of
    [handleControlResponse] can always proceed. *)
Lemma handleControlResponse_proceeds (s : System) (msg : SystemMessage) (pickSend : bool) :
  Inv s -> is_Some (handleControlResponse pickSend (query s) msg).
Proof.
  intros HI. unfold handleControlResponse.
  destruct (Response msg) as [responseData|]; [|by eexists].
  destruct (asString (index (Some responseData) "request_id")) as [requestID []];
    [|by eexists].
  destruct (requestMap (query s) !! requestID) as [responseChan|] eqn:Hp; [|by eexists].
  pose proof (inv_empty _ HI _ _ Hp) as Hempty.
  assert (Hoffer : forall r,
            is_Some (offerResult pickSend
                       (set_requestMap (query s) (delete requestID (requestMap (query s))))
                       responseChan r)).
  { intros r. unfold offerResult, selectSendOrDone. simpl. rewrite Hempty. simpl.
    destruct (ctx (query s)), pickSend; by eexists. }
  destruct (String.eqb _ "error").
  - destruct (Hoffer (mkResponseResult None
                        (Some (NewControlProtocolError
                                 (let errMsg := fst (asString (index (Some responseData) "error")) in
                                  if String.eqb errMsg "" then "unknown control protocol error"
                                  else errMsg))))) as [q' Hq'].
    simpl in *. rewrite Hq'. by eexists.
  - destruct (Hoffer (mkResponseResult (asMap (index (Some responseData) "response")) None))
      as [q' Hq'].
    simpl in *. rewrite Hq'. by eexists.
Qed.

(** X12: handing a control response to its waiter never blocks the
    message loop: in every state the engine reaches, whatever message comes
    next, [routeMessage] does not wait in the select of
    [handleControlResponse], so the loop, when it is at its select, can take
    the message. *)
Theorem message_loop_never_stuck (t : Transport.SubprocessCLITransport)
  (callback : option CanUseToolFunc) (streaming : bool) (evs : list event) (s : System)
  (msg : Message) (pickSend : bool) :
  run (started t callback streaming) evs = Some s ->
  Z.of_nat (length evs) < 2 ^ 63 ->
  routeMessage pickSend (query s) msg <> RouteStuck
  /\ (loop s = Running -> is_Some (step s (LoopRead msg pickSend))).
Proof.
  intros Hrun Hlen. pose proof (reachable_Inv _ _ _ _ _ Hrun Hlen) as HI.
  assert (Hroute : routeMessage pickSend (query s) msg <> RouteStuck).
  { unfold routeMessage.
    destruct (String.eqb (GetMessageType msg) "control_response").
    - destruct msg as [m|m|m|m|m]; try done.
      destruct (handleControlResponse_proceeds s m pickSend HI) as [[q' e] ->]. done.
    - destruct (String.eqb (GetMessageType msg) "control_request").
      + by destruct msg.
      + by destruct (selectSendOrDone _ _ _) as [[]|]. }
  split; [done|]. intros Hloop. simpl. rewrite Hloop.
  by destruct (routeMessage pickSend (query s) msg); try done; eexists.
Qed.

(** *** Without streaming mode *)

Lemma routeMessage_frame (pickSend : bool) (q : Query) (msg : Message) :
  match routeMessage pickSend q msg with
  | RouteReturned q' _ | RouteSpawned q' _ =>
      isStreamingMode q' = isStreamingMode q
      /\ nextRequestID q' = nextRequestID q
      /\ (requestMap q = ∅ -> requestMap q' = ∅)
  | _ => True
  end.
Proof.
  unfold routeMessage.
  destruct (String.eqb (GetMessageType msg) "control_response").
  { destruct msg as [m|m|m|m|m]; try done.
    destruct (handleControlResponse pickSend q m) as [[q0 e0]|] eqn:Hh; [|done].
    apply handleControlResponse_effect in Hh
      as [->|(rid & ch & Hp & [->|[r ->]])]; [done|..];
      (split_and!; [done..|]; intros Hempty; by rewrite Hempty in Hp). }
  destruct (String.eqb (GetMessageType msg) "control_request").
  { by destruct msg. }
  by destruct (selectSendOrDone _ _ _) as [[]|].
Qed.

Lemma step_idle (s s' : System) (ev : event) : idle s -> step s ev = Some s' -> idle s'.
Proof.
  intros (Hmode & Hnext & Hmap & Hcalls) Hstep.
  assert (Hno : forall g c, calls s !! g = Some c -> exists r, c = Finished r).
  { intros g c Hg. rewrite (Hcalls g c Hg). by eexists. }
  destruct ev as [g request|g|g io|g|g ctxErr|msg pickSend| | |n io|e]; simpl in Hstep.
  - assert (Hs' : s' = set_call s (query s) g
             (Finished (inr (NewControlProtocolError
                               "control requests require streaming mode")))).
    { unfold sendControlRequest_begin in Hstep. rewrite Hmode in Hstep. simpl in Hstep.
      destruct (calls s !! g) as [[]|]; by simplify_eq. }
    subst s'. split_and!; try done. intros g' c. simpl.
    intros [[-> <-]|[_ Hg']]%lookup_insert_Some; [done|by eapply Hcalls].
  - destruct (calls s !! g) as [c|] eqn:Hg; [|done].
    destruct (Hno g c Hg) as [r ->]. done.
  - destruct (calls s !! g) as [c|] eqn:Hg; [|done].
    destruct (Hno g c Hg) as [r ->]. done.
  - destruct (calls s !! g) as [c|] eqn:Hg; [|done].
    destruct (Hno g c Hg) as [r ->]. done.
  - destruct (calls s !! g) as [c|] eqn:Hg; [|done].
    destruct (Hno g c Hg) as [r ->]. done.
  - destruct (loop s); try done.
    pose proof (routeMessage_frame pickSend (query s) msg) as Hq.
    destruct (routeMessage pickSend (query s) msg) as [q' x|q' m| |]; simplify_eq.
    + destruct Hq as (Hm & Hn & Hq). unfold idle. simpl. rewrite Hm, Hn. auto.
    + destruct Hq as (Hm & Hn & Hq). unfold idle. simpl. rewrite Hm, Hn. auto.
    + by split_and!.
  - destruct (loop s); by simplify_eq.
  - destruct (messagesChan (query s)); [done|].
    destruct (loop s); simplify_eq; by split_and!.
  - destruct (spawned s !! n) as [sysMsg|]; [|done]. simpl in Hstep.
    destruct (handleControlRequest marshal decodePermissionUpdate (query s) sysMsg io)
      as [q'|] eqn:Hh; [|done].
    apply handleControlRequest_transport in Hh as [t' ->].
    simpl in Hstep. simplify_eq. by split_and!.
  - destruct (ctx (query s)); [by simplify_eq|].
    destruct (loop s); simplify_eq; by split_and!.
Qed.

Lemma run_idle (evs : list event) :
  forall s s', idle s -> run s evs = Some s' -> idle s' /\ generatedIDs s evs = [].
Proof.
  induction evs as [|ev evs IH]; intros s s' Hidle Hrun.
  - simpl in Hrun. by simplify_eq.
  - rewrite run_cons in Hrun. destruct (step s ev) as [s1|] eqn:Hstep; [|done].
    simpl in Hrun. pose proof (step_idle _ _ _ Hidle Hstep) as Hidle1.
    destruct (IH _ _ Hidle1 Hrun) as [Hidle' Hgen]. split; [done|].
    rewrite (generatedIDs_cons _ _ _ _ _ _ Hstep). destruct Hidle as [-> _].
    by destruct ev.
Qed.

(** X13: an engine that is not in streaming mode refuses every control
    request with the error "control requests require streaming mode": no
    identifier is generated, the counter stays at zero and nothing is ever
    entered in the pending table. *)
Theorem no_control_requests_without_streaming (t : Transport.SubprocessCLITransport)
  (callback : option CanUseToolFunc) (evs : list event) (s : System) :
  run (started t callback false) evs = Some s ->
  generatedIDs (started t callback false) evs = []
  /\ nextRequestID (query s) = 0
  /\ requestMap (query s) = ∅
  /\ forall g c, calls s !! g = Some c ->
       c = Finished (inr (NewControlProtocolError "control requests require streaming mode")).
Proof.
  intros Hrun.
  assert (Hidle : idle (started t callback false)).
  { by split_and!. }
  by destruct (run_idle evs _ s Hidle Hrun) as [(_ & ? & ? & ?) ?].
Qed.

(** *** A request that cannot be sent *)

Lemma generated_not_pending (s : System) (g : nat) (requestID : string) (request : gomap) :
  Inv s -> calls s !! g = Some (Generated requestID request) ->
  requestMap (query s) !! requestID = None.
Proof.
  intros HI Hg.
  destruct (requestMap (query s) !! requestID) as [responseChan|] eqn:Hp; [|done].
  destruct (inv_owner _ HI _ _ Hp) as (g' & c' & Hg' & Hr).
  assert (g = g') as <-.
  { eapply (inv_unique _ HI); eauto using registered_held. }
  rewrite Hg in Hg'. by simplify_eq.
Qed.

(** X14: a call of [sendControlRequest] that has its identifier registers
    it and writes the request.  When the request cannot be marshalled or the
    write fails, the call returns a control-protocol error that wraps the
    cause and the pending table is again what it was before the call;
    otherwise the envelope is the next line on the child's stdin and the call
    waits under its identifier. *)
Theorem unsent_request_leaves_no_entry (t : Transport.SubprocessCLITransport)
  (callback : option CanUseToolFunc) (streaming : bool) (evs : list event) (s : System)
  (g : nat) (requestID : string) (request : gomap) (io : option error) :
  run (started t callback streaming) evs = Some s ->
  Z.of_nat (length evs) < 2 ^ 63 ->
  calls s !! g = Some (Generated requestID request) ->
  exists s',
    run s [CallRegister g; CallWrite g io] = Some s'
    /\ match marshal (controlRequestEnvelope requestID request) with
       | inr e =>
           calls s' !! g
           = Some (Finished (inr (NewControlProtocolErrorWithCause
                                    "failed to marshal control request" e)))
           /\ requestMap (query s') = requestMap (query s)
           /\ Transport.stdin (transport (query s')) = Transport.stdin (transport (query s))
       | inl data =>
           match snd (Transport.Write (transport (query s)) data io) with
           | Some e =>
               calls s' !! g
               = Some (Finished (inr (NewControlProtocolErrorWithCause
                                        "failed to send control request" e)))
               /\ requestMap (query s') = requestMap (query s)
               /\ Transport.stdin (transport (query s'))
                  = Transport.stdin (transport (query s))
           | None =>
               exists responseChan,
                 calls s' !! g = Some (Waiting requestID responseChan)
                 /\ requestMap (query s') = <[requestID := responseChan]> (requestMap (query s))
                 /\ chans (query s') !! responseChan = Some []
                 /\ Transport.stdin (transport (query s'))
                    = Transport.stdin (transport (query s)) ++ [data]
           end
       end.
Proof.
  intros Hrun Hlen Hg. pose proof (reachable_Inv _ _ _ _ _ Hrun Hlen) as HI.
  pose proof (generated_not_pending s g requestID request HI Hg) as Hfresh.
  rewrite run_cons. simpl. rewrite Hg. simpl. rewrite lookup_insert_eq.
  unfold sendControlRequest_write. simpl.
  destruct (marshal (controlRequestEnvelope requestID request)) as [data|e].
  - unfold Transport.Write.
    destruct (Transport.ready (transport (query s))) eqn:Hready; simpl.
    + destruct (Transport.writer (transport (query s))) eqn:Hwriter; simpl.
      * destruct io as [e|]; simpl.
        -- eexists. split; [reflexivity|]. simpl. rewrite lookup_insert_eq.
           split_and!; [done| |done]. by rewrite delete_insert_id.
        -- eexists. split; [reflexivity|]. simpl. rewrite lookup_insert_eq.
           eexists. split_and!; [done..| |done]. apply lookup_insert_eq.
      * eexists. split; [reflexivity|]. simpl. rewrite lookup_insert_eq.
        split_and!; [done| |done]. by rewrite delete_insert_id.
    + eexists. split; [reflexivity|]. simpl. rewrite lookup_insert_eq.
      split_and!; [done| |done]. by rewrite delete_insert_id.
  - eexists. split; [reflexivity|]. simpl. rewrite lookup_insert_eq.
    split_and!; [done| |done]. by rewrite delete_insert_id.
Qed.

(** *** The first response decides *)

Lemma handleControlResponse_pending (pickSend : bool) (q : Query) (msg : SystemMessage)
  (responseData : gmap string value) (requestID : string) (responseChan : nat) :
  Response msg = Some responseData ->
  responseData !! "request_id" = Some (VString requestID) ->
  requestMap q !! requestID = Some responseChan ->
  chans q !! responseChan = Some [] ->
  ctx q = None ->
  exists result,
    handleControlResponse pickSend q msg
    = Some (set_chans (set_requestMap q (delete requestID (requestMap q)))
              (<[responseChan := [result]]> (chans q)), None)
    /\ match err result with
       | Some e => inr e
       | None => inl (response result)
       end = resultOfResponse responseData.
Proof.
  intros Hresp Hid Hp Hempty Hlive. unfold handleControlResponse, resultOfResponse.
  rewrite Hresp. simpl. rewrite Hid. simpl. rewrite Hp.
  unfold offerResult. simpl. rewrite Hempty, Hlive. simpl.
  destruct (String.eqb _ "error"); simpl; by eexists.
Qed.

Lemma handleControlResponse_orphan (pickSend : bool) (q : Query) (msg : SystemMessage)
  (responseData : gmap string value) (requestID : string) :
  Response msg = Some responseData ->
  responseData !! "request_id" = Some (VString requestID) ->
  requestMap q !! requestID = None ->
  handleControlResponse pickSend q msg = Some (q, None).
Proof.
  intros Hresp Hid Hp. unfold handleControlResponse.
  rewrite Hresp. simpl. rewrite Hid. simpl. by rewrite Hp.
Qed.

(** X15: when two responses arrive for the same pending request, the
    waiting caller returns what the first one carries; the second finds no
    entry and changes nothing. *)
Theorem first_response_wins (t : Transport.SubprocessCLITransport)
  (callback : option CanUseToolFunc) (streaming : bool) (evs : list event) (s : System)
  (g : nat) (requestID : string) (responseChan : nat)
  (first second : SystemMessage) (data1 data2 : gmap string value) (pick1 pick2 : bool) :
  run (started t callback streaming) evs = Some s ->
  Z.of_nat (length evs) < 2 ^ 63 ->
  ctx (query s) = None -> loop s = Running ->
  calls s !! g = Some (Waiting requestID responseChan) ->
  requestMap (query s) !! requestID = Some responseChan ->
  system_Type first = "control_response" -> Response first = Some data1 ->
  data1 !! "request_id" = Some (VString requestID) ->
  system_Type second = "control_response" -> Response second = Some data2 ->
  data2 !! "request_id" = Some (VString requestID) ->
  exists s',
    run s [LoopRead (MsgSystem first) pick1; LoopRead (MsgSystem second) pick2;
           CallReceive g] = Some s'
    /\ calls s' !! g = Some (Finished (resultOfResponse data1))
    /\ requestMap (query s') = delete requestID (requestMap (query s))
    /\ chans (query s') !! responseChan = Some [].
Proof.
  intros Hrun Hlen Hlive Hloop Hg Hp Hty1 Hr1 Hid1 Hty2 Hr2 Hid2.
  pose proof (reachable_Inv _ _ _ _ _ Hrun Hlen) as HI.
  pose proof (inv_empty _ HI _ _ Hp) as Hempty.
  destruct (handleControlResponse_pending pick1 (query s) first data1 requestID responseChan)
    as (result & Hh1 & Hres); [done..|].
  rewrite run_cons. simpl. rewrite Hloop. unfold routeMessage. simpl. rewrite Hty1. simpl.
  rewrite Hh1. simpl. rewrite Hty2. simpl.
  rewrite (handleControlResponse_orphan pick2 _ second data2 requestID); [|done..| ].
  - simpl. rewrite Hg. unfold sendControlRequest_receive. simpl.
    rewrite lookup_insert_eq. simpl. eexists. split; [reflexivity|]. simpl.
    rewrite lookup_insert_eq, Hres. split_and!; [done..|]. apply lookup_insert_eq.
  - simpl. apply lookup_delete_eq.
Qed.

(** *** Inbound control requests *)

Lemma denyResponse_lookup (r : PermissionResultDeny) :
  denyResponse r !! "behavior" = Some (VString "deny")
  /\ denyResponse r !! "updatedInput" = None
  /\ denyResponse r !! "updatedPermissions" = None
  /\ denyResponse r !! "message"
     = (if String.eqb (deny_Message r) "" then None else Some (VString (deny_Message r)))
  /\ denyResponse r !! "interrupt" = (if deny_Interrupt r then Some (VBool true) else None).
Proof.
  unfold denyResponse.
  destruct (String.eqb (deny_Message r) ""), (deny_Interrupt r); split_and!;
    by simplify_map_eq.
Qed.

Lemma allowResponse_no_denial (input : gomap) (r : PermissionResultAllow) :
  allowResponse input r !! "behavior" = Some (VString "allow")
  /\ is_Some (allowResponse input r !! "updatedInput")
  /\ allowResponse input r !! "message" = None
  /\ allowResponse input r !! "interrupt" = None.
Proof.
  unfold allowResponse.
  destruct (UpdatedInput r); case_bool_decide; split_and!; by simplify_map_eq.
Qed.

(** X16: the response of [handlePermissionRequest] says what the callback
    decided.  Whenever the handler returns a response, the callback has been
    called with the tool name and the input of the request and has returned an
    Allow or a Deny result; the behaviour of the response is "allow" for the
    former, with an updated input and neither message nor interrupt, and
    "deny" for the latter, with the message if it is not empty, the interrupt
    flag if it is set, and no updated input or permissions. *)
Theorem permission_decision_relayed (q : Query) (requestData response : gomap) :
  handlePermissionRequest decodePermissionUpdate q requestData = Returns response ->
  exists callback inputMap result responseMap,
    canUseTool q = Some callback
    /\ fst (asString (index requestData "tool_name")) <> ""
    /\ asMap (index requestData "input") = Some inputMap
    /\ callback (ctx q) (fst (asString (index requestData "tool_name"))) inputMap
         (mkToolPermissionContext
            (permissionUpdates decodePermissionUpdate
               (asSlice (index requestData "permission_suggestions")))) = inl result
    /\ response = Some responseMap
    /\ ((exists r, (result = AllowValue r \/ result = AllowPointer (Some r))
                   /\ responseMap !! "behavior" = Some (VString "allow")
                   /\ is_Some (responseMap !! "updatedInput")
                   /\ responseMap !! "message" = None
                   /\ responseMap !! "interrupt" = None)
        \/ (exists r, (result = DenyValue r \/ result = DenyPointer (Some r))
                      /\ responseMap !! "behavior" = Some (VString "deny")
                      /\ responseMap !! "updatedInput" = None
                      /\ responseMap !! "updatedPermissions" = None
                      /\ responseMap !! "message"
                         = (if String.eqb (deny_Message r) "" then None
                            else Some (VString (deny_Message r)))
                      /\ responseMap !! "interrupt"
                         = (if deny_Interrupt r then Some (VBool true) else None))).
Proof.
  unfold handlePermissionRequest. intros H.
  destruct (canUseTool q) as [callback|]; [|done].
  destruct (String.eqb (fst (asString (index requestData "tool_name"))) "") eqn:Hname; [done|].
  apply String.eqb_neq in Hname.
  destruct (asMap (index requestData "input")) as [inputMap|] eqn:Hin; [|done].
  destruct (callback _ _ _ _) as [result|e] eqn:Hcall; [|done].
  destruct result as [r|[r|]|r|[r|]|v]; simplify_eq.
  - eexists callback, inputMap, _, _. split_and!; try done. left. exists r.
    split; [by left|]. apply allowResponse_no_denial.
  - eexists callback, inputMap, _, _. split_and!; try done. left. exists r.
    split; [by right|]. apply allowResponse_no_denial.
  - eexists callback, inputMap, _, _. split_and!; try done. right. exists r.
    split; [by left|]. apply denyResponse_lookup.
  - eexists callback, inputMap, _, _. split_and!; try done. right. exists r.
    split; [by right|]. apply denyResponse_lookup.
Qed.

Lemma sendEnvelope_stdin (q : Query) (envelope : value) (io : option error) :
  Transport.stdin (transport (sendEnvelope marshal q envelope io))
  = Transport.stdin (transport q)
  \/ exists data, marshal envelope = inl data
                  /\ Transport.stdin (transport (sendEnvelope marshal q envelope io))
                     = Transport.stdin (transport q) ++ [data].
Proof.
  unfold sendEnvelope. destruct (marshal envelope) as [data|e]; [|by left].
  unfold Transport.Write. simpl.
  destruct (Transport.ready (transport q)), (Transport.writer (transport q)), io;
    simpl; eauto.
Qed.

(** X17: the goroutine that handles an inbound control request changes
    nothing but the transport: the pending table, the response channels, the
    consumer channel, the calls in progress and the message loop are left as
    they are.  It writes at most one line, and that line is a success or an
    error envelope that carries the identifier of the request. *)
Theorem inbound_request_handler_isolated (s s' : System) (n : nat) (io : option error)
  (sysMsg : SystemMessage) :
  spawned s !! n = Some sysMsg ->
  step s (RunHandler n io) = Some s' ->
  (requestMap (query s') = requestMap (query s)
   /\ chans (query s') = chans (query s)
   /\ messagesChan (query s') = messagesChan (query s)
   /\ nextRequestID (query s') = nextRequestID (query s)
   /\ ctx (query s') = ctx (query s)
   /\ calls s' = calls s /\ loop s' = loop s /\ consumed s' = consumed s)
  /\ (Transport.stdin (transport (query s')) = Transport.stdin (transport (query s))
      \/ exists envelope data,
           marshal envelope = inl data
           /\ Transport.stdin (transport (query s'))
              = Transport.stdin (transport (query s)) ++ [data]
           /\ ((exists response, envelope = successEnvelope (requestIDOf sysMsg) response)
               \/ (exists text, envelope = errorEnvelope (requestIDOf sysMsg) text))).
Proof.
  intros Hn Hstep. simpl in Hstep. rewrite Hn in Hstep. simpl in Hstep.
  destruct (handleControlRequest marshal decodePermissionUpdate (query s) sysMsg io)
    as [q'|] eqn:Hh; [|done].
  simpl in Hstep. simplify_eq. simpl.
  assert (Hsent : exists envelope,
            q' = sendEnvelope marshal (query s) envelope io
            /\ ((exists response, envelope = successEnvelope (requestIDOf sysMsg) response)
                \/ (exists text, envelope = errorEnvelope (requestIDOf sysMsg) text))).
  { unfold handleControlRequest, sendSuccessResponse, sendErrorResponse in Hh.
    destruct (String.eqb (requestIDOf sysMsg) "");
      [injection Hh as <-; eexists; split; [reflexivity|]; right; by eexists|].
    destruct (requestDataOf sysMsg);
      [|injection Hh as <-; eexists; split; [reflexivity|]; right; by eexists].
    destruct (dispatch decodePermissionUpdate (query s) _) as [response|e|]; [| |done];
      injection Hh as <-; eexists; (split; [reflexivity|]);
      [left|right]; by eexists. }
  destruct (handleControlRequest_transport marshal decodePermissionUpdate _ _ _ _ Hh)
    as [t' Hq'].
  split; [by rewrite Hq'|].
  destruct Hsent as (envelope & -> & Hshape).
  destruct (sendEnvelope_stdin (query s) envelope io) as [Hsame|(data & Hm & Hs)];
    [by left|]. right. by exists envelope, data.
Qed.

(** *** Nothing is left in the pending table *)

(** X25: every entry of the pending table belongs to exactly one call of
    [sendControlRequest], which has registered it and has not returned; so
    once every call has returned, the table is empty. *)
Theorem pending_entries_have_callers (t : Transport.SubprocessCLITransport)
  (callback : option CanUseToolFunc) (streaming : bool) (evs : list event) (s : System) :
  run (started t callback streaming) evs = Some s ->
  Z.of_nat (length evs) < 2 ^ 63 ->
  (forall requestID responseChan,
      requestMap (query s) !! requestID = Some responseChan ->
      exists g c,
        calls s !! g = Some c
        /\ registered c = Some (requestID, responseChan)
        /\ forall g' c', calls s !! g' = Some c' -> held c' = Some requestID -> g' = g)
  /\ ((forall g c, calls s !! g = Some c -> exists r, c = Finished r) ->
      requestMap (query s) = ∅).
Proof.
  intros Hrun Hlen. pose proof (reachable_Inv _ _ _ _ _ Hrun Hlen) as HI.
  split.
  - intros requestID responseChan Hp.
    destruct (inv_owner _ HI _ _ Hp) as (g & c & Hg & Hr). exists g, c.
    split_and!; [done..|]. intros g' c' Hg' Hheld.
    eapply (inv_unique _ HI); eauto using registered_held.
  - intros Hdone. apply map_empty. intros requestID.
    destruct (requestMap (query s) !! requestID) as [responseChan|] eqn:Hp; [|done].
    destruct (inv_owner _ HI _ _ Hp) as (g & c & Hg & Hr).
    by destruct (Hdone _ _ Hg) as [r ->].
Qed.

End ProtocolFacts.


(** ** Hook callbacks *)

Section HookFacts.

Import Router.

#[local] Instance hookIDFor_inj : Inj (=) (=) hookIDFor.
Proof.
  intros k1 k2 H. unfold hookIDFor in H.
  apply (inj (String.append "hook_")) in H. by apply (inj pretty) in H.
Qed.

Lemma resolves_extends (q q' : Query) (callbacks : list HookCallbackFunc)
  (ids : list string) :
  extends q q' -> resolves q callbacks ids -> resolves q' callbacks ids.
Proof.
  intros Hext H. eapply Forall2_impl; [done|]. intros cb id. apply Hext.
Qed.

Lemma registerHooks_spec (callbacks : list HookCallbackFunc) :
  forall q next,
    registryOK q next -> next + Z.of_nat (length callbacks) < 2 ^ 63 ->
    let '(q', next', ids) := registerHooks q next callbacks in
    registryOK q' next'
    /\ next' = next + Z.of_nat (length callbacks)
    /\ ids = hookIDFor <$> seqZ (next + 1) (Z.of_nat (length callbacks))
    /\ extends q q'
    /\ resolves q' callbacks ids.
Proof.
  induction callbacks as [|callback rest IH]; intros q next [Hnext Hids] Hbound.
  - simpl. split_and!; [done|lia|done|by intros ??|constructor].
  - simpl. rewrite length_cons in Hbound.
    assert (Hw : wrap64 (next + 1) = next + 1) by (apply wrap64_small; lia).
    rewrite Hw.
    set (q1 := set_hookCallbacks q (<[hookIDFor (next + 1) := callback]> (hookCallbacks q))).
    assert (Hfresh : hookCallbacks q !! hookIDFor (next + 1) = None).
    { destruct (hookCallbacks q !! hookIDFor (next + 1)) eqn:E; [|done].
      destruct (Hids (hookIDFor (next + 1))) as (k & Hk & Heq); [by rewrite E|].
      apply (inj hookIDFor) in Heq. lia. }
    assert (HOK1 : registryOK q1 (next + 1)).
    { split; [lia|]. intros id. unfold q1. simpl.
      intros [cb [[<- _]|[_ Hin]]%lookup_insert_Some].
      - exists (next + 1). split; [lia|done].
      - destruct (Hids id) as (k & Hk & ->); [by eexists|]. exists k. split; [lia|done]. }
    specialize (IH q1 (next + 1) HOK1 ltac:(lia)).
    destruct (registerHooks q1 (next + 1) rest) as [[q' next'] ids].
    destruct IH as (HOK' & -> & -> & Hext & Hres).
    split_and!; [done|lia| | |].
    + rewrite Nat2Z.inj_succ, (seqZ_cons (next + 1)) by lia. simpl.
      do 3 f_equal; lia.
    + intros id cb Hin. apply Hext. unfold q1. simpl.
      rewrite lookup_insert_ne; [done|]. intros <-. by rewrite Hfresh in Hin.
    + constructor; [|done]. apply Hext. unfold q1. simpl. apply lookup_insert_eq.
Qed.

Lemma extends_trans (q1 q2 q3 : Query) : extends q1 q2 -> extends q2 q3 -> extends q1 q3.
Proof. intros H12 H23 id cb Hin. by apply H23, H12. Qed.

Lemma seqZ_app_fmap (f : Z -> string) (m : Z) (a b : nat) :
  f <$> seqZ m (Z.of_nat (a + b))
  = (f <$> seqZ m (Z.of_nat a)) ++ (f <$> seqZ (m + Z.of_nat a) (Z.of_nat b)).
Proof. rewrite Nat2Z.inj_add, seqZ_app by lia. by rewrite fmap_app. Qed.

Lemma registerMatchers_spec (matchers : list HookMatcher) :
  forall q next,
    registryOK q next -> next + Z.of_nat (length (callbacksOf matchers)) < 2 ^ 63 ->
    let '(q', next', registered) := registerMatchers q next matchers in
    registryOK q' next'
    /\ next' = next + Z.of_nat (length (callbacksOf matchers))
    /\ concat (snd <$> registered)
       = hookIDFor <$> seqZ (next + 1) (Z.of_nat (length (callbacksOf matchers)))
    /\ extends q q'
    /\ Forall (fun entry => resolves q' (Hooks (fst entry)) (snd entry)) registered
    /\ fst <$> registered = matchers.
Proof.
  induction matchers as [|matcher rest IH]; intros q next HOK Hbound.
  - simpl. split_and!; [done|lia|done|by intros ??|constructor|done].
  - simpl. unfold callbacksOf in Hbound |- *. rewrite fmap_cons in Hbound |- *.
    simpl in Hbound |- *. rewrite length_app in Hbound |- *.
    fold (callbacksOf rest) in Hbound |- *.
    pose proof (registerHooks_spec (Hooks matcher) q next HOK ltac:(lia)) as H1.
    destruct (registerHooks q next (Hooks matcher)) as [[q1 next1] ids].
    destruct H1 as (HOK1 & -> & -> & Hext1 & Hres1).
    specialize (IH q1 _ HOK1 ltac:(lia)).
    destruct (registerMatchers q1 _ rest) as [[q' next'] registered].
    destruct IH as (HOK' & -> & Hids & Hext & Hall & Hm).
    split_and!; [done|lia| |by eapply extends_trans| |by rewrite fmap_cons, Hm].
    + rewrite fmap_cons. simpl. rewrite Hids, seqZ_app_fmap. do 3 f_equal. lia.
    + constructor; [|done]. simpl. by eapply resolves_extends.
Qed.

Lemma registerEvents_spec (hooks : list (string * list HookMatcher)) :
  forall q next,
    registryOK q next -> next + Z.of_nat (length (allCallbacks hooks)) < 2 ^ 63 ->
    let '(q', next', registered) := registerEvents q next hooks in
    registryOK q' next'
    /\ next' = next + Z.of_nat (length (allCallbacks hooks))
    /\ registeredIDs registered
       = hookIDFor <$> seqZ (next + 1) (Z.of_nat (length (allCallbacks hooks)))
    /\ extends q q'
    /\ Forall (fun event =>
                 Forall (fun entry => resolves q' (Hooks (fst entry)) (snd entry))
                        (snd event)) registered.
Proof.
  induction hooks as [|[event matchers] rest IH]; intros q next HOK Hbound.
  - simpl. split_and!; [done|lia|done|by intros ??|constructor].
  - unfold allCallbacks in Hbound |- *. rewrite fmap_cons in Hbound |- *.
    simpl in Hbound |- *. rewrite length_app in Hbound |- *.
    fold (allCallbacks rest) in Hbound |- *.
    case_bool_decide as Hlen.
    + apply nil_length_inv in Hlen as ->. simpl in *.
      specialize (IH q next HOK ltac:(lia)).
      destruct (registerEvents q next rest) as [[q' next'] registered].
      by replace (next + Z.of_nat (0 + length (allCallbacks rest)))
        with (next + Z.of_nat (length (allCallbacks rest))) by lia.
    + pose proof (registerMatchers_spec matchers q next HOK ltac:(lia)) as H1.
      destruct (registerMatchers q next matchers) as [[q1 next1] eventHooks].
      destruct H1 as (HOK1 & -> & Hids1 & Hext1 & Hall1 & _).
      specialize (IH q1 _ HOK1 ltac:(lia)).
      destruct (registerEvents q1 _ rest) as [[q' next'] registered].
      destruct IH as (HOK' & -> & Hids & Hext & Hall).
      split_and!; [done|lia| |by eapply extends_trans|].
      * unfold registeredIDs in Hids |- *. rewrite fmap_cons. simpl.
        rewrite fmap_app, concat_app, Hids1, Hids, seqZ_app_fmap. do 3 f_equal. lia.
      * constructor; [|done]. simpl. eapply Forall_impl; [done|].
        intros entry. by apply resolves_extends.
Qed.

Lemma hookIDFor_nonempty (k : Z) : hookIDFor k <> "".
Proof. done. Qed.

(** X18: the hook callbacks that [Initialize] registers on a new query get
    the identifiers hook_1, hook_2, ... in the order of registration, all
    different, and each identifier listed for a matcher resolves to the
    callback at its place: a hook_callback request that carries it runs
    exactly that callback. *)
Theorem hook_ids_resolve (t : Transport.SubprocessCLITransport)
  (opts_CanUseTool : option CanUseToolFunc) (streaming : bool)
  (hooks : list (string * list HookMatcher))
  (q' : Query) (next' : Z) (registered : list (string * list (HookMatcher * list string))) :
  Z.of_nat (length (allCallbacks hooks)) < 2 ^ 63 ->
  registerEvents (NewQuery t opts_CanUseTool streaming) 0 hooks = (q', next', registered) ->
  registeredIDs registered
  = hookIDFor <$> seqZ 1 (Z.of_nat (length (allCallbacks hooks)))
  /\ NoDup (registeredIDs registered)
  /\ forall event eventHooks matcher callbackIDs k callback callbackID requestData,
       (event, eventHooks) ∈ registered ->
       (matcher, callbackIDs) ∈ eventHooks ->
       Hooks matcher !! k = Some callback ->
       callbackIDs !! k = Some callbackID ->
       asString (index requestData "callback_id") = (callbackID, true) ->
       handleHookCallback q' requestData
       = match callback (ctx q') (index requestData "input") None with
         | inr e => inr e
         | inl (VMap response) => inl response
         | inl _ =>
             inr (NewControlProtocolError
                    "hook callback must return map[string]interface{}")
         end.
Proof.
  intros Hbound Hreg.
  assert (HOK : registryOK (NewQuery t opts_CanUseTool streaming) 0).
  { split; [done|]. intros id [cb Hin]. simpl in Hin. by rewrite lookup_empty in Hin. }
  pose proof (registerEvents_spec hooks _ 0 HOK ltac:(lia)) as Hspec.
  rewrite Hreg in Hspec. destruct Hspec as (HOK' & _ & Hids & _ & Hall).
  split_and!; [done| |].
  - rewrite Hids. apply (NoDup_fmap_2 _), NoDup_seqZ.
  - intros event eventHooks matcher callbackIDs k callback callbackID requestData
      Hev Hm Hk Hid Hreq.
    rewrite Forall_forall in Hall. specialize (Hall _ Hev). simpl in Hall.
    rewrite Forall_forall in Hall. specialize (Hall _ Hm). simpl in Hall.
    assert (Hfound : hookCallbacks q' !! callbackID = Some callback).
    { by apply (Forall2_lookup_lr _ _ _ k _ _ Hall). }
    assert (Hne : callbackID <> "").
    { destruct (proj2 HOK' callbackID) as (j & _ & ->); [by eexists|].
      apply hookIDFor_nonempty. }
    unfold handleHookCallback. rewrite Hreq. simpl.
    apply String.eqb_neq in Hne. by rewrite Hne, Hfound.
Qed.

End HookFacts.

(** ** Forwarding a response *)

Section ForwardFacts.

Import Types Forward.

Lemma forward_prefix (rounds : list round) :
  fst (forward rounds) `prefix_of` received rounds.
Proof.
  induction rounds as [|[| |msg []] rounds IH]; simpl; try apply prefix_nil.
  destruct (isResult msg).
  - apply prefix_cons, prefix_nil.
  - destruct (forward rounds) as [out closed]. by apply prefix_cons.
Qed.

Lemma forward_result_last (rounds : list round) (i : nat) (msg : Message) :
  fst (forward rounds) !! i = Some msg -> isResult msg = true ->
  length (fst (forward rounds)) = S i.
Proof.
  revert i. induction rounds as [|[| |m []] rounds IH]; intros i; simpl; try done.
  destruct (isResult m) eqn:Hm.
  - destruct i; [done|]. simpl. by rewrite lookup_nil.
  - destruct (forward rounds) as [out closed]. simpl in *.
    destruct i as [|i]; simpl.
    + intros [= ->] ?. congruence.
    + intros Hi Hr. by rewrite (IH i Hi Hr).
Qed.

Lemma forward_until_result (before : list Message) (result : Message) (rest : list round) :
  Forall (fun m => isResult m = false) before -> isResult result = true ->
  forward (((fun m => Received m true) <$> before) ++ Received result true :: rest)
  = (before ++ [result], true).
Proof.
  intros Hbefore Hresult. induction Hbefore as [|m before Hm _ IH].
  - simpl. by rewrite Hresult.
  - rewrite fmap_cons, <- app_comm_cons. cbn [forward]. by rewrite Hm, IH.
Qed.

(** X23: what [ReceiveResponse] puts on its channel is a prefix of the
    messages that arrive, and a result message is the last thing it forwards.
    On a client that is not connected the channel is closed with nothing on
    it.  On a connected client, when messages keep arriving and each send is
    taken, the channel receives the messages up to and including the first
    result message and is closed, whatever arrives later. *)
Theorem ReceiveResponse_until_result (c : Session.Client) (rounds : list round) :
  fst (ReceiveResponse c rounds) `prefix_of` received rounds
  /\ (forall i msg,
        fst (ReceiveResponse c rounds) !! i = Some msg -> isResult msg = true ->
        length (fst (ReceiveResponse c rounds)) = S i)
  /\ (Session.connected c = false -> ReceiveResponse c rounds = ([], true))
  /\ (forall before result rest,
        Session.connected c = true -> Session.query c = true ->
        rounds = ((fun m => Received m true) <$> before) ++ Received result true :: rest ->
        Forall (fun m => isResult m = false) before -> isResult result = true ->
        ReceiveResponse c rounds = (before ++ [result], true)).
Proof.
  unfold ReceiveResponse. split_and!.
  - destruct (negb _ || negb _); [apply prefix_nil|apply forward_prefix].
  - intros i msg. destruct (negb _ || negb _); [done|apply forward_result_last].
  - by intros ->.
  - intros before result rest -> -> -> Hbefore Hresult. simpl.
    by apply forward_until_result.
Qed.

End ForwardFacts.

(** ** The command line *)

Section CommandFacts.

Import Command.

(** An invariant of the arguments passes through a stage of the
    function. *)
Lemma stage_invariant (Q P : list string -> Prop) (args : list string)
  (rest : list string -> list string) :
  Q args -> (forall args', Q args' -> P (rest args')) -> P (let args' := args in rest args').
Proof. intros HQ HP. by apply HP. Qed.

Ltac stage Q P :=
  lazymatch goal with
  | |- P (let args := ?a in @?rest args) => apply (stage_invariant Q P a rest)
  end.

(** The arguments are a body, which starts with the three stream flags and
    holds the flag that bypasses the permissions only as a string of the
    caller, followed by the bypass flags. *)
Lemma buildCommandArgs_body (options : option ClaudeAgentOptions) (resumeSessionID : string) :
  exists body,
    buildCommandArgs options resumeSessionID
    = body ++ match options with
              | Some o =>
                  if AllowDangerouslySkipPermissions o
                  then allowFlag :: (if DangerouslySkipPermissions o then [skipFlag] else [])
                  else []
              | None => []
              end
    /\ ["--input-format=stream-json"; "--output-format=stream-json"; "--verbose"]
         `prefix_of` body
    /\ (skipFlag ∉ operands options resumeSessionID -> skipFlag ∉ body).
Proof.
  set (Q := fun body : list string =>
              ["--input-format=stream-json"; "--output-format=stream-json"; "--verbose"]
                `prefix_of` body
              /\ (skipFlag ∉ operands options resumeSessionID -> skipFlag ∉ body)).
  assert (Hstep : forall args flag v,
            Q args -> skipFlag <> flag -> v ∈ operands options resumeSessionID ->
            Q (args ++ [flag; v])).
  { intros args flag v [Hpre Hnot] Hflag Hv. split; [by apply prefix_app_r|].
    intros Hop. rewrite not_elem_of_app, !not_elem_of_cons.
    split_and!; [by apply Hnot|done| |apply not_elem_of_nil]. by intros <-. }
  cut (forall P : list string -> Prop,
         (forall body, Q body ->
            P (match options with
               | Some o =>
                   if AllowDangerouslySkipPermissions o then
                     let args := body ++ [allowFlag] in
                     if DangerouslySkipPermissions o then args ++ [skipFlag] else args
                   else body
               | None => body
               end)) ->
         P (buildCommandArgs options resumeSessionID)).
  { intros Hcut. apply Hcut. intros body HQ. exists body. split; [|done].
    destruct options as [o|]; [|by rewrite app_nil_r].
    destruct (AllowDangerouslySkipPermissions o); [|by rewrite app_nil_r].
    destruct (DangerouslySkipPermissions o); simpl; by rewrite <- ?app_assoc. }
  intros P HP. cbv beta delta [buildCommandArgs].
  stage Q P.
  { split; [reflexivity|]. intros _. rewrite !not_elem_of_cons.
    split_and!; try done. apply not_elem_of_nil. }
  intros args HQ. stage Q P.
  { destruct options as [o|]; [|done].
    destruct (PermissionPromptToolName o) as [name|] eqn:E; [|done].
    apply Hstep; [done..|]. unfold operands. rewrite E. set_solver. }
  clear args HQ. intros args HQ. stage Q P.
  { destruct options as [o|]; [|done].
    destruct (PermissionMode o) as [mode|] eqn:E; [|done].
    apply Hstep; [done..|]. unfold operands. rewrite E. set_solver. }
  clear args HQ. intros args HQ. stage Q P.
  { destruct options as [o|]; [|done].
    destruct (SystemPrompt o) as [[promptStr|]|] eqn:E; [|done..].
    apply Hstep; [done..|]. unfold operands. rewrite E. set_solver. }
  clear args HQ. intros args HQ. stage Q P.
  { destruct options as [o|]; [|done].
    destruct (Model o) as [model|] eqn:E; [|done].
    apply Hstep; [done..|]. unfold operands. rewrite E. set_solver. }
  clear args HQ. intros args HQ. stage Q P.
  { destruct (String.eqb resumeSessionID ""); [done|].
    apply Hstep; [done..|]. unfold operands. set_solver. }
  clear args HQ. intros args HQ. stage Q P.
  { destruct options as [o|]; [|done]. destruct (ForkSession o); [|done].
    destruct HQ as [Hpre Hnot]. split; [by apply prefix_app_r|].
    intros Hop. rewrite not_elem_of_app, !not_elem_of_cons.
    split_and!; [by apply Hnot|done|apply not_elem_of_nil]. }
  exact HP.
Qed.

(** X24: the command line starts with the three stream flags, and as
    long as no string of the caller is itself the flag, the flag that
    bypasses all permissions is passed exactly when the options set both
    [AllowDangerouslySkipPermissions] and [DangerouslySkipPermissions]; it
    then comes last, right after the flag that allows it. *)
Theorem skip_flag_needs_safety_switch (options : option ClaudeAgentOptions)
  (resumeSessionID : string) :
  ["--input-format=stream-json"; "--output-format=stream-json"; "--verbose"]
    `prefix_of` buildCommandArgs options resumeSessionID
  /\ (skipFlag ∉ operands options resumeSessionID ->
      (skipFlag ∈ buildCommandArgs options resumeSessionID
       <-> exists o, options = Some o
                     /\ AllowDangerouslySkipPermissions o = true
                     /\ DangerouslySkipPermissions o = true))
  /\ (forall o, options = Some o ->
        AllowDangerouslySkipPermissions o = true ->
        DangerouslySkipPermissions o = true ->
        exists before,
          buildCommandArgs options resumeSessionID = before ++ [allowFlag; skipFlag]).
Proof.
  destruct (buildCommandArgs_body options resumeSessionID) as (body & -> & Hpre & Hnot).
  split_and!.
  - by apply prefix_app_r.
  - intros Hop. specialize (Hnot Hop). rewrite elem_of_app. split.
    + intros [Hin|Hin]; [done|]. destruct options as [o|]; [|by apply elem_of_nil in Hin].
      exists o. split; [done|].
      destruct (AllowDangerouslySkipPermissions o); [|by apply elem_of_nil in Hin].
      split; [done|].
      destruct (DangerouslySkipPermissions o); [done|].
      apply elem_of_cons in Hin as [Hin|Hin]; [done|by apply elem_of_nil in Hin].
    + intros (o & -> & -> & ->). right. apply elem_of_cons. right.
      apply elem_of_cons. by left.
  - intros o -> -> ->. by exists body.
Qed.

End CommandFacts.

(** ** The statements at concrete inputs *)

Import Router Examples.

Lemma ParseSemanticVersion_String_witness :
  Version.ParseSemanticVersion asciiTrimSpace "  v2.1.5-beta.1 "
  = inl (Version.mkSemanticVersion 2 1 5).
Proof.
  apply (ParseSemanticVersion_String asciiTrimSpace (Version.mkSemanticVersion 2 1 5)
           "  v2.1.5-beta.1 " "-beta.1").
  - simpl. lia.
  - simpl. lia.
  - simpl. lia.
  - reflexivity.
  - right. vm_compute. reflexivity.
Defined.

Lemma ParseSemanticVersion_sound_witness :
  exists major minor patch rest,
    Version.TrimPrefix (asciiTrimSpace "10.20.30") "v"
    = major +:+ "." +:+ minor +:+ "." +:+ patch +:+ rest
    /\ (Version.allDigits major = true /\ major <> "" /\ digitsValue major 0 = Some 10)
    /\ (Version.allDigits minor = true /\ minor <> "" /\ digitsValue minor 0 = Some 20)
    /\ (Version.allDigits patch = true /\ patch <> "" /\ digitsValue patch 0 = Some 30)
    /\ Version.startsWithDigit rest = false
    /\ 0 <= 10 < 2 ^ 63 /\ 0 <= 20 < 2 ^ 63 /\ 0 <= 30 < 2 ^ 63.
Proof.
  apply (ParseSemanticVersion_sound asciiTrimSpace "10.20.30"
           (Version.mkSemanticVersion 10 20 30)).
  vm_compute. reflexivity.
Defined.

Lemma GetError_after_run_witness :
  Transport.GetError (Transport.run Transport.connected brokenPipe)
  = Some (NewCLIConnectionErrorWithCause "failed to write to subprocess stdin"
            (Foreign "broken pipe")).
Proof.
  apply (GetError_after_run Transport.connected brokenPipe); reflexivity.
Defined.

Lemma message_loop_never_stuck_witness :
  exists s : System,
    Router.run exampleMarshal exampleDecodeUpdate engine pendingCall = Some s
    /\ routeMessage true (query s) (MsgSystem successResponse) <> RouteStuck
    /\ (loop s = Running ->
        is_Some (Router.step exampleMarshal exampleDecodeUpdate s
                   (LoopRead (MsgSystem successResponse) true))).
Proof.
  eexists. split; [vm_compute; reflexivity|].
  apply (message_loop_never_stuck exampleMarshal exampleDecodeUpdate
           Transport.connected (Some allowAll) true pendingCall);
    vm_compute; reflexivity.
Defined.

Lemma no_control_requests_without_streaming_witness :
  exists s : System,
    Router.run exampleMarshal exampleDecodeUpdate
      (started Transport.connected (Some allowAll) false) refusedCall = Some s
    /\ Router.generatedIDs exampleMarshal exampleDecodeUpdate
         (started Transport.connected (Some allowAll) false) refusedCall = []
    /\ nextRequestID (query s) = 0
    /\ requestMap (query s) = ∅
    /\ forall g c, calls s !! g = Some c ->
         c = Finished (inr (NewControlProtocolError
                              "control requests require streaming mode")).
Proof.
  eexists. split; [vm_compute; reflexivity|].
  apply (no_control_requests_without_streaming exampleMarshal exampleDecodeUpdate
           Transport.connected (Some allowAll) refusedCall).
  vm_compute. reflexivity.
Defined.

Lemma unsent_request_leaves_no_entry_witness :
  exists s s' : System,
    Router.run exampleMarshal exampleDecodeUpdate engine generatedCall = Some s
    /\ Router.run exampleMarshal exampleDecodeUpdate s
         [CallRegister 1; CallWrite 1 (Some (Foreign "broken pipe"))] = Some s'
    /\ calls s' !! 1%nat
       = Some (Finished (inr (NewControlProtocolErrorWithCause
                                "failed to send control request"
                                (NewCLIConnectionErrorWithCause
                                   "failed to write to subprocess stdin"
                                   (Foreign "broken pipe")))))
    /\ requestMap (query s') = requestMap (query s)
    /\ Transport.stdin (transport (query s')) = Transport.stdin (transport (query s)).
Proof.
  destruct (Router.run exampleMarshal exampleDecodeUpdate engine generatedCall)
    as [s|] eqn:Hrun; [|by vm_compute in Hrun].
  destruct (unsent_request_leaves_no_entry exampleMarshal exampleDecodeUpdate
              Transport.connected (Some allowAll) true generatedCall s 1 "req_1"
              modeRequest (Some (Foreign "broken pipe")) Hrun)
    as (s' & Hrun' & Hcase).
  - vm_compute. reflexivity.
  - vm_compute in Hrun. injection Hrun as <-. vm_compute. reflexivity.
  - exists s, s'. split; [reflexivity|]. split; [exact Hrun'|].
    vm_compute in Hrun. injection Hrun as <-. exact Hcase.
Defined.

Lemma first_response_wins_witness :
  exists s s' : System,
    Router.run exampleMarshal exampleDecodeUpdate engine pendingCall = Some s
    /\ Router.run exampleMarshal exampleDecodeUpdate s
         [LoopRead (MsgSystem successResponse) true;
          LoopRead (MsgSystem errorResponse) true; CallReceive 1] = Some s'
    /\ calls s' !! 1%nat
       = Some (Finished (inl (Some (<["mode" := VString "default"]> ∅))))
    /\ requestMap (query s') = delete "req_1" (requestMap (query s))
    /\ chans (query s') !! 0%nat = Some [].
Proof.
  destruct (Router.run exampleMarshal exampleDecodeUpdate engine pendingCall)
    as [s|] eqn:Hrun; [|by vm_compute in Hrun].
  destruct (first_response_wins exampleMarshal exampleDecodeUpdate
              Transport.connected (Some allowAll) true pendingCall s 1 "req_1" 0
              successResponse errorResponse (default ∅ (Response successResponse))
              (default ∅ (Response errorResponse)) true true Hrun)
    as (s' & Hrun' & Hcall & Hmap & Hchan);
    try (vm_compute in Hrun; injection Hrun as <-; vm_compute; reflexivity);
    try reflexivity.
  exists s, s'. split; [reflexivity|]. split; [exact Hrun'|].
  split; [exact Hcall|]. split; [exact Hmap|exact Hchan].
Defined.

Lemma permission_decision_relayed_witness :
  exists response : gomap,
    handlePermissionRequest exampleDecodeUpdate (query engine) bashRequest
    = Returns response
    /\ exists callback inputMap result responseMap,
         canUseTool (query engine) = Some callback
         /\ fst (asString (index bashRequest "tool_name")) <> ""
         /\ asMap (index bashRequest "input") = Some inputMap
         /\ callback (ctx (query engine)) (fst (asString (index bashRequest "tool_name")))
              inputMap
              (mkToolPermissionContext
                 (permissionUpdates exampleDecodeUpdate
                    (asSlice (index bashRequest "permission_suggestions")))) = inl result
         /\ response = Some responseMap
         /\ ((exists r, (result = AllowValue r \/ result = AllowPointer (Some r))
                        /\ responseMap !! "behavior" = Some (VString "allow")
                        /\ is_Some (responseMap !! "updatedInput")
                        /\ responseMap !! "message" = None
                        /\ responseMap !! "interrupt" = None)
             \/ (exists r, (result = DenyValue r \/ result = DenyPointer (Some r))
                           /\ responseMap !! "behavior" = Some (VString "deny")
                           /\ responseMap !! "updatedInput" = None
                           /\ responseMap !! "updatedPermissions" = None
                           /\ responseMap !! "message"
                              = (if String.eqb (deny_Message r) "" then None
                                 else Some (VString (deny_Message r)))
                           /\ responseMap !! "interrupt"
                              = (if deny_Interrupt r then Some (VBool true) else None))).
Proof.
  eexists. split; [vm_compute; reflexivity|].
  apply (permission_decision_relayed exampleDecodeUpdate (query engine) bashRequest).
  vm_compute. reflexivity.
Defined.

Lemma inbound_request_handler_isolated_witness :
  exists s s' : System,
    Router.run exampleMarshal exampleDecodeUpdate engine inboundRequest = Some s
    /\ Router.step exampleMarshal exampleDecodeUpdate s (RunHandler 0 None) = Some s'
    /\ (requestMap (query s') = requestMap (query s)
        /\ chans (query s') = chans (query s)
        /\ messagesChan (query s') = messagesChan (query s)
        /\ nextRequestID (query s') = nextRequestID (query s)
        /\ ctx (query s') = ctx (query s)
        /\ calls s' = calls s /\ loop s' = loop s /\ consumed s' = consumed s)
    /\ (Transport.stdin (transport (query s')) = Transport.stdin (transport (query s))
        \/ exists envelope data,
             exampleMarshal envelope = inl data
             /\ Transport.stdin (transport (query s'))
                = Transport.stdin (transport (query s)) ++ [data]
             /\ ((exists response,
                    envelope = successEnvelope (requestIDOf mcpRequest) response)
                 \/ (exists text,
                       envelope = errorEnvelope (requestIDOf mcpRequest) text))).
Proof.
  destruct (Router.run exampleMarshal exampleDecodeUpdate engine inboundRequest)
    as [s|] eqn:Hrun; [|by vm_compute in Hrun].
  destruct (Router.step exampleMarshal exampleDecodeUpdate s (RunHandler 0 None))
    as [s'|] eqn:Hstep;
    [|vm_compute in Hrun; injection Hrun as <-; by vm_compute in Hstep].
  exists s, s'. split; [reflexivity|]. split; [exact Hstep|].
  apply (inbound_request_handler_isolated exampleMarshal exampleDecodeUpdate
           s s' 0 None mcpRequest); [|exact Hstep].
  vm_compute in Hrun. injection Hrun as <-. vm_compute. reflexivity.
Defined.

Lemma hook_ids_resolve_witness :
  exists (q' : Query) (next' : Z) registered,
    registerEvents (NewQuery Transport.connected None true) 0 exampleHooks
    = (q', next', registered)
    /\ registeredIDs registered = ["hook_1"; "hook_2"; "hook_3"]
    /\ handleHookCallback q' hookRequest
       = inl (Some (<["decision" := VString "block"]> ∅)).
Proof.
  destruct (registerEvents (NewQuery Transport.connected None true) 0 exampleHooks)
    as [[q' next'] registered] eqn:Hreg.
  destruct (hook_ids_resolve Transport.connected None true exampleHooks q' next' registered)
    as (Hids & _ & Hcall); [vm_compute; reflexivity|exact Hreg|].
  exists q', next', registered. split; [reflexivity|]. split; [exact Hids|].
  vm_compute in Hreg. injection Hreg as <- <- <-.
  apply (Hcall "PreToolUse"
           [(mkHookMatcher (Some "Bash") [approveHook; blockHook], ["hook_1"; "hook_2"])]
           (mkHookMatcher (Some "Bash") [approveHook; blockHook])
           ["hook_1"; "hook_2"] 1%nat blockHook "hook_2" hookRequest).
  - apply elem_of_cons. left. reflexivity.
  - apply elem_of_cons. left. reflexivity.
  - reflexivity.
  - reflexivity.
  - reflexivity.
Defined.

Lemma decoded_message_type_witness :
  exists j,
    parse exampleEncoding userBlocksLine = inl j
    /\ Types.unmarshalTypeCheck exampleEncoding j
       = inl (GetMessageType
                (MsgUser (mkUserMessage "user" (ContentBlocks [TextBlock "text" "Hello"])
                            None)))
    /\ GetMessageType
         (MsgUser (mkUserMessage "user" (ContentBlocks [TextBlock "text" "Hello"]) None))
       = "user".
Proof.
  apply (decoded_message_type exampleEncoding userBlocksLine
           (MsgUser (mkUserMessage "user" (ContentBlocks [TextBlock "text" "Hello"]) None))).
  vm_compute. reflexivity.
Defined.

Lemma decoder_error_kinds_witness :
  (exists message cause,
     MessageParseError "unknown message type" "bogus" None
     = JSONDecodeError message bogusLine (Some cause))
  \/ (exists j ty,
        parse exampleEncoding bogusLine = inl j
        /\ Types.unmarshalTypeCheck exampleEncoding j = inl ty
        /\ (ty ∉ Types.knownMessageTypes)
        /\ MessageParseError "unknown message type" "bogus" None
           = MessageParseError "unknown message type" ty None).
Proof.
  apply (decoder_error_kinds exampleEncoding bogusLine
           (MessageParseError "unknown message type" "bogus" None)).
  vm_compute. reflexivity.
Defined.

Lemma pending_entries_have_callers_witness :
  exists s : System,
    Router.run exampleMarshal exampleDecodeUpdate engine twoCalls = Some s
    /\ (forall requestID responseChan,
          requestMap (query s) !! requestID = Some responseChan ->
          exists g c,
            calls s !! g = Some c
            /\ registered c = Some (requestID, responseChan)
            /\ forall g' c', calls s !! g' = Some c' -> held c' = Some requestID -> g' = g)
    /\ ((forall g c, calls s !! g = Some c -> exists r, c = Finished r) ->
        requestMap (query s) = ∅).
Proof.
  eexists. split; [vm_compute; reflexivity|].
  apply (pending_entries_have_callers exampleMarshal exampleDecodeUpdate
           Transport.connected (Some allowAll) true twoCalls);
    vm_compute; reflexivity.
Defined.
